(** * INDI drivers: property reconciliation and the mount state machine

    A shallow embedding of the driver code of
      - drivers/telescope/ieqpro.cpp          (module [IEQPro])
      - drivers/telescope/lx200fs2.cpp        (module [LX200FS2])
      - drivers/auxiliary/deepskydad_fp.cpp   (module [DeepSkyDadFP])
      - libs/indibase/indiguiderinterface.cpp (module [GuiderInterface])
      - drivers/auxiliary/pegasus_flatmaster.cpp
                                              (module [PegasusFlatMaster])
      - drivers/alpaca/device_manager.cpp     (module [DeviceManager])

    Every driver method is a function on an explicit world: the fields of the
    driver object it reads or writes, the state of the device at the other
    end of the transport, and the chronological list of observable events
    (device commands sent, properties published, sleeps).  The device is a
    deterministic transition function, a variable of each section, so every
    theorem holds for every device. *)

From Stdlib Require Import ZArith Ascii String List Bool Lia.
Import ListNotations.
Local Open Scope Z_scope.

(** ** The part of the INDI property model the drivers use *)

Module Indi.

(** indiapi.h: [IPState], the validity state of a property. *)
Inductive IPState := IPS_IDLE | IPS_OK | IPS_BUSY | IPS_ALERT.

(** indiapi.h: [ISState], the state of one switch. *)
Inductive ISState := ISS_OFF | ISS_ON.

(** inditelescope.h: [TelescopeStatus], the session state of a mount. *)
Inductive TelescopeStatus :=
| SCOPE_IDLE | SCOPE_SLEWING | SCOPE_TRACKING | SCOPE_PARKING | SCOPE_PARKED.

Inductive TelescopeMotionCommand := MOTION_START | MOTION_STOP.
Inductive INDI_DIR_NS := DIRECTION_NORTH | DIRECTION_SOUTH.
Inductive INDI_DIR_WE := DIRECTION_WEST | DIRECTION_EAST.

Definition IPState_eqb (a b : IPState) : bool :=
  match a, b with
  | IPS_IDLE, IPS_IDLE | IPS_OK, IPS_OK
  | IPS_BUSY, IPS_BUSY | IPS_ALERT, IPS_ALERT => true
  | _, _ => false
  end.

Definition ISState_eqb (a b : ISState) : bool :=
  match a, b with
  | ISS_OFF, ISS_OFF | ISS_ON, ISS_ON => true
  | _, _ => false
  end.

Definition TelescopeStatus_eqb (a b : TelescopeStatus) : bool :=
  match a, b with
  | SCOPE_IDLE, SCOPE_IDLE | SCOPE_SLEWING, SCOPE_SLEWING
  | SCOPE_TRACKING, SCOPE_TRACKING | SCOPE_PARKING, SCOPE_PARKING
  | SCOPE_PARKED, SCOPE_PARKED => true
  | _, _ => false
  end.

(** A state monad over the world of a driver: the C++ methods are run in
    sequence on one object, one device and one event log. *)
Section StateMonad.
Context {W : Type}.

Definition M (A : Type) : Type := W -> A * W.

Definition ret {A} (a : A) : M A := fun w => (a, w).

Definition bind {A B} (m : M A) (k : A -> M B) : M B :=
    fun w => let (a, w') := m w in k a w'.

Definition gets {A} (f : W -> A) : M A := fun w => (f w, w).

Definition modify (f : W -> W) : M unit := fun w => (tt, f w).
End StateMonad.

Arguments M : clear implicits.

Lemma bind_eq {W A B} (m : M W A) (k : A -> M W B) (w : W) :
  bind m k w = k (fst (m w)) (snd (m w)).
Proof. unfold bind. destruct (m w); reflexivity. Qed.

Declare Scope drv_scope.
Delimit Scope drv_scope with drv.
Notation "x <- m ;; k" := (bind m (fun x => k))
  (at level 61, m at next level, right associativity) : drv_scope.
Notation "m ;;; k" := (bind m (fun _ => k))
  (at level 61, right associativity) : drv_scope.

(** The index of an access to a C array is a C [int]: whether it falls
    inside the array. *)
Definition in_array {A} (l : list A) (i : Z) : bool :=
  (0 <=? i) && (i <? Z.of_nat (length l)).

(** indiapi.h: [ISwitch], one member of a switch property. *)
Record ISwitch := mkSwitch {
  sw_name : string;
  sw_s : ISState
}.

(** A client update of a switch property: the parallel arrays [names] and
    [states] of length [n], as pairs. *)
Definition SwitchRequest := list (string * ISState).

(** Modelled from the spec: [IUResetSwitch] is in indidriver.c, not among
    the files embedded here; it makes every member of the switch property
    inactive. *)
Definition IUResetSwitch (sp : list ISwitch) : list ISwitch :=
  map (fun x => mkSwitch (sw_name x) ISS_OFF) sp.

Fixpoint IUFindOnSwitchIndex_from (i : Z) (sp : list ISwitch) : Z :=
  match sp with
  | [] => -1
  | x :: t =>
      match sw_s x with
      | ISS_ON => i
      | ISS_OFF => IUFindOnSwitchIndex_from (i + 1) t
      end
  end.

(** Modelled from the spec: [IUFindOnSwitchIndex] is in indidriver.c, not
    among the files embedded here; it gives the index of the active member of
    the switch property, the first one if there are several, and -1 if there
    is none. *)
Definition IUFindOnSwitchIndex (sp : list ISwitch) : Z :=
  IUFindOnSwitchIndex_from 0 sp.

(** Modelled from the spec: [IUFindOnSwitchName] is in indidriver.c, not among
    the files embedded here; it gives the name of the first member that the
    request wants active, and a null pointer ([None]) if there is none. *)
Fixpoint IUFindOnSwitchName (req : SwitchRequest) : option string :=
  match req with
  | [] => None
  | (nm, ISS_ON) :: _ => Some nm
  | (_, ISS_OFF) :: t => IUFindOnSwitchName t
  end.

(** [sp[n].s = st] *)
Fixpoint setSwitch (sp : list ISwitch) (n : nat) (st : ISState) : list ISwitch :=
  match sp, n with
  | [], _ => []
  | x :: t, O => mkSwitch (sw_name x) st :: t
  | x :: t, S n' => x :: setSwitch t n' st
  end.

(** [sp[i].s = st] for a C [int] index: [None] outside the array. *)
Definition setSwitchAt (sp : list ISwitch) (i : Z) (st : ISState)
  : option (list ISwitch) :=
  if in_array sp i then Some (setSwitch sp (Z.to_nat i) st) else None.

(** [sp[i]] for a C [int] index: [None] outside the array. *)
Definition switchAt (sp : list ISwitch) (i : Z) : option ISwitch :=
  if in_array sp i then nth_error sp (Z.to_nat i) else None.

(** The members that are active, by index. *)
Definition isOn (sp : list ISwitch) (n : nat) : bool :=
  match nth_error sp n with
  | Some x => ISState_eqb (sw_s x) ISS_ON
  | None => false
  end.


Lemma setSwitch_length sp n st : length (setSwitch sp n st) = length sp.
Proof.
revert n; induction sp as [|x t IH]; intros [|n]; simpl; auto.
Qed.







Fixpoint isMember (sp : list ISwitch) (name : string) : bool :=
  match sp with
  | [] => false
  | x :: t => String.eqb (sw_name x) name || isMember t name
  end.

Fixpoint stageMember (sp : list ISwitch) (name : string) (st : ISState)
  : list ISwitch :=
  match sp with
  | [] => []
  | x :: t =>
      if String.eqb (sw_name x) name then mkSwitch (sw_name x) st :: t
      else x :: stageMember t name st
  end.

Fixpoint stageRequest (sp : list ISwitch) (req : SwitchRequest)
  : list ISwitch :=
  match req with
  | [] => sp
  | (name, st) :: rest => stageRequest (stageMember sp name st) rest
  end.

Definition countOn (sp : list ISwitch) : nat :=
  length (filter (fun x => ISState_eqb (sw_s x) ISS_ON) sp).

(** Modelled from the spec: [IUUpdateSwitch] is in indidriver.c, not among the
    files embedded here.  For a switch property with at-most-one semantics the
    requested states are staged into the member values, without publishing,
    and at most one member is active afterwards: a request that names an
    unknown member or would leave several members active stages nothing. *)
Definition stagedUpdate (sp : list ISwitch) (req : SwitchRequest)
  : list ISwitch :=
  let staged := stageRequest (IUResetSwitch sp) req in
  if forallb (fun r => isMember sp (fst r)) req && (countOn staged <=? 1)%nat
  then staged else sp.




End Indi.


(** ** The C library calls the drivers make on their command strings *)

From Stdlib Require Import DecimalString.

Module CLib.
Local Open Scope string_scope.
Local Open Scope Z_scope.

(** The C string held by a buffer: its characters up to the first NUL. *)
Fixpoint c_str (buf : string) : string :=
  match buf with
  | EmptyString => EmptyString
  | String c t =>
      if Ascii.eqb c "000" then EmptyString else String c (c_str t)
  end.

(** [needle] is what [haystack] starts with. *)
Fixpoint starts_with (needle haystack : string) : bool :=
  match needle, haystack with
  | EmptyString, _ => true
  | String a n', String b h' => Ascii.eqb a b && starts_with n' h'
  | String _ _, EmptyString => false
  end.

(** [strstr(haystack, needle) != nullptr] and
    [haystack.find(needle) != std::string::npos]: [needle] occurs in
    [haystack]. *)
Fixpoint strstr (haystack needle : string) : bool :=
  starts_with needle haystack
  || match haystack with
     | EmptyString => false
     | String _ t => strstr t needle
     end.

(** What [snprintf(buf, size, ...)] leaves in [buf] of the text it formats:
    the first [size - 1] characters. *)
Fixpoint truncated (n : nat) (text : string) : string :=
  match n, text with
  | S n', String c t => String c (truncated n' t)
  | _, _ => EmptyString
  end.

(** The conversion "%d" of an [int]. *)
Definition decimal (n : Z) : string := NilZero.string_of_int (Z.to_int n).

(** [text] padded with zeros on the left to [width] characters. *)
Fixpoint zero_padded (width : nat) (text : string) : string :=
  match width with
  | O => text
  | S w' =>
      if (String.length text <=? w')%nat
      then String "0" (zero_padded w' text)
      else text
  end.

(** The conversion "%04d" of an [int] that is not negative. *)
Definition decimal04 (n : Z) : string := zero_padded 4 (decimal n).

Lemma starts_with_app (needle rest : string) :
  starts_with needle (needle ++ rest) = true.
Proof.
  induction needle as [|c t IH]; [reflexivity|].
  cbn. now rewrite Ascii.eqb_refl, IH.
Qed.

Lemma starts_with_spec (needle haystack : string) :
  starts_with needle haystack = true <->
  exists rest, haystack = needle ++ rest.
Proof.
  revert haystack. induction needle as [|a n' IH]; intros haystack.
  - cbn. split; [intros _; now exists haystack|reflexivity].
  - destruct haystack as [|b h']; cbn.
    + split; [discriminate|intros [rest H]; discriminate].
    + rewrite andb_true_iff, IH. split.
      * intros [E [rest ->]]. apply Ascii.eqb_eq in E as ->. now exists rest.
      * intros [rest [= -> ->]]. split; [apply Ascii.eqb_refl|now exists rest].
Qed.

(** [strstr] finds [needle] exactly when [haystack] is some text, [needle],
    and some more text. *)
Lemma strstr_spec (haystack needle : string) :
  strstr haystack needle = true <->
  exists before after, haystack = before ++ needle ++ after.
Proof.
  induction haystack as [|c t IH].
  - cbn. rewrite orb_false_r, starts_with_spec. split.
    + intros [rest H]. now exists EmptyString, rest.
    + intros [[|? ?] [after H]]; [now exists after|discriminate].
  - cbn [strstr]. rewrite orb_true_iff, starts_with_spec, IH. split.
    + intros [[rest H]|[before [after H]]].
      * now exists EmptyString, rest.
      * exists (String c before), after. cbn. now rewrite H.
    + intros [[|b before] [after H]].
      * left. now exists after.
      * right. injection H as _ H. now exists before, after.
Qed.

End CLib.
(** ** drivers/telescope/ieqpro.cpp *)

Module IEQPro.
Import Indi.
Local Open Scope drv_scope.

(** The enumerations of ieqdriverbase.h that ieqpro.cpp names. The header is
    not among the files embedded here; the constructors are the enumerators
    the driver uses, and the index of a status in its switch array is the
    order in which [initProperties] fills that array. *)
Inductive GPSStatus := GPS_OFF | GPS_ON | GPS_DATA_OK.

Inductive SystemStatus :=
| ST_STOPPED | ST_TRACKING_PEC_OFF | ST_SLEWING | ST_GUIDING
| ST_MERIDIAN_FLIPPING | ST_TRACKING_PEC_ON | ST_PARKED | ST_HOME.

Inductive TrackRate := TR_SIDEREAL | TR_LUNAR | TR_SOLAR | TR_KING | TR_CUSTOM.

Inductive TimeSource := TS_RS232 | TS_CONTROLLER | TS_GPS.

Inductive Hemisphere := HEMI_SOUTH | HEMI_NORTH.

Inductive IEQ_PIER_SIDE :=
| IEQ_PIER_UNKNOWN | IEQ_PIER_EAST | IEQ_PIER_WEST | IEQ_PIER_UNCERTAIN.

Inductive IEQ_DIRECTION := IEQ_N | IEQ_S | IEQ_W | IEQ_E.

Inductive TelescopePierSide := PIER_UNKNOWN | PIER_WEST | PIER_EAST.

Definition GPSStatus_index (g : GPSStatus) : nat :=
  match g with GPS_OFF => 0 | GPS_ON => 1 | GPS_DATA_OK => 2 end.

Definition TimeSource_index (t : TimeSource) : nat :=
  match t with TS_RS232 => 0 | TS_CONTROLLER => 1 | TS_GPS => 2 end.

Definition Hemisphere_index (h : Hemisphere) : nat :=
  match h with HEMI_SOUTH => 0 | HEMI_NORTH => 1 end.

Definition TrackRate_index (t : TrackRate) : nat :=
  match t with
  | TR_SIDEREAL => 0 | TR_LUNAR => 1 | TR_SOLAR => 2 | TR_KING => 3
  | TR_CUSTOM => 4
  end.

(** [newInfo.systemStatus == ST_SLEWING] *)
Definition is_ST_SLEWING (s : SystemStatus) : bool :=
  match s with ST_SLEWING => true | _ => false end.


(** [IUResetSwitch(&XSP); XS[i].s = ISS_ON;] on a status array, [i] being
    the value of a status enumeration. *)
Definition switch_on (sp : list ISwitch) (i : nat) : list ISwitch :=
  setSwitch (IUResetSwitch sp) i ISS_ON.

Section Driver.

(** C++ [double], kept abstract: the driver only moves coordinates around,
    compares a latitude or longitude with zero and shifts a longitude or a
    tracking rate by a constant. *)
Variable R : Type.
Variable R_of_Z : Z -> R.
Variable Rplus : R -> R -> R.
Variable Rminus : R -> R -> R.
Variable Rltb : R -> R -> bool.
Variable Rleb : R -> R -> bool.

(** indibasetypes.h / libnova / inditelescope.h, not among the files embedded
    here: the observer location, the horizontal to equatorial transform (a
    pure function of position, location and Julian date), the sidereal
    tracking rate and the pier-side bit of the telescope capability mask. *)
Variable Loc : Type.
Variable HorizontalToEquatorial : R * R -> Loc -> R -> R * R.
Variable TRACKRATE_SIDEREAL : R.
Variable TELESCOPE_HAS_PIER_SIDE : Z.

(** The state of the mount at the other end of the serial line. *)
Variable Dev : Type.

(** [iEQ::Base::Info], the fields the driver reads. *)
Record Info := mkInfo {
  gpsStatus : GPSStatus;
  systemStatus : SystemStatus;
  trackRate : TrackRate;
  timeSource : TimeSource;
  hemisphere : Hemisphere;
  longitude : R;
  latitude : R
}.

(** The calls the driver makes on [driver] (an [iEQ::Base]); each is one
    command exchange with the mount. *)
Inductive Cmd :=
| initCommunication
| isCommandSupported (command : string)
| getFirmwareInfo
| getGuideRate
| getUTCDateTime
| getStatus
| getPierSide
| getCoords
| setRA (ra : R)
| setDE (de : R)
| slew
| abort
| setParkAz (az : R)
| setParkAlt (alt : R)
| park
| unpark
| startMotion (dir : IEQ_DIRECTION)
| stopMotion (dir : IEQ_DIRECTION)
| startGuide (dir : IEQ_DIRECTION) (ms : Z)
| setTrackEnabled (enabled : bool)
| setTrackMode (rate : Z)
| setCustomRATrackRate (rate : R).

(** What a call hands back: the [bool] result, and for the getters the value
    written through the out-parameter when the call succeeds ([None] is a
    [false] result, which leaves the out-parameter as it was). *)
Definition Resp (c : Cmd) : Type :=
  match c with
  | getFirmwareInfo => unit
  | getGuideRate => option (R * R)
  | getUTCDateTime => option unit
  | getStatus => option Info
  | getPierSide => option IEQ_PIER_SIDE
  | getCoords => option (R * R)
  | _ => bool
  end.

Variable exec : forall c : Cmd, Dev -> Resp c * Dev.

Inductive Property :=
| FirmwareTP | GuideRateNP | TimeTP | LocationNP
| GPSStatusSP | TimeSourceSP | HemisphereSP | TrackModeSP.

(** What the outside can observe of a run, oldest first. *)
Inductive Event :=
| EvCmd (c : Cmd)                       (* a command sent to the mount *)
| EvPublish (p : Property)              (* IDSetXXX / apply() *)
| EvDefine (p : Property)               (* defineProperty *)
| EvDelete (p : Property)               (* deleteProperty *)
| EvSleep (ms : Z)                      (* std::this_thread::sleep_for *)
| EvNewRaDec (ra dec : R)               (* INDI::Telescope::NewRaDec *)
| EvSetPierSide (side : TelescopePierSide)  (* INDI::Telescope::setPierSide *)
| EvSaveConfig.                         (* saveConfig(true, ...) *)

(** The members of the [IEQPro] object (its own and those inherited from
    [INDI::Telescope]) that the methods below read or write, the mount, and
    the event log. *)
Record World := mkWorld {
  TrackState : TelescopeStatus;
  IsParked : bool;                (* the persisted park flag, isParked() *)
  slewDirty : bool;
  canParkNatively : bool;
  canFindHome : bool;
  canGuideRate : bool;
  capability : Z;                 (* GetTelescopeCapability() *)
  scopeInfo : Info;
  targetRA : R;
  targetDEC : R;
  currentRA : R;
  currentDEC : R;
  Axis1Park : R;                  (* GetAxis1Park(): park azimuth *)
  Axis2Park : R;                  (* GetAxis2Park(): park altitude *)
  m_Location : Loc;
  TrackModeSP_s : IPState;
  TrackModeS : list ISwitch;
  GPSStatusS : list ISwitch;
  TimeSourceS : list ISwitch;
  HemisphereS : list ISwitch;
  TrackRateN : R * R;             (* TrackRateNP[AXIS_RA], [AXIS_DE] *)
  LocationN_lat : R;              (* LocationNP[LOCATION_LATITUDE] *)
  LocationN_long : R;             (* LocationNP[LOCATION_LONGITUDE] *)
  dev : Dev;
  events : list Event
}.

(** Assignments to the members. *)
Definition set_TrackState (v : TelescopeStatus) (w : World) : World :=
  match w with
  | mkWorld _ x1 x2 x3 x4 x5 x6 x7 x8 x9 x10 x11 x12 x13 x14 x15 x16 x17 x18
      x19 x20 x21 x22 x23 x24 =>
      mkWorld v x1 x2 x3 x4 x5 x6 x7 x8 x9 x10 x11 x12 x13 x14 x15 x16 x17
        x18 x19 x20 x21 x22 x23 x24
  end.

Definition set_IsParked (v : bool) (w : World) : World :=
  match w with
  | mkWorld x0 _ x2 x3 x4 x5 x6 x7 x8 x9 x10 x11 x12 x13 x14 x15 x16 x17 x18
      x19 x20 x21 x22 x23 x24 =>
      mkWorld x0 v x2 x3 x4 x5 x6 x7 x8 x9 x10 x11 x12 x13 x14 x15 x16 x17
        x18 x19 x20 x21 x22 x23 x24
  end.

Definition set_slewDirty (v : bool) (w : World) : World :=
  match w with
  | mkWorld x0 x1 _ x3 x4 x5 x6 x7 x8 x9 x10 x11 x12 x13 x14 x15 x16 x17 x18
      x19 x20 x21 x22 x23 x24 =>
      mkWorld x0 x1 v x3 x4 x5 x6 x7 x8 x9 x10 x11 x12 x13 x14 x15 x16 x17
        x18 x19 x20 x21 x22 x23 x24
  end.

Definition set_canParkNatively (v : bool) (w : World) : World :=
  match w with
  | mkWorld x0 x1 x2 _ x4 x5 x6 x7 x8 x9 x10 x11 x12 x13 x14 x15 x16 x17 x18
      x19 x20 x21 x22 x23 x24 =>
      mkWorld x0 x1 x2 v x4 x5 x6 x7 x8 x9 x10 x11 x12 x13 x14 x15 x16 x17
        x18 x19 x20 x21 x22 x23 x24
  end.

Definition set_canFindHome (v : bool) (w : World) : World :=
  match w with
  | mkWorld x0 x1 x2 x3 _ x5 x6 x7 x8 x9 x10 x11 x12 x13 x14 x15 x16 x17 x18
      x19 x20 x21 x22 x23 x24 =>
      mkWorld x0 x1 x2 x3 v x5 x6 x7 x8 x9 x10 x11 x12 x13 x14 x15 x16 x17
        x18 x19 x20 x21 x22 x23 x24
  end.

Definition set_canGuideRate (v : bool) (w : World) : World :=
  match w with
  | mkWorld x0 x1 x2 x3 x4 _ x6 x7 x8 x9 x10 x11 x12 x13 x14 x15 x16 x17 x18
      x19 x20 x21 x22 x23 x24 =>
      mkWorld x0 x1 x2 x3 x4 v x6 x7 x8 x9 x10 x11 x12 x13 x14 x15 x16 x17
        x18 x19 x20 x21 x22 x23 x24
  end.

Definition set_capability (v : Z) (w : World) : World :=
  match w with
  | mkWorld x0 x1 x2 x3 x4 x5 _ x7 x8 x9 x10 x11 x12 x13 x14 x15 x16 x17 x18
      x19 x20 x21 x22 x23 x24 =>
      mkWorld x0 x1 x2 x3 x4 x5 v x7 x8 x9 x10 x11 x12 x13 x14 x15 x16 x17
        x18 x19 x20 x21 x22 x23 x24
  end.

Definition set_scopeInfo (v : Info) (w : World) : World :=
  match w with
  | mkWorld x0 x1 x2 x3 x4 x5 x6 _ x8 x9 x10 x11 x12 x13 x14 x15 x16 x17 x18
      x19 x20 x21 x22 x23 x24 =>
      mkWorld x0 x1 x2 x3 x4 x5 x6 v x8 x9 x10 x11 x12 x13 x14 x15 x16 x17
        x18 x19 x20 x21 x22 x23 x24
  end.

Definition set_targetRA (v : R) (w : World) : World :=
  match w with
  | mkWorld x0 x1 x2 x3 x4 x5 x6 x7 _ x9 x10 x11 x12 x13 x14 x15 x16 x17 x18
      x19 x20 x21 x22 x23 x24 =>
      mkWorld x0 x1 x2 x3 x4 x5 x6 x7 v x9 x10 x11 x12 x13 x14 x15 x16 x17
        x18 x19 x20 x21 x22 x23 x24
  end.

Definition set_targetDEC (v : R) (w : World) : World :=
  match w with
  | mkWorld x0 x1 x2 x3 x4 x5 x6 x7 x8 _ x10 x11 x12 x13 x14 x15 x16 x17 x18
      x19 x20 x21 x22 x23 x24 =>
      mkWorld x0 x1 x2 x3 x4 x5 x6 x7 x8 v x10 x11 x12 x13 x14 x15 x16 x17
        x18 x19 x20 x21 x22 x23 x24
  end.

Definition set_currentRA (v : R) (w : World) : World :=
  match w with
  | mkWorld x0 x1 x2 x3 x4 x5 x6 x7 x8 x9 _ x11 x12 x13 x14 x15 x16 x17 x18
      x19 x20 x21 x22 x23 x24 =>
      mkWorld x0 x1 x2 x3 x4 x5 x6 x7 x8 x9 v x11 x12 x13 x14 x15 x16 x17 x18
        x19 x20 x21 x22 x23 x24
  end.

Definition set_currentDEC (v : R) (w : World) : World :=
  match w with
  | mkWorld x0 x1 x2 x3 x4 x5 x6 x7 x8 x9 x10 _ x12 x13 x14 x15 x16 x17 x18
      x19 x20 x21 x22 x23 x24 =>
      mkWorld x0 x1 x2 x3 x4 x5 x6 x7 x8 x9 x10 v x12 x13 x14 x15 x16 x17 x18
        x19 x20 x21 x22 x23 x24
  end.

Definition set_Axis1Park (v : R) (w : World) : World :=
  match w with
  | mkWorld x0 x1 x2 x3 x4 x5 x6 x7 x8 x9 x10 x11 _ x13 x14 x15 x16 x17 x18
      x19 x20 x21 x22 x23 x24 =>
      mkWorld x0 x1 x2 x3 x4 x5 x6 x7 x8 x9 x10 x11 v x13 x14 x15 x16 x17 x18
        x19 x20 x21 x22 x23 x24
  end.

Definition set_Axis2Park (v : R) (w : World) : World :=
  match w with
  | mkWorld x0 x1 x2 x3 x4 x5 x6 x7 x8 x9 x10 x11 x12 _ x14 x15 x16 x17 x18
      x19 x20 x21 x22 x23 x24 =>
      mkWorld x0 x1 x2 x3 x4 x5 x6 x7 x8 x9 x10 x11 x12 v x14 x15 x16 x17 x18
        x19 x20 x21 x22 x23 x24
  end.

Definition set_TrackModeSP_s (v : IPState) (w : World) : World :=
  match w with
  | mkWorld x0 x1 x2 x3 x4 x5 x6 x7 x8 x9 x10 x11 x12 x13 x14 _ x16 x17 x18
      x19 x20 x21 x22 x23 x24 =>
      mkWorld x0 x1 x2 x3 x4 x5 x6 x7 x8 x9 x10 x11 x12 x13 x14 v x16 x17 x18
        x19 x20 x21 x22 x23 x24
  end.

Definition set_TrackModeS (v : list ISwitch) (w : World) : World :=
  match w with
  | mkWorld x0 x1 x2 x3 x4 x5 x6 x7 x8 x9 x10 x11 x12 x13 x14 x15 _ x17 x18
      x19 x20 x21 x22 x23 x24 =>
      mkWorld x0 x1 x2 x3 x4 x5 x6 x7 x8 x9 x10 x11 x12 x13 x14 x15 v x17 x18
        x19 x20 x21 x22 x23 x24
  end.

Definition set_GPSStatusS (v : list ISwitch) (w : World) : World :=
  match w with
  | mkWorld x0 x1 x2 x3 x4 x5 x6 x7 x8 x9 x10 x11 x12 x13 x14 x15 x16 _ x18
      x19 x20 x21 x22 x23 x24 =>
      mkWorld x0 x1 x2 x3 x4 x5 x6 x7 x8 x9 x10 x11 x12 x13 x14 x15 x16 v x18
        x19 x20 x21 x22 x23 x24
  end.

Definition set_TimeSourceS (v : list ISwitch) (w : World) : World :=
  match w with
  | mkWorld x0 x1 x2 x3 x4 x5 x6 x7 x8 x9 x10 x11 x12 x13 x14 x15 x16 x17 _
      x19 x20 x21 x22 x23 x24 =>
      mkWorld x0 x1 x2 x3 x4 x5 x6 x7 x8 x9 x10 x11 x12 x13 x14 x15 x16 x17 v
        x19 x20 x21 x22 x23 x24
  end.

Definition set_HemisphereS (v : list ISwitch) (w : World) : World :=
  match w with
  | mkWorld x0 x1 x2 x3 x4 x5 x6 x7 x8 x9 x10 x11 x12 x13 x14 x15 x16 x17 x18
      _ x20 x21 x22 x23 x24 =>
      mkWorld x0 x1 x2 x3 x4 x5 x6 x7 x8 x9 x10 x11 x12 x13 x14 x15 x16 x17
        x18 v x20 x21 x22 x23 x24
  end.

Definition set_LocationN_lat (v : R) (w : World) : World :=
  match w with
  | mkWorld x0 x1 x2 x3 x4 x5 x6 x7 x8 x9 x10 x11 x12 x13 x14 x15 x16 x17 x18
      x19 x20 _ x22 x23 x24 =>
      mkWorld x0 x1 x2 x3 x4 x5 x6 x7 x8 x9 x10 x11 x12 x13 x14 x15 x16 x17
        x18 x19 x20 v x22 x23 x24
  end.

Definition set_LocationN_long (v : R) (w : World) : World :=
  match w with
  | mkWorld x0 x1 x2 x3 x4 x5 x6 x7 x8 x9 x10 x11 x12 x13 x14 x15 x16 x17 x18
      x19 x20 x21 _ x23 x24 =>
      mkWorld x0 x1 x2 x3 x4 x5 x6 x7 x8 x9 x10 x11 x12 x13 x14 x15 x16 x17
        x18 x19 x20 x21 v x23 x24
  end.

Definition set_dev (v : Dev) (w : World) : World :=
  match w with
  | mkWorld x0 x1 x2 x3 x4 x5 x6 x7 x8 x9 x10 x11 x12 x13 x14 x15 x16 x17 x18
      x19 x20 x21 x22 _ x24 =>
      mkWorld x0 x1 x2 x3 x4 x5 x6 x7 x8 x9 x10 x11 x12 x13 x14 x15 x16 x17
        x18 x19 x20 x21 x22 v x24
  end.

Definition set_events (v : list Event) (w : World) : World :=
  match w with
  | mkWorld x0 x1 x2 x3 x4 x5 x6 x7 x8 x9 x10 x11 x12 x13 x14 x15 x16 x17 x18
      x19 x20 x21 x22 x23 _ =>
      mkWorld x0 x1 x2 x3 x4 x5 x6 x7 x8 x9 x10 x11 x12 x13 x14 x15 x16 x17
        x18 x19 x20 x21 x22 x23 v
  end.

(** Running one call on the mount: the command is logged, the mount moves to
    its next state and the answer comes back. *)
Definition call (c : Cmd) : M World (Resp c) :=
  fun w => let (r, d) := exec c (dev w) in
           (r, set_events (events w ++ [EvCmd c]) (set_dev d w)).

Definition emit (e : Event) : M World unit :=
  modify (fun w => set_events (events w ++ [e]) w).

Definition publish (p : Property) : M World unit := emit (EvPublish p).

(** [HasPierSide()]: the pier-side bit of the capability mask. *)
Definition HasPierSide : M World bool :=
  cap <- gets capability ;;
  ret (negb (Z.land cap TELESCOPE_HAS_PIER_SIDE =? 0)).

(** Modelled from the spec: [INDI::Telescope::SetParked] is in
    inditelescope.cpp, not among the files embedded here; it persists the park
    flag that [isParked()] reads. *)
Definition SetParked (isparked : bool) : M World unit :=
  modify (set_IsParked isparked).

(** The park data of the durable configuration, when it could be loaded. *)
Record ParkData := mkParkData {
  pd_parked : bool;
  pd_axis1 : R;
  pd_axis2 : R
}.

(** Modelled from the spec: [INDI::Telescope::InitPark] is in
    inditelescope.cpp, not among the files embedded here; it loads the
    persisted park flag and park position from durable configuration, a set
    flag makes the session state PARKED, and it reports whether there was
    anything to load. *)
Definition InitPark (data : option ParkData) : M World bool :=
  match data with
  | None => ret false
  | Some pd =>
      modify (set_Axis1Park (pd_axis1 pd)) ;;;
      modify (set_Axis2Park (pd_axis2 pd)) ;;;
      SetParked (pd_parked pd) ;;;
      (if pd_parked pd then modify (set_TrackState SCOPE_PARKED) else ret tt) ;;;
      ret true
  end.

(** [IEQPro::Handshake], lines 626-646. *)
Definition Handshake : M World bool :=
  ok <- call initCommunication ;;
  if negb ok then ret false
  else
    mp1 <- call (isCommandSupported "MP1") ;;
    modify (set_canParkNatively mp1) ;;;
    msh <- call (isCommandSupported "MSH") ;;
    modify (set_canFindHome msh) ;;;
    rg <- call (isCommandSupported "RG") ;;
    modify (set_canGuideRate rg) ;;;
    ret true.

(** [IEQPro::getStartupData], lines 195-302.  [cfgLong] and [cfgLat] are what
    [IUGetConfigNumber] finds in the configuration file, [parkData] what
    [InitPark] finds.  The texts and numbers of the firmware, guide-rate and
    time properties are not tracked, only their publication. *)
Definition getStartupData (cfgLong cfgLat : option R)
    (parkData : option ParkData) : M World unit :=
  _ <- call getFirmwareInfo ;;
  publish FirmwareTP ;;;
  gr <- call getGuideRate ;;
  (match gr with Some _ => publish GuideRateNP | None => ret tt end) ;;;
  utc <- call getUTCDateTime ;;
  (match utc with Some _ => publish TimeTP | None => ret tt end) ;;;
  st <- call getStatus ;;
  (match st with
   | Some info =>
       modify (set_scopeInfo info) ;;;
       modify (set_LocationN_lat (latitude info)) ;;;
       modify (set_LocationN_long
                 (if Rltb (longitude info) (R_of_Z 0)
                  then Rplus (longitude info) (R_of_Z 360)
                  else longitude info)) ;;;
       publish LocationNP ;;;
       emit EvSaveConfig
   | None =>
       match cfgLong, cfgLat with
       | Some lon, Some lat =>
           modify (set_LocationN_lat lat) ;;;
           modify (set_LocationN_long lon) ;;;
           publish LocationNP
       | _, _ => ret tt
       end
   end) ;;;
  loaded <- InitPark parkData ;;
  lat <- gets LocationN_lat ;;
  (if loaded then ret tt
   else
     modify (set_Axis1Park
               (if Rleb (R_of_Z 0) lat then R_of_Z 0 else R_of_Z 180)) ;;;
     modify (set_Axis2Park lat)) ;;;
  ps <- call getPierSide ;;
  match ps with
  | None | Some IEQ_PIER_UNKNOWN => ret tt
  | Some _ =>
      cap <- gets capability ;;
      modify (set_capability (Z.lor cap TELESCOPE_HAS_PIER_SIDE))
  end.

(** [IEQPro::updateProperties], lines 160-193; [connected] is [isConnected()].
    The properties of the base class and of the guider interface are defined
    and deleted by code not among the files embedded here. *)
Definition updateProperties (connected : bool) (cfgLong cfgLat : option R)
    (parkData : option ParkData) : M World bool :=
  (if connected then
     getStartupData cfgLong cfgLat parkData ;;;
     gr <- gets canGuideRate ;;
     (if gr then emit (EvDefine GuideRateNP) else ret tt) ;;;
     emit (EvDefine FirmwareTP) ;;;
     emit (EvDefine GPSStatusSP) ;;;
     emit (EvDefine TimeSourceSP) ;;;
     emit (EvDefine HemisphereSP)
   else
     gr <- gets canGuideRate ;;
     (if gr then emit (EvDelete GuideRateNP) else ret tt) ;;;
     emit (EvDelete FirmwareTP) ;;;
     emit (EvDelete GPSStatusSP) ;;;
     emit (EvDelete TimeSourceSP) ;;;
     emit (EvDelete HemisphereSP)) ;;;
  ret true.

(** [IEQPro::SetTrackMode], lines 943-951: [mode] is a [uint8_t]. *)
Definition SetTrackMode (mode : Z) : M World bool :=
  call (setTrackMode (mode mod 256)).

(** [IEQPro::SetTrackRate], lines 953-970 (the one-time warning about the
    declination rate is only logged). *)
Definition SetTrackRate (raRate deRate : R) : M World bool :=
  call (setCustomRATrackRate (Rminus raRate TRACKRATE_SIDEREAL)).

(** [IEQPro::SetTrackEnabled], lines 972-984. *)
Definition SetTrackEnabled (enabled : bool) : M World bool :=
  (if enabled then
     modes <- gets TrackModeS ;;
     _ <- SetTrackMode (IUFindOnSwitchIndex modes) ;;
     if isOn modes (TrackRate_index TR_CUSTOM) then
       rates <- gets TrackRateN ;;
       _ <- SetTrackRate (fst rates) (snd rates) ;;
       ret tt
     else ret tt
   else ret tt) ;;;
  call (setTrackEnabled enabled).

(** The [switch (newInfo.systemStatus)] of [ReadScopeStatus],
    lines 373-425. *)
Definition onSystemStatus (s : SystemStatus) : M World unit :=
  match s with
  | ST_STOPPED =>
      modify (set_TrackModeSP_s IPS_IDLE) ;;;
      native <- gets canParkNatively ;;
      ts <- gets TrackState ;;
      if native || negb (TelescopeStatus_eqb ts SCOPE_PARKED)
      then modify (set_TrackState SCOPE_IDLE)
      else ret tt
  | ST_PARKED =>
      modify (set_TrackModeSP_s IPS_IDLE) ;;;
      modify (set_TrackState SCOPE_PARKED) ;;;
      p <- gets IsParked ;;
      if negb p then SetParked true else ret tt
  | ST_HOME =>
      modify (set_TrackModeSP_s IPS_IDLE) ;;;
      modify (set_TrackState SCOPE_IDLE)
  | ST_SLEWING | ST_MERIDIAN_FLIPPING =>
      modify (set_slewDirty true) ;;;
      ts <- gets TrackState ;;
      if negb (TelescopeStatus_eqb ts SCOPE_SLEWING)
         && negb (TelescopeStatus_eqb ts SCOPE_PARKING)
      then modify (set_TrackState SCOPE_SLEWING)
      else ret tt
  | ST_TRACKING_PEC_OFF | ST_TRACKING_PEC_ON | ST_GUIDING =>
      ts <- gets TrackState ;;
      native <- gets canParkNatively ;;
      if TelescopeStatus_eqb ts SCOPE_PARKING && negb native
      then
        dirty <- gets slewDirty ;;
        if dirty then
          modify (set_TrackModeSP_s IPS_IDLE) ;;;
          modify (set_TrackState SCOPE_PARKED) ;;;
          _ <- SetTrackEnabled false ;;
          SetParked true ;;;
          modify (set_slewDirty false)
        else ret tt
      else
        modify (set_TrackModeSP_s IPS_BUSY) ;;;
        modify (set_TrackState SCOPE_TRACKING)
  end.

(** [IEQPro::ReadScopeStatus], lines 331-463, the status poll, in its three
    blocks: the status (lines 333-432), the pier side (lines 434-455) and the
    coordinates (lines 457-462). *)
Definition pollStatus : M World unit :=
  st <- call getStatus ;;
  match st with
  | Some newInfo =>
      modify (fun w => set_GPSStatusS
         (switch_on (GPSStatusS w) (GPSStatus_index (gpsStatus newInfo))) w) ;;;
      publish GPSStatusSP ;;;
      modify (fun w => set_TimeSourceS
         (switch_on (TimeSourceS w) (TimeSource_index (timeSource newInfo))) w) ;;;
      publish TimeSourceSP ;;;
      modify (fun w => set_HemisphereS
         (switch_on (HemisphereS w) (Hemisphere_index (hemisphere newInfo))) w) ;;;
      publish HemisphereSP ;;;
      onSystemStatus (systemStatus newInfo) ;;;
      modify (fun w => set_TrackModeS
         (switch_on (TrackModeS w) (TrackRate_index (trackRate newInfo))) w) ;;;
      publish TrackModeSP ;;;
      modify (set_scopeInfo newInfo)
  | None => ret tt
  end.

Definition pollPierSide : M World unit :=
  pier <- HasPierSide ;;
  if pier then
    ps <- call getPierSide ;;
    match ps with
    | Some IEQ_PIER_EAST => emit (EvSetPierSide PIER_EAST)
    | Some IEQ_PIER_WEST => emit (EvSetPierSide PIER_WEST)
    | Some _ => emit (EvSetPierSide PIER_UNKNOWN)
    | None => ret tt
    end
  else ret tt.

Definition pollCoords : M World bool :=
  co <- call getCoords ;;
  match co with
  | Some (ra, dec) =>
      modify (set_currentRA ra) ;;;
      modify (set_currentDEC dec) ;;;
      emit (EvNewRaDec ra dec) ;;;
      ret true
  | None => ret false
  end.

Definition ReadScopeStatus : M World bool :=
  pollStatus ;;; pollPierSide ;;; pollCoords.

(** The loop of [Goto], lines 490-496: at most [n] status polls, each one
    that does not show the mount slewing followed by a sleep of 100 ms.
    [newInfo] is the local the polls write to. *)
Fixpoint waitSlewing (n : nat) (newInfo : Info) : M World Info :=
  match n with
  | O => ret newInfo
  | S n' =>
      st <- call getStatus ;;
      match st with
      | Some i =>
          if is_ST_SLEWING (systemStatus i) then ret i
          else emit (EvSleep 100) ;;; waitSlewing n' i
      | None => emit (EvSleep 100) ;;; waitSlewing n' newInfo
      end
  end.

(** [IEQPro::Goto], lines 465-509.  [newInfo0] is the content of the local
    [iEQ::Base::Info newInfo;] before the first poll: the declaration has no
    initialiser. *)
Definition Goto (newInfo0 : Info) (r d : R) : M World bool :=
  modify (set_targetRA r) ;;;
  modify (set_targetDEC d) ;;;
  okRA <- call (setRA r) ;;
  okDE <- (if negb okRA then ret false else call (setDE d)) ;;
  if negb okRA || negb okDE then ret false
  else
    okSlew <- call slew ;;
    if negb okSlew then ret false
    else
      newInfo <- waitSlewing 5 newInfo0 ;;
      if is_ST_SLEWING (systemStatus newInfo) then
        modify (set_TrackState SCOPE_SLEWING) ;;;
        ret true
      else ret false.

(** [IEQPro::Abort], lines 534-537. *)
Definition Abort : M World bool := call abort.

(** [IEQPro::Park], lines 539-611; [jd] is [ln_get_julian_from_sys()]. *)
Definition Park (newInfo0 : Info) (jd : R) : M World bool :=
  parkAz <- gets Axis1Park ;;
  parkAlt <- gets Axis2Park ;;
  native <- gets canParkNatively ;;
  if native then
    okAz <- call (setParkAz parkAz) ;;
    okAlt <- (if okAz then call (setParkAlt parkAlt) else ret false) ;;
    if okAz && okAlt then
      okPark <- call park ;;
      if okPark then
        modify (set_TrackState SCOPE_PARKING) ;;;
        ret true
      else ret false
    else ret false
  else
    loc <- gets m_Location ;;
    let equatorialPos := HorizontalToEquatorial (parkAz, parkAlt) loc jd in
    ok <- Goto newInfo0 (fst equatorialPos) (snd equatorialPos) ;;
    if ok then
      modify (set_TrackState SCOPE_PARKING) ;;;
      modify (set_slewDirty false) ;;;
      ret true
    else ret false.

(** [IEQPro::UnPark], lines 613-624. *)
Definition UnPark : M World bool :=
  native <- gets canParkNatively ;;
  failed <- (if native then ok <- call unpark ;; ret (negb ok)
             else ret false) ;;
  if failed then ret false
  else
    SetParked false ;;;
    modify (set_TrackState SCOPE_IDLE) ;;;
    ret true.

(** [IEQPro::MoveNS], lines 722-754. *)
Definition MoveNS (dir : INDI_DIR_NS) (command : TelescopeMotionCommand)
  : M World bool :=
  ts <- gets TrackState ;;
  if TelescopeStatus_eqb ts SCOPE_PARKED then ret false
  else
    let d := match dir with DIRECTION_NORTH => IEQ_N | _ => IEQ_S end in
    match command with
    | MOTION_START => ok <- call (startMotion d) ;; ret ok
    | MOTION_STOP => ok <- call (stopMotion d) ;; ret ok
    end.

(** [IEQPro::MoveWE], lines 756-788. *)
Definition MoveWE (dir : INDI_DIR_WE) (command : TelescopeMotionCommand)
  : M World bool :=
  ts <- gets TrackState ;;
  if TelescopeStatus_eqb ts SCOPE_PARKED then ret false
  else
    let d := match dir with DIRECTION_WEST => IEQ_W | _ => IEQ_E end in
    match command with
    | MOTION_START => ok <- call (startMotion d) ;; ret ok
    | MOTION_STOP => ok <- call (stopMotion d) ;; ret ok
    end.

(** [IEQPro::GuideNorth] and its three siblings, lines 790-812. *)
Definition Guide (dir : IEQ_DIRECTION) (ms : Z) : M World IPState :=
  rc <- call (startGuide dir ms) ;;
  ret (if rc then IPS_OK else IPS_ALERT).

Definition GuideNorth (ms : Z) : M World IPState := Guide IEQ_N ms.
Definition GuideSouth (ms : Z) : M World IPState := Guide IEQ_S ms.
Definition GuideEast (ms : Z) : M World IPState := Guide IEQ_E ms.
Definition GuideWest (ms : Z) : M World IPState := Guide IEQ_W ms.


(** Modelled from the spec: the connection sequence of the framework
    ([INDI::Telescope::Connect] and [INDI::DefaultDevice::setConnected] are
    not among the files embedded here).  The handshake follows the connect, a
    failed handshake aborts connection setup, and the properties are
    re-published when the device becomes connected, which is where
    [updateProperties] runs [getStartupData]. *)
Definition Connect (cfgLong cfgLat : option R) (parkData : option ParkData)
  : M World bool :=
  ok <- Handshake ;;
  if ok then updateProperties true cfgLong cfgLat parkData
  else ret false.

(** Modelled from the spec: on disconnect the properties are withdrawn, which
    is [updateProperties] with [isConnected()] false. *)
Definition Disconnect : M World bool :=
  updateProperties false None None None.

(** The capability flags of the claims: the three probed command flags and
    the pier-side bit. *)
Definition capabilities (w : World) : bool * bool * bool * bool :=
  (canParkNatively w, canFindHome w, canGuideRate w,
   negb (Z.land (capability w) TELESCOPE_HAS_PIER_SIDE =? 0)).

(** *** The notions the claims are stated with *)

(** The mount accepts a Goto: setting RA and DEC and the slew command all
    succeed, from mount state [d0]. *)
Definition gotoAccepted (r d : R) (d0 : Dev) : bool :=
  fst (exec (setRA r) d0)
  && fst (exec (setDE d) (snd (exec (setRA r) d0)))
  && fst (exec slew (snd (exec (setDE d) (snd (exec (setRA r) d0))))).


(** Within the next [n] status polls the mount reports that it is slewing
    (polls stop at the first such report). *)
Fixpoint reportsSlewingWithin (n : nat) (d0 : Dev) : bool :=
  match n with
  | O => false
  | S n' =>
      match fst (exec getStatus d0) with
      | Some i =>
          is_ST_SLEWING (systemStatus i)
          || reportsSlewingWithin n' (snd (exec getStatus d0))
      | None => reportsSlewingWithin n' (snd (exec getStatus d0))
      end
  end.

(** Within the next [n] status polls the mount answers at least one. *)
Fixpoint answersWithin (n : nat) (d0 : Dev) : bool :=
  match n with
  | O => false
  | S n' =>
      match fst (exec getStatus d0) with
      | Some _ => true
      | None => answersWithin n' (snd (exec getStatus d0))
      end
  end.

(** The events of a polling window: [k] polls each followed by a sleep of
    100 ms and, when the window ends on a slewing report, the poll that saw
    it. *)
Fixpoint pollWindow (k : nat) (seen : bool) : list Event :=
  match k with
  | O => if seen then [EvCmd getStatus] else []
  | S k' => EvCmd getStatus :: EvSleep 100 :: pollWindow k' seen
  end.

(** The properties published in a run, oldest first. *)
Fixpoint publications (evs : list Event) : list Property :=
  match evs with
  | [] => []
  | EvPublish p :: t => p :: publications t
  | _ :: t => publications t
  end.

(** A status that shows the mount tracking: the slew has arrived. *)
Definition isTracking (s : SystemStatus) : bool :=
  match s with
  | ST_TRACKING_PEC_OFF | ST_TRACKING_PEC_ON | ST_GUIDING => true
  | _ => false
  end.

(** A status that shows the mount on its way. *)
Definition isMoving (s : SystemStatus) : bool :=
  match s with
  | ST_SLEWING | ST_MERIDIAN_FLIPPING => true
  | _ => false
  end.

(** *** Running the model *)

Lemma call_eq (c : Cmd) (w : World) :
  call c w =
  (fst (exec c (dev w)),
   set_events (events w ++ [EvCmd c]) (set_dev (snd (exec c (dev w))) w)).
Proof. unfold call. destruct (exec c (dev w)); reflexivity. Qed.

(** Projections and assignments compute on a world given by its members. *)
Ltac fields :=
  cbn [TrackState IsParked slewDirty canParkNatively canFindHome canGuideRate
       capability scopeInfo targetRA targetDEC currentRA currentDEC
       Axis1Park Axis2Park m_Location TrackModeSP_s TrackModeS GPSStatusS
       TimeSourceS HemisphereS TrackRateN LocationN_lat LocationN_long
       dev events
       set_TrackState set_IsParked set_slewDirty set_canParkNatively
       set_canFindHome set_canGuideRate set_capability set_scopeInfo
       set_targetRA set_targetDEC set_currentRA set_currentDEC
       set_Axis1Park set_Axis2Park set_TrackModeSP_s set_TrackModeS
       set_GPSStatusS set_TimeSourceS set_HemisphereS set_LocationN_lat
       set_LocationN_long set_dev set_events] in *.

Ltac run :=
  repeat (rewrite ?bind_eq, ?call_eq;
          cbn [gets modify ret emit publish fst snd SetParked]; fields).

Ltac split_ifs :=
  repeat match goal with
         | |- context [if ?b then _ else _] => destruct b eqn:?; run
         end.

Lemma publications_app (l1 l2 : list Event) :
  publications (l1 ++ l2) = publications l1 ++ publications l2.
Proof.
  induction l1 as [|[] t IH]; simpl; auto. now rewrite IH.
Qed.

(** The part of the world that makes up the session: the state of the state
    machine, the park flag, the slew marker and the capabilities. *)
Definition session (w : World) :=
  (TrackState w, IsParked w, slewDirty w,
   (canParkNatively w, canFindHome w, canGuideRate w, capability w)).

(** *** Unpark *)

(** C7: on a mount that parks natively the native unpark command is sent
    first, and exactly once; when it fails UnPark returns false and neither
    the park flag nor the session state is touched; when it succeeds the park
    flag is cleared, the session state is IDLE and UnPark returns true. *)
Theorem UnPark_native_unpark_first (w : World) :
  canParkNatively w = true ->
  let accepted := fst (exec unpark (dev w)) in
  let w' := snd (UnPark w) in
  events w' = events w ++ [EvCmd unpark] /\
  (accepted = false ->
     fst (UnPark w) = false /\
     IsParked w' = IsParked w /\ TrackState w' = TrackState w) /\
  (accepted = true ->
     fst (UnPark w) = true /\
     IsParked w' = false /\ TrackState w' = SCOPE_IDLE).
Proof.
  intros Hnative. destruct w. fields. subst. unfold UnPark. run.
  destruct (fst (exec unpark _)); run; repeat split; congruence.
Qed.

(** *** Motion while parked *)

(** C1 (as amended): while the session state is PARKED, [MoveNS] and
    [MoveWE] return false and leave the whole world as it was: no command
    reaches the mount, nothing is published, the state is unchanged. *)
Theorem Move_rejected_while_parked (w : World) :
  TrackState w = SCOPE_PARKED ->
  (forall dir command, MoveNS dir command w = (false, w)) /\
  (forall dir command, MoveWE dir command w = (false, w)).
Proof.
  intros Hp; split; intros dir command.
  - unfold MoveNS. run. now rewrite Hp.
  - unfold MoveWE. run. now rewrite Hp.
Qed.

(** *** Guiding *)

(** C8 (as amended): a guide pulse is forwarded to the mount whatever the
    session state is, also while SLEWING: exactly one [startGuide] command
    for the requested direction and duration is sent, the result is OK or
    ALERT as the mount accepts it or not, and the session is unchanged. *)
Theorem Guide_forwarded_in_every_state
    (dir : IEQ_DIRECTION) (ms : Z) (w : World) :
  let res := Guide dir ms w in
  events (snd res) = events w ++ [EvCmd (startGuide dir ms)] /\
  fst res =
    (if fst (exec (startGuide dir ms) (dev w)) then IPS_OK else IPS_ALERT) /\
  session (snd res) = session w.
Proof.
  destruct w. unfold Guide, session. run. repeat split.
Qed.

(** *** Goto *)

Lemma waitSlewing_spec (n : nat) : forall (i0 : Info) (w : World),
  exists k d',
    snd (waitSlewing n i0 w) =
      set_events
        (events w ++ pollWindow k (reportsSlewingWithin n (dev w)))
        (set_dev d' w) /\
    (k + (if reportsSlewingWithin n (dev w) then 1 else 0) <= n)%nat /\
    is_ST_SLEWING (systemStatus (fst (waitSlewing n i0 w))) =
      reportsSlewingWithin n (dev w)
      || (negb (answersWithin n (dev w)) && is_ST_SLEWING (systemStatus i0)).
Proof.
  induction n as [|n IH]; intros i0 w.
  - exists 0%nat, (dev w). destruct w. cbn. rewrite app_nil_r. auto.
  - cbn [waitSlewing reportsSlewingWithin answersWithin].
    destruct w. run.
    destruct (fst (exec getStatus _)) as [i|] eqn:Ei.
    + destruct (is_ST_SLEWING (systemStatus i)) eqn:Es.
      * eexists 0%nat, _. run. cbn [pollWindow orb].
        repeat split; auto. lia.
      * run.
        match goal with
        | |- context [waitSlewing n i ?w1] =>
            destruct (IH i w1) as (k & d' & Hw & Hk & Hs)
        end.
        fields. exists (S k), d'. rewrite Hw, Hs, Es. cbn [orb negb andb pollWindow].
        rewrite andb_false_r, orb_false_r, <- !app_assoc.
        repeat split. lia.
    + run.
      match goal with
      | |- context [waitSlewing n i0 ?w1] =>
          destruct (IH i0 w1) as (k & d' & Hw & Hk & Hs)
      end.
      fields. exists (S k), d'. rewrite Hw, Hs. cbn [pollWindow].
      rewrite <- !app_assoc. repeat split. lia.
Qed.

(** What [Goto] leaves behind, in every case: the target, the commands it
    sent and, when it returns true, the session state SLEWING. *)
Lemma Goto_frame (newInfo0 : Info) (r d : R) (w : World) :
  exists d' evs,
    snd (Goto newInfo0 r d w) =
    let w' := set_events (events w ++ evs)
                (set_dev d' (set_targetDEC d (set_targetRA r w))) in
    if fst (Goto newInfo0 r d w) then set_TrackState SCOPE_SLEWING w' else w'.
Proof.
  destruct w. unfold Goto. run.
  destruct (fst (exec (setRA r) _)) eqn:Hra; cbn [negb]; run.
  2:{ eexists _, [_]. reflexivity. }
  destruct (fst (exec (setDE d) _)) eqn:Hde; cbn [negb orb]; run.
  2:{ eexists _, [_; _]. rewrite <- !app_assoc. reflexivity. }
  destruct (fst (exec slew _)) eqn:Hslew; cbn [negb]; run.
  2:{ eexists _, [_; _; _]. rewrite <- !app_assoc. reflexivity. }
  match goal with
  | |- context [waitSlewing 5 newInfo0 ?w1] =>
      destruct (waitSlewing_spec 5 newInfo0 w1) as (k & d' & Hw & _ & _)
  end.
  fields. eexists d', ([_; _; _] ++ _).
  destruct (is_ST_SLEWING _); run; rewrite Hw; fields;
    rewrite <- !app_assoc; reflexivity.
Qed.


(** *** The status poll *)

Lemma pollPierSide_session (w : World) :
  session (snd (pollPierSide w)) = session w.
Proof.
  destruct w. unfold pollPierSide, HasPierSide, session. run.
  destruct (negb _); run; [|reflexivity].
  destruct (fst (exec getPierSide _)) as [[]|]; reflexivity.
Qed.

Lemma pollCoords_session (w : World) :
  session (snd (pollCoords w)) = session w.
Proof.
  destruct w. unfold pollCoords, session. run.
  destruct (fst (exec getCoords _)) as [[ra dec]|]; reflexivity.
Qed.

Lemma ReadScopeStatus_session (w : World) :
  session (snd (ReadScopeStatus w)) = session (snd (pollStatus w)).
Proof.
  unfold ReadScopeStatus. rewrite !bind_eq.
  now rewrite pollCoords_session, pollPierSide_session.
Qed.

Lemma pollStatus_moving (w : World) (info : Info) :
  fst (exec getStatus (dev w)) = Some info ->
  isMoving (systemStatus info) = true ->
  session (snd (pollStatus w)) =
  ((if negb (TelescopeStatus_eqb (TrackState w) SCOPE_SLEWING)
       && negb (TelescopeStatus_eqb (TrackState w) SCOPE_PARKING)
    then SCOPE_SLEWING else TrackState w),
   IsParked w, true,
   (canParkNatively w, canFindHome w, canGuideRate w, capability w)).
Proof.
  intros Hi Hm. destruct w. fields. unfold pollStatus, session. run.
  rewrite Hi. run. unfold onSystemStatus.
  destruct (systemStatus info); try discriminate Hm; run;
    destruct TrackState0; reflexivity.
Qed.

Lemma pollStatus_arrived (w : World) (info : Info) :
  fst (exec getStatus (dev w)) = Some info ->
  isTracking (systemStatus info) = true ->
  TrackState w = SCOPE_PARKING ->
  canParkNatively w = false ->
  session (snd (pollStatus w)) =
  if slewDirty w
  then (SCOPE_PARKED, true, false,
        (canParkNatively w, canFindHome w, canGuideRate w, capability w))
  else session w.
Proof.
  intros Hi Ht Hs Hn. destruct w. fields. subst.
  unfold pollStatus, session. run. rewrite Hi. run.
  unfold onSystemStatus, SetTrackEnabled.
  destruct (systemStatus info); try discriminate Ht; run;
    cbn [TelescopeStatus_eqb negb andb]; run;
    destruct slewDirty0; run; reflexivity.
Qed.

(** *** Park and the polls after it *)

(** C2 (as amended): on a mount that cannot park natively, Park converts the
    park azimuth and altitude to equatorial coordinates and issues a Goto to
    them; it returns what the Goto returns and sets the session state to
    PARKING (clearing the slew marker) exactly when the Goto succeeds.
    While PARKING, a poll that shows the mount slewing sets the slew marker
    and keeps PARKING; a poll that shows the mount tracking, once the slew
    marker is set, makes the state PARKED and persists the park flag. *)
Theorem Park_by_goto_then_parked (newInfo0 : Info) (jd : R) (w : World) :
  canParkNatively w = false ->
  let pos :=
    HorizontalToEquatorial (Axis1Park w, Axis2Park w) (m_Location w) jd in
  let g := Goto newInfo0 (fst pos) (snd pos) w in
  let p := Park newInfo0 jd w in
  (fst p = fst g /\
   events (snd p) = events (snd g) /\
   dev (snd p) = dev (snd g) /\
   TrackState (snd p) = (if fst g then SCOPE_PARKING else TrackState w) /\
   slewDirty (snd p) = (if fst g then false else slewDirty w) /\
   IsParked (snd p) = IsParked w /\
   canParkNatively (snd p) = false) /\
  (forall (w1 : World) (info : Info),
     TrackState w1 = SCOPE_PARKING -> canParkNatively w1 = false ->
     fst (exec getStatus (dev w1)) = Some info ->
     isMoving (systemStatus info) = true ->
     let w2 := snd (ReadScopeStatus w1) in
     TrackState w2 = SCOPE_PARKING /\ slewDirty w2 = true /\
     canParkNatively w2 = false /\ IsParked w2 = IsParked w1) /\
  (forall (w1 : World) (info : Info),
     TrackState w1 = SCOPE_PARKING -> canParkNatively w1 = false ->
     slewDirty w1 = true ->
     fst (exec getStatus (dev w1)) = Some info ->
     isTracking (systemStatus info) = true ->
     let w2 := snd (ReadScopeStatus w1) in
     TrackState w2 = SCOPE_PARKED /\ IsParked w2 = true).
Proof.
  intros Hn. cbv zeta. split; [|split].
  - unfold Park. rewrite !bind_eq. cbn [gets fst snd]. rewrite Hn.
    rewrite bind_eq. cbn [gets fst snd]. rewrite bind_eq.
    destruct (Goto_frame newInfo0
                (fst (HorizontalToEquatorial (Axis1Park w, Axis2Park w) (m_Location w) jd))
                (snd (HorizontalToEquatorial (Axis1Park w, Axis2Park w) (m_Location w) jd)) w)
      as (d' & evs & Hg).
    cbv zeta in Hg.
    destruct (fst (Goto newInfo0 _ _ w)) eqn:Hok; rewrite Hg;
      destruct w; run; fields; subst; repeat split.
  - intros w1 info Hs Hn1 Hi Hm.
    pose proof (ReadScopeStatus_session w1) as E.
    rewrite (pollStatus_moving w1 info Hi Hm) in E.
    rewrite Hs, Hn1 in E. cbn in E. unfold session in E.
    inversion E. repeat split; reflexivity.
  - intros w1 info Hs Hn1 Hd Hi Ht.
    pose proof (ReadScopeStatus_session w1) as E.
    rewrite (pollStatus_arrived w1 info Hi Ht Hs Hn1), Hd in E.
    unfold session in E. inversion E. split; reflexivity.
Qed.

(** *** Publications of the status poll *)

Lemma onSystemStatus_publications (s : SystemStatus) (w : World) :
  publications (events (snd (onSystemStatus s w))) = publications (events w).
Proof.
  destruct w. unfold onSystemStatus, SetTrackEnabled.
  destruct s; run; split_ifs;
    rewrite ?publications_app; cbn [publications];
    rewrite ?app_nil_r; reflexivity.
Qed.

Lemma pollPierSide_publications (w : World) :
  publications (events (snd (pollPierSide w))) = publications (events w).
Proof.
  destruct w. unfold pollPierSide, HasPierSide. run.
  destruct (negb _); run; [|reflexivity].
  destruct (fst (exec getPierSide _)) as [[]|]; run;
    rewrite ?publications_app; cbn [publications];
    rewrite ?app_nil_r; reflexivity.
Qed.

Lemma pollCoords_publications (w : World) :
  publications (events (snd (pollCoords w))) = publications (events w).
Proof.
  destruct w. unfold pollCoords. run.
  destruct (fst (exec getCoords _)) as [[ra dec]|]; run;
    rewrite ?publications_app; cbn [publications];
    rewrite ?app_nil_r; reflexivity.
Qed.

(** Every answered status poll of the iEQ Pro publishes the GPS, time source,
    hemisphere and track mode properties, whether or not anything changed. *)
Lemma ReadScopeStatus_publishes_always (w : World) (info : Info) :
  fst (exec getStatus (dev w)) = Some info ->
  publications (events (snd (ReadScopeStatus w))) =
  publications (events w)
    ++ [GPSStatusSP; TimeSourceSP; HemisphereSP; TrackModeSP].
Proof.
  intros Hi. unfold ReadScopeStatus. rewrite !bind_eq.
  rewrite pollCoords_publications, pollPierSide_publications.
  destruct w. fields. unfold pollStatus. run. rewrite Hi. run.
  match goal with
  | |- context [onSystemStatus ?s ?w1] =>
      pose proof (onSystemStatus_publications s w1) as Hp;
      destruct (snd (onSystemStatus s w1))
  end.
  run. rewrite publications_app, Hp, !publications_app. cbn [publications].
  rewrite <- !app_assoc. reflexivity.
Qed.

(** *** Capabilities *)

(** A successful handshake assigns the three command flags from the answers
    of its three probes, whatever they were before. *)
Lemma Handshake_probes (w : World) :
  fst (exec initCommunication (dev w)) = true ->
  let d1 := snd (exec initCommunication (dev w)) in
  let d2 := snd (exec (isCommandSupported "MP1") d1) in
  let d3 := snd (exec (isCommandSupported "MSH") d2) in
  let w' := snd (Handshake w) in
  fst (Handshake w) = true /\
  canParkNatively w' = fst (exec (isCommandSupported "MP1") d1) /\
  canFindHome w' = fst (exec (isCommandSupported "MSH") d2) /\
  canGuideRate w' = fst (exec (isCommandSupported "RG") d3) /\
  capability w' = capability w.
Proof.
  intros Hok. destruct w. fields. unfold Handshake. run.
  rewrite Hok. cbn [negb]. run. repeat split.
Qed.

(** A failed handshake leaves the flags of the previous session in place. *)
Lemma Handshake_failed (w : World) :
  fst (exec initCommunication (dev w)) = false ->
  fst (Handshake w) = false /\
  capabilities (snd (Handshake w)) = capabilities w.
Proof.
  intros Hok. destruct w. fields. unfold Handshake, capabilities. run.
  rewrite Hok. cbn [negb]. run. split; reflexivity.
Qed.

(** A step that leaves the capability mask and the three command flags as
    they are. *)
Definition keepsCapabilities {A} (m : M World A) : Prop :=
  forall w,
    capability (snd (m w)) = capability w /\
    canParkNatively (snd (m w)) = canParkNatively w /\
    canFindHome (snd (m w)) = canFindHome w /\
    canGuideRate (snd (m w)) = canGuideRate w.

(** A step that at most adds the pier-side bit to the capability mask. *)
Definition addsPierSideAtMost {A} (m : M World A) : Prop :=
  forall w,
    (capability (snd (m w)) = capability w \/
     capability (snd (m w)) = Z.lor (capability w) TELESCOPE_HAS_PIER_SIDE) /\
    canParkNatively (snd (m w)) = canParkNatively w /\
    canFindHome (snd (m w)) = canFindHome w /\
    canGuideRate (snd (m w)) = canGuideRate w.

Lemma keeps_ret {A} (a : A) : keepsCapabilities (ret a).
Proof. intros w. repeat split. Qed.

Lemma keeps_bind {A B} (m : M World A) (k : A -> M World B) :
  keepsCapabilities m -> (forall a, keepsCapabilities (k a)) ->
  keepsCapabilities (bind m k).
Proof.
  intros Hm Hk w. rewrite bind_eq.
  destruct (Hm w) as (H1 & H2 & H3 & H4).
  destruct (Hk (fst (m w)) (snd (m w))) as (K1 & K2 & K3 & K4).
  repeat split; congruence.
Qed.

Lemma keeps_call (c : Cmd) : keepsCapabilities (call c).
Proof. intros w. rewrite call_eq. destruct w. repeat split. Qed.

Lemma keeps_emit (e : Event) : keepsCapabilities (emit e).
Proof. intros w. destruct w. repeat split. Qed.

Lemma keeps_gets {A} (f : World -> A) : keepsCapabilities (gets f).
Proof. intros w. repeat split. Qed.

Ltac keeps :=
  repeat first
    [ apply keeps_ret | apply keeps_call | apply keeps_emit
    | apply keeps_gets | apply keeps_bind; [|intros ?]
    | match goal with
      | |- keepsCapabilities (publish _) => apply keeps_emit
      | |- keepsCapabilities (match ?x with _ => _ end) => destruct x
      | |- keepsCapabilities (modify _) =>
          let w := fresh "w" in intros w; destruct w; repeat split
      | |- keepsCapabilities (SetParked _) =>
          let w := fresh "w" in intros w; destruct w; repeat split
      end ].

Lemma InitPark_capabilities (pd : option ParkData) :
  keepsCapabilities (InitPark pd).
Proof. unfold InitPark. keeps. Qed.

Lemma adds_bind {A B} (m : M World A) (k : A -> M World B) :
  keepsCapabilities m -> (forall a, addsPierSideAtMost (k a)) ->
  addsPierSideAtMost (bind m k).
Proof.
  intros Hm Hk w. rewrite bind_eq.
  destruct (Hm w) as (H1 & H2 & H3 & H4).
  destruct (Hk (fst (m w)) (snd (m w))) as (K1 & K2 & K3 & K4).
  rewrite H1 in K1. repeat split; congruence.
Qed.

(** [getStartupData] never clears the pier-side bit: the capability mask it
    leaves is the one it found, or that one with the bit added. *)
Lemma getStartupData_capabilities (cfgLong cfgLat : option R)
    (pd : option ParkData) :
  addsPierSideAtMost (getStartupData cfgLong cfgLat pd).
Proof.
  unfold getStartupData.
  repeat (apply adds_bind; [solve [keeps | apply InitPark_capabilities]
                           |intros ?]).
  match goal with
  | |- addsPierSideAtMost (match ?x with _ => _ end) =>
      destruct x as [[]|]
  end; intros w; destruct w; cbn; repeat split; auto.
Qed.

Lemma onSystemStatus_capabilities (s : SystemStatus) (w : World) :
  capabilities (snd (onSystemStatus s w)) = capabilities w.
Proof.
  destruct w. unfold onSystemStatus, SetTrackEnabled, capabilities.
  destruct s; run; split_ifs; reflexivity.
Qed.

Lemma pollStatus_capabilities (w : World) :
  capabilities (snd (pollStatus w)) = capabilities w.
Proof.
  destruct w. unfold pollStatus. run.
  destruct (fst (exec getStatus _)) as [info|]; run; [|reflexivity].
  match goal with
  | |- context [onSystemStatus ?s ?w1] =>
      pose proof (onSystemStatus_capabilities s w1) as Hp;
      destruct (snd (onSystemStatus s w1))
  end.
  run. exact Hp.
Qed.

Lemma session_capabilities (w w' : World) :
  session w' = session w -> capabilities w' = capabilities w.
Proof.
  unfold session, capabilities. intros E. inversion E. reflexivity.
Qed.

(** Between connection setup and disconnect: none of the operations of the
    driver touches a capability flag. *)
Lemma operations_keep_capabilities (w : World) :
  capabilities (snd (ReadScopeStatus w)) = capabilities w /\
  (forall i r d, capabilities (snd (Goto i r d w)) = capabilities w) /\
  (forall i jd, capabilities (snd (Park i jd w)) = capabilities w) /\
  capabilities (snd (UnPark w)) = capabilities w /\
  (forall dir c, capabilities (snd (MoveNS dir c w)) = capabilities w) /\
  (forall dir c, capabilities (snd (MoveWE dir c w)) = capabilities w) /\
  (forall dir ms, capabilities (snd (Guide dir ms w)) = capabilities w) /\
  capabilities (snd (Abort w)) = capabilities w.
Proof.
  assert (HG : forall i r d, capabilities (snd (Goto i r d w)) = capabilities w).
  { intros i r d. destruct (Goto_frame i r d w) as (d' & evs & Hg).
    rewrite Hg. cbv zeta. destruct (fst (Goto i r d w)); destruct w;
      reflexivity. }
  repeat split.
  - rewrite (session_capabilities _ _ (ReadScopeStatus_session w)).
    apply pollStatus_capabilities.
  - exact HG.
  - intros i jd. unfold Park. rewrite !bind_eq. cbn [gets fst snd].
    destruct (canParkNatively w) eqn:Hn.
    + destruct w. run. split_ifs; reflexivity.
    + rewrite bind_eq. cbn [gets fst snd]. rewrite bind_eq.
      specialize (HG i (fst (HorizontalToEquatorial (Axis1Park w, Axis2Park w) (m_Location w) jd))
                    (snd (HorizontalToEquatorial (Axis1Park w, Axis2Park w) (m_Location w) jd))).
      destruct (fst (Goto i _ _ w)); [|exact HG].
      destruct (snd (Goto i _ _ w)). run. exact HG.
  - destruct w. unfold UnPark. run. split_ifs; reflexivity.
  - intros dir c. destruct w. unfold MoveNS. run.
    split_ifs; destruct c; reflexivity.
  - intros dir c. destruct w. unfold MoveWE. run.
    split_ifs; destruct c; reflexivity.
  - intros dir ms. destruct w. unfold Guide. run. reflexivity.
  - destruct w. unfold Abort. run. reflexivity.
Qed.

Lemma adds_then_keeps {A B} (m : M World A) (k : A -> M World B) :
  addsPierSideAtMost m -> (forall a, keepsCapabilities (k a)) ->
  addsPierSideAtMost (bind m k).
Proof.
  intros Hm Hk w. rewrite bind_eq.
  destruct (Hm w) as (H1 & H2 & H3 & H4).
  destruct (Hk (fst (m w)) (snd (m w))) as (K1 & K2 & K3 & K4).
  rewrite K1. repeat split; congruence.
Qed.

Lemma updateProperties_capabilities (connected : bool)
    (cfgLong cfgLat : option R) (pd : option ParkData) :
  addsPierSideAtMost (updateProperties connected cfgLong cfgLat pd).
Proof.
  unfold updateProperties. apply adds_then_keeps; [|intros; keeps].
  destruct connected.
  - apply adds_then_keeps; [apply getStartupData_capabilities|intros; keeps].
  - intros w.
    assert (K : keepsCapabilities
                  (gr <- gets canGuideRate ;;
                   (if gr then emit (EvDelete GuideRateNP) else ret tt) ;;;
                   emit (EvDelete FirmwareTP) ;;;
                   emit (EvDelete GPSStatusSP) ;;;
                   emit (EvDelete TimeSourceSP) ;;;
                   emit (EvDelete HemisphereSP))%drv) by keeps.
    destruct (K w) as (K1 & K2 & K3 & K4). repeat split; auto.
Qed.

Lemma Handshake_capability (w : World) :
  capability (snd (Handshake w)) = capability w.
Proof.
  destruct w. unfold Handshake. run. split_ifs; reflexivity.
Qed.

Lemma land_lor_pier (cap bit : Z) :
  Z.land cap bit <> 0 -> Z.land (Z.lor cap bit) bit <> 0.
Proof.
  intros H E. rewrite Z.land_lor_distr_l, Z.land_diag in E.
  apply Z.lor_eq_0_iff in E. tauto.
Qed.

(** The defect behind C9, for every mount: a pier-side capability that is
    set when a connection is set up is still set after it, whatever the
    pier-side probe of the new session answers; and a disconnect leaves it
    set as well. *)
Lemma pier_side_never_cleared (cfgLong cfgLat : option R)
    (pd : option ParkData) (w : World) :
  Z.land (capability w) TELESCOPE_HAS_PIER_SIDE <> 0 ->
  Z.land (capability (snd (Connect cfgLong cfgLat pd w)))
    TELESCOPE_HAS_PIER_SIDE <> 0 /\
  Z.land (capability (snd (Disconnect w))) TELESCOPE_HAS_PIER_SIDE <> 0.
Proof.
  intros Hset. split.
  - unfold Connect. rewrite bind_eq.
    pose proof (Handshake_capability w) as Hh.
    destruct (fst (Handshake w)); [|cbn [ret snd]; now rewrite Hh].
    destruct (updateProperties_capabilities true cfgLong cfgLat pd
                (snd (Handshake w))) as ([E|E] & _); rewrite E, Hh; auto.
    now apply land_lor_pier.
  - unfold Disconnect.
    destruct (updateProperties_capabilities false None None None w)
      as ([E|E] & _); rewrite E; auto.
    now apply land_lor_pier.
Qed.

(** *** Native parking *)

(** X12: On a mount that parks natively, Park sends the park azimuth, the park
    altitude and the park command, in this order, and stops at the first
    one the mount refuses; it returns true, with the session state PARKING,
    exactly when all three are accepted, and otherwise leaves the session
    state as it was.  No Goto is issued: the target and the slew marker are
    not touched. *)
Theorem Park_natively (newInfo0 : Info) (jd : R) (w : World) :
  canParkNatively w = true ->
  let az := Axis1Park w in
  let alt := Axis2Park w in
  let okAz := fst (exec (setParkAz az) (dev w)) in
  let d1 := snd (exec (setParkAz az) (dev w)) in
  let okAlt := fst (exec (setParkAlt alt) d1) in
  let d2 := snd (exec (setParkAlt alt) d1) in
  let okPark := fst (exec park d2) in
  let p := Park newInfo0 jd w in
  fst p = okAz && okAlt && okPark /\
  TrackState (snd p) = (if fst p then SCOPE_PARKING else TrackState w) /\
  events (snd p) =
    events w ++ EvCmd (setParkAz az)
      :: (if okAz
          then EvCmd (setParkAlt alt) :: (if okAlt then [EvCmd park] else [])
          else []) /\
  slewDirty (snd p) = slewDirty w /\
  IsParked (snd p) = IsParked w /\
  targetRA (snd p) = targetRA w /\ targetDEC (snd p) = targetDEC w.
Proof.
  intros Hnative. destruct w. fields. subst. cbv zeta. unfold Park. run.
  destruct (fst (exec (setParkAz _) _)); run; cbn [andb].
  2:{ repeat split. }
  destruct (fst (exec (setParkAlt _) _)); run; cbn [andb].
  2:{ rewrite <- !app_assoc. repeat split. }
  destruct (fst (exec park _)); run; rewrite <- !app_assoc; repeat split.
Qed.

(** *** Tracking *)

(** The commands sent to the mount in a run, oldest first. *)
Fixpoint commandsSent (evs : list Event) : list Cmd :=
  match evs with
  | [] => []
  | EvCmd c :: t => c :: commandsSent t
  | _ :: t => commandsSent t
  end.

Lemma commandsSent_app (l1 l2 : list Event) :
  commandsSent (l1 ++ l2) = commandsSent l1 ++ commandsSent l2.
Proof.
  induction l1 as [|[] t IH]; simpl; auto. now rewrite IH.
Qed.

(** X13: Switching tracking on first sends the track mode that is selected (255
    when none is: the index -1 as a [uint8_t]) and, when the custom mode is
    selected, the custom rate as an offset from the sidereal rate; then the
    tracking command.  Switching tracking off sends the tracking command
    alone.  Either way the result is the answer to the tracking command,
    whatever the mount answered before, and the session is unchanged. *)
Theorem SetTrackEnabled_commands (enabled : bool) (w : World) :
  let mode := setTrackMode (IUFindOnSwitchIndex (TrackModeS w) mod 256) in
  let rate :=
    setCustomRATrackRate (Rminus (fst (TrackRateN w)) TRACKRATE_SIDEREAL) in
  let custom := isOn (TrackModeS w) (TrackRate_index TR_CUSTOM) in
  let d1 := if enabled then snd (exec mode (dev w)) else dev w in
  let d2 := if enabled && custom then snd (exec rate d1) else d1 in
  let res := SetTrackEnabled enabled w in
  fst res = fst (exec (setTrackEnabled enabled) d2) /\
  events (snd res) =
    events w
      ++ (if enabled then EvCmd mode :: (if custom then [EvCmd rate] else [])
          else [])
      ++ [EvCmd (setTrackEnabled enabled)] /\
  session (snd res) = session w /\
  (IUFindOnSwitchIndex (TrackModeS w) = -1 -> mode = setTrackMode 255).
Proof.
  cbv zeta. split; [|split; [|split]].
  4:{ intros ->. reflexivity. }
  all: destruct w; unfold SetTrackEnabled, SetTrackMode, SetTrackRate, session;
    run; destruct enabled; run; cbn [andb];
    try (destruct (isOn _ _); run);
    rewrite <- ?app_assoc; reflexivity.
Qed.

(** *** A Goto the mount refuses *)

(** X14: When the mount refuses the right ascension, the declination or the slew
    command, Goto returns false and sends nothing after the command that was
    refused: no status poll, no sleep.  The session is as it was, but the
    target coordinates have been overwritten already. *)
Theorem Goto_refused (newInfo0 : Info) (r d : R) (w : World) :
  gotoAccepted r d (dev w) = false ->
  let okRA := fst (exec (setRA r) (dev w)) in
  let okDE := fst (exec (setDE d) (snd (exec (setRA r) (dev w)))) in
  let res := Goto newInfo0 r d w in
  fst res = false /\
  session (snd res) = session w /\
  targetRA (snd res) = r /\ targetDEC (snd res) = d /\
  events (snd res) =
    events w ++ EvCmd (setRA r)
      :: (if okRA then EvCmd (setDE d) :: (if okDE then [EvCmd slew] else [])
          else []).
Proof.
  unfold gotoAccepted. intros Hacc. destruct w. fields. cbv zeta.
  unfold Goto, session. run.
  destruct (fst (exec (setRA r) _)); cbn [negb andb] in *; run.
  2:{ repeat split. }
  destruct (fst (exec (setDE d) _)); cbn [negb andb orb] in *; run.
  2:{ rewrite <- !app_assoc. repeat split. }
  rewrite Hacc. cbn [negb]. run. rewrite <- !app_assoc. repeat split.
Qed.

(** *** More on the status poll *)

Lemma onSystemStatus_commands (s : SystemStatus) (w : World) :
  commandsSent (events (snd (onSystemStatus s w))) =
  commandsSent (events w)
    ++ (if isTracking s
           && TelescopeStatus_eqb (TrackState w) SCOPE_PARKING
           && negb (canParkNatively w) && slewDirty w
        then [setTrackEnabled false] else []).
Proof.
  destruct w. unfold onSystemStatus, SetTrackEnabled.
  destruct s; run; cbn [isTracking andb]; rewrite ?app_nil_r;
    try reflexivity;
    destruct TrackState0; cbn [TelescopeStatus_eqb negb andb orb]; run;
    rewrite ?app_nil_r; try reflexivity;
    destruct canParkNatively0; cbn [negb andb orb]; run;
    rewrite ?app_nil_r; try reflexivity;
    destruct IsParked0; cbn [negb]; run; rewrite ?app_nil_r;
    try reflexivity;
    destruct slewDirty0; run;
    rewrite ?commandsSent_app, ?app_nil_r; reflexivity.
Qed.

(** The pier-side bit of the capability mask, as [HasPierSide] reads it. *)
Definition hasPierSide (w : World) : bool :=
  negb (Z.land (capability w) TELESCOPE_HAS_PIER_SIDE =? 0).

(** The poll that completes a manual park: the mount answers the status
    query and shows itself tracking, the session state is PARKING on a mount
    that cannot park natively, and a slew has been seen since Park. *)
Definition completesManualPark (w : World) : bool :=
  match fst (exec getStatus (dev w)) with
  | Some info =>
      isTracking (systemStatus info)
      && TelescopeStatus_eqb (TrackState w) SCOPE_PARKING
      && negb (canParkNatively w) && slewDirty w
  | None => false
  end.

Lemma pollStatus_commands (w : World) :
  commandsSent (events (snd (pollStatus w))) =
  commandsSent (events w) ++ getStatus
    :: (if completesManualPark w then [setTrackEnabled false] else []).
Proof.
  unfold completesManualPark. destruct w. fields. unfold pollStatus. run.
  destruct (fst (exec getStatus _)) as [info|]; run.
  2:{ now rewrite commandsSent_app. }
  match goal with
  | |- context [onSystemStatus ?s ?w1] =>
      pose proof (onSystemStatus_commands s w1) as Hp;
      destruct (snd (onSystemStatus s w1))
  end.
  run. rewrite commandsSent_app. cbn [commandsSent]. rewrite app_nil_r, Hp.
  rewrite !commandsSent_app. cbn [commandsSent]. rewrite !app_nil_r.
  now rewrite <- app_assoc.
Qed.

Lemma pollPierSide_commands (w : World) :
  commandsSent (events (snd (pollPierSide w))) =
  commandsSent (events w) ++ (if hasPierSide w then [getPierSide] else []).
Proof.
  unfold hasPierSide. destruct w. fields. unfold pollPierSide, HasPierSide. run.
  destruct (negb _); run; [|now rewrite app_nil_r].
  destruct (fst (exec getPierSide _)) as [[]|]; run;
    rewrite !commandsSent_app; cbn [commandsSent];
    rewrite ?app_nil_r; reflexivity.
Qed.

Lemma pollCoords_commands (w : World) :
  commandsSent (events (snd (pollCoords w))) =
  commandsSent (events w) ++ [getCoords].
Proof.
  destruct w. unfold pollCoords. run.
  destruct (fst (exec getCoords _)) as [[ra dec]|]; run;
    rewrite !commandsSent_app; cbn [commandsSent];
    rewrite ?app_nil_r; reflexivity.
Qed.

(** X15: The status poll only asks: it sends the status query, the pier-side
    query when the capability mask has the pier-side bit, and the coordinate
    query, in this order.  The one command it ever sends besides is the one
    that switches tracking off, in the poll that completes a manual park. *)
Theorem ReadScopeStatus_commands (w : World) :
  commandsSent (events (snd (ReadScopeStatus w))) =
  commandsSent (events w)
    ++ getStatus
    :: (if completesManualPark w then [setTrackEnabled false] else [])
    ++ (if hasPierSide w then [getPierSide] else [])
    ++ [getCoords].
Proof.
  unfold ReadScopeStatus. rewrite !bind_eq.
  rewrite pollCoords_commands, pollPierSide_commands, pollStatus_commands.
  assert (E : hasPierSide (snd (pollStatus w)) = hasPierSide w).
  { pose proof (pollStatus_capabilities w) as E. unfold capabilities in E.
    unfold hasPierSide. now inversion E. }
  rewrite E, <- !app_assoc. reflexivity.
Qed.

(** What a poll does to the session is what its first block does. *)
Lemma ReadScopeStatus_fields (w : World) :
  TrackState (snd (ReadScopeStatus w)) = TrackState (snd (pollStatus w)) /\
  IsParked (snd (ReadScopeStatus w)) = IsParked (snd (pollStatus w)) /\
  slewDirty (snd (ReadScopeStatus w)) = slewDirty (snd (pollStatus w)).
Proof.
  pose proof (ReadScopeStatus_session w) as E. unfold session in E.
  inversion E. repeat split.
Qed.

(** X16: A mount that reports itself stopped: a mount parked by hand (it cannot
    park natively and the session state is PARKED) stays PARKED; in every
    other case the session state becomes IDLE, also from PARKING and also on
    a mount that parks natively.  The park flag and the slew marker are not
    touched. *)
Theorem stopped_report_keeps_a_manual_park (w : World) (info : Info) :
  fst (exec getStatus (dev w)) = Some info ->
  systemStatus info = ST_STOPPED ->
  let w' := snd (ReadScopeStatus w) in
  TrackState w' =
    (if negb (canParkNatively w)
        && TelescopeStatus_eqb (TrackState w) SCOPE_PARKED
     then SCOPE_PARKED else SCOPE_IDLE) /\
  IsParked w' = IsParked w /\
  slewDirty w' = slewDirty w.
Proof.
  intros Hi Hs. cbv zeta.
  destruct (ReadScopeStatus_fields w) as (-> & -> & ->).
  destruct w. fields. unfold pollStatus. run. rewrite Hi. run. rewrite Hs.
  unfold onSystemStatus. run.
  destruct canParkNatively0, TrackState0; run; repeat split.
Qed.

(** X17: The status poll and the park flag: no poll clears the flag, whatever the
    mount answers, and whenever a poll moves the session state to PARKED the
    flag is set afterwards. *)
Theorem poll_never_clears_the_park_flag (w : World) :
  let w' := snd (ReadScopeStatus w) in
  (IsParked w = true -> IsParked w' = true) /\
  (TrackState w <> SCOPE_PARKED -> TrackState w' = SCOPE_PARKED ->
   IsParked w' = true).
Proof.
  cbv zeta. destruct (ReadScopeStatus_fields w) as (-> & -> & _).
  destruct w. fields. unfold pollStatus. run.
  destruct (fst (exec getStatus _)) as [info|]; run.
  2:{ split; [auto|congruence]. }
  unfold onSystemStatus, SetTrackEnabled.
  destruct (systemStatus info); run;
    destruct TrackState0; cbn [TelescopeStatus_eqb negb andb orb]; run;
    try (split; congruence);
    destruct canParkNatively0; cbn [negb andb orb]; run;
    try (split; congruence);
    destruct IsParked0; cbn [negb]; run; try (split; congruence);
    destruct slewDirty0; run; split; congruence.
Qed.

End Driver.

Arguments TrackState {R Loc Dev} w.
Arguments IsParked {R Loc Dev} w.
Arguments slewDirty {R Loc Dev} w.
Arguments canParkNatively {R Loc Dev} w.
Arguments capability {R Loc Dev} w.
Arguments dev {R Loc Dev} w.
Arguments events {R Loc Dev} w.
Arguments systemStatus {R} i.
Arguments EvCmd {R} c.
Arguments EvPublish {R} p.
Arguments EvSleep {R} ms.
Arguments EvDefine {R} p.
Arguments EvDelete {R} p.
Arguments EvNewRaDec {R} ra dec.
Arguments EvSetPierSide {R} side.
Arguments EvSaveConfig {R}.
Arguments initCommunication {R}.
Arguments isCommandSupported {R} command.
Arguments getFirmwareInfo {R}.
Arguments getGuideRate {R}.
Arguments getUTCDateTime {R}.
Arguments getStatus {R}.
Arguments getPierSide {R}.
Arguments getCoords {R}.
Arguments setRA {R} ra.
Arguments setDE {R} de.
Arguments slew {R}.
Arguments unpark {R}.
Arguments startGuide {R} dir ms.
Arguments setTrackEnabled {R} enabled.
Arguments publications {R} evs.
Arguments pollWindow {R} k seen.

(** *** A scripted mount

    A mount that answers the status polls and the pier-side queries from a
    script and accepts or refuses every other command as [obeys] says;
    doubles are integers here. *)
Module Scripted.

Record Mount := mkMount {
  statuses : list (option SystemStatus);
  piers : list (option IEQ_PIER_SIDE);
  obeys : bool
}.

Definition info_of (s : SystemStatus) : Info Z :=
  mkInfo Z GPS_DATA_OK s TR_SIDEREAL TS_GPS HEMI_NORTH 0 0.

Definition exec (c : Cmd Z) : Mount -> Resp Z c * Mount :=
  match c return Mount -> Resp Z c * Mount with
  | getStatus => fun m =>
      match statuses m with
      | [] => (None, m)
      | s :: rest => (option_map info_of s, mkMount rest (piers m) (obeys m))
      end
  | getPierSide => fun m =>
      match piers m with
      | [] => (None, m)
      | p :: rest => (p, mkMount (statuses m) rest (obeys m))
      end
  | getFirmwareInfo => fun m => (tt, m)
  | getGuideRate => fun m => (if obeys m then Some (0, 0) else None, m)
  | getUTCDateTime => fun m => (if obeys m then Some tt else None, m)
  | getCoords => fun m => (if obeys m then Some (0, 0) else None, m)
  | _ => fun m => (obeys m, m)
  end.

Definition world (ts : TelescopeStatus) (native : bool) (m : Mount)
  : World Z unit Mount :=
  {| TrackState := ts; IsParked := false; slewDirty := false;
     canParkNatively := native; canFindHome := false; canGuideRate := false;
     capability := 63; scopeInfo := info_of ST_STOPPED;
     targetRA := 0; targetDEC := 0; currentRA := 0; currentDEC := 0;
     Axis1Park := 180; Axis2Park := 45; m_Location := tt;
     TrackModeSP_s := IPS_IDLE;
     TrackModeS :=
       [mkSwitch "TRACK_SIDEREAL" ISS_ON; mkSwitch "TRACK_LUNAR" ISS_OFF;
        mkSwitch "TRACK_SOLAR" ISS_OFF; mkSwitch "TRACK_KING" ISS_OFF;
        mkSwitch "TRACK_CUSTOM" ISS_OFF];
     GPSStatusS :=
       [mkSwitch "Off" ISS_ON; mkSwitch "On" ISS_OFF;
        mkSwitch "Data OK" ISS_OFF];
     TimeSourceS :=
       [mkSwitch "RS232" ISS_ON; mkSwitch "Controller" ISS_OFF;
        mkSwitch "GPS" ISS_OFF];
     HemisphereS := [mkSwitch "South" ISS_OFF; mkSwitch "North" ISS_ON];
     TrackRateN := (15, 0); LocationN_lat := 45; LocationN_long := 0;
     dev := m; events := [] |}.

(** The driver on the scripted mount; the pier-side bit is bit 6. *)
Definition toEquatorial (pos : Z * Z) (loc : unit) (jd : Z) : Z * Z :=
  (fst pos + jd, snd pos).

Definition Goto := IEQPro.Goto Z unit Mount exec.
Definition Park := IEQPro.Park Z unit toEquatorial Mount exec.
Definition UnPark := IEQPro.UnPark Z unit Mount exec.
Definition MoveNS := IEQPro.MoveNS Z unit Mount exec.
Definition MoveWE := IEQPro.MoveWE Z unit Mount exec.
Definition GuideNorth := IEQPro.GuideNorth Z unit Mount exec.
Definition ReadScopeStatus :=
  IEQPro.ReadScopeStatus Z Z.sub unit 15 64 Mount exec.
Definition Connect :=
  IEQPro.Connect Z (fun z => z) Z.add Z.ltb Z.leb unit 64 Mount exec.
Definition Disconnect :=
  IEQPro.Disconnect Z (fun z => z) Z.add Z.ltb Z.leb unit 64 Mount exec.
Definition capabilities := IEQPro.capabilities Z unit 64 Mount.

(** What the uninitialised local of [Goto] is taken to hold. *)
Definition stale : Info Z := info_of ST_STOPPED.

(** C1, counterexample: with the session state PARKED, [Goto] is not
    rejected: it sends the coordinates, the slew command and a status poll to
    the mount, returns true and moves the session state to SLEWING. *)
Lemma Goto_not_rejected_while_parked :
  let w := world SCOPE_PARKED false (mkMount [Some ST_SLEWING] [] true) in
  TrackState w = SCOPE_PARKED /\
  fst (Goto stale 10 20 w) = true /\
  events (snd (Goto stale 10 20 w)) =
    [EvCmd (setRA 10); EvCmd (setDE 20); EvCmd slew; EvCmd getStatus] /\
  TrackState (snd (Goto stale 10 20 w)) = SCOPE_SLEWING.
Proof. vm_compute. repeat split. Qed.

(** C1, witness: a parked mount refuses [MoveNS] and [MoveWE]. *)
Lemma Move_rejected_while_parked_witness :
  let w := world SCOPE_PARKED false (mkMount [] [] true) in
  TrackState w = SCOPE_PARKED /\
  MoveNS DIRECTION_NORTH MOTION_START w = (false, w) /\
  MoveWE DIRECTION_EAST MOTION_STOP w = (false, w).
Proof.
  cbv zeta. split; [reflexivity|].
  split.
  - apply (proj1 (Move_rejected_while_parked Z unit Mount exec
                    (world SCOPE_PARKED false (mkMount [] [] true))
                    eq_refl)).
  - apply (proj2 (Move_rejected_while_parked Z unit Mount exec
                    (world SCOPE_PARKED false (mkMount [] [] true))
                    eq_refl)).
Defined.

(** C2, counterexample: Park by Goto succeeds and the state is PARKING; the
    very next poll shows the mount tracking, that is arrived, and yet the
    state stays PARKING and the park flag stays clear, because no poll has
    seen the mount slewing since Park cleared the slew marker. *)
Lemma arrival_without_observed_slew_stays_parking :
  let w := world SCOPE_IDLE false
             (mkMount [Some ST_SLEWING; Some ST_TRACKING_PEC_OFF] [] true) in
  let w1 := snd (Park stale 0 w) in
  let w2 := snd (ReadScopeStatus w1) in
  canParkNatively w = false /\
  fst (Park stale 0 w) = true /\
  TrackState w1 = SCOPE_PARKING /\
  option_map systemStatus (fst (exec getStatus (dev w1)))
    = Some ST_TRACKING_PEC_OFF /\
  TrackState w2 = SCOPE_PARKING /\
  TrackState w2 <> SCOPE_PARKED /\
  IsParked w2 = false.
Proof. vm_compute. repeat split; discriminate. Qed.

(** C2, witness: Park by Goto, a poll that sees the slew, a poll that sees
    the mount tracking: PARKED, and the park flag is set. *)
Lemma Park_by_goto_then_parked_witness :
  let w := world SCOPE_IDLE false
             (mkMount [Some ST_SLEWING; Some ST_SLEWING;
                       Some ST_TRACKING_PEC_OFF] [] true) in
  let w1 := snd (Park stale 0 w) in
  let w2 := snd (ReadScopeStatus w1) in
  let w3 := snd (ReadScopeStatus w2) in
  canParkNatively w = false /\
  fst (Park stale 0 w) = fst (Goto stale 180 45 w) /\
  TrackState w1 = SCOPE_PARKING /\
  (TrackState w2 = SCOPE_PARKING /\ slewDirty w2 = true) /\
  (TrackState w3 = SCOPE_PARKED /\ IsParked w3 = true).
Proof.
  cbv zeta.
  pose (w := world SCOPE_IDLE false
               (mkMount [Some ST_SLEWING; Some ST_SLEWING;
                         Some ST_TRACKING_PEC_OFF] [] true)).
  pose proof (Park_by_goto_then_parked Z Z.sub unit toEquatorial 15 64
                Mount exec stale 0 w eq_refl) as [Hpark [Hslew Harrive]].
  split; [reflexivity|].
  split; [exact (proj1 Hpark)|].
  split; [reflexivity|].
  split.
  - destruct (Hslew (snd (Park stale 0 w)) (info_of ST_SLEWING)
                eq_refl eq_refl eq_refl eq_refl) as (H1 & H2 & _).
    exact (conj H1 H2).
  - exact (Harrive (snd (ReadScopeStatus (snd (Park stale 0 w))))
             (info_of ST_TRACKING_PEC_OFF)
             eq_refl eq_refl eq_refl eq_refl eq_refl).
Defined.


(** C7, witness: a natively parking mount refuses to unpark; UnPark returns
    false and leaves the park flag and the session state alone. *)
Lemma UnPark_native_unpark_first_witness :
  let w := set_IsParked Z unit Mount true
             (world SCOPE_PARKED true (mkMount [] [] false)) in
  canParkNatively w = true /\
  fst (UnPark w) = false /\
  IsParked (snd (UnPark w)) = true /\
  TrackState (snd (UnPark w)) = SCOPE_PARKED /\
  events (snd (UnPark w)) = [EvCmd unpark].
Proof.
  cbv zeta.
  pose (w := set_IsParked Z unit Mount true
               (world SCOPE_PARKED true (mkMount [] [] false))).
  pose proof (UnPark_native_unpark_first Z unit Mount exec w eq_refl)
    as (Hev & Hfail & _).
  destruct (Hfail eq_refl) as (H1 & H2 & H3).
  split; [reflexivity|].
  split; [exact H1|]. split; [exact H2|]. split; [exact H3|exact Hev].
Defined.

(** C8, counterexample: while the session state is SLEWING a guide pulse is
    not rejected: the [startGuide] command reaches the mount and the result
    is OK. *)
Lemma GuideNorth_sent_while_slewing :
  let w := world SCOPE_SLEWING false (mkMount [] [] true) in
  TrackState w = SCOPE_SLEWING /\
  fst (GuideNorth 500 w) = IPS_OK /\
  events (snd (GuideNorth 500 w)) = [EvCmd (startGuide IEQ_N 500)].
Proof. vm_compute. repeat split. Qed.

(** C9, the failing input: a first session in which the mount reports its
    pier side, a disconnect, and a second session in which the pier-side
    query fails.  The pier-side capability of the second session is the one
    left by the first, where a driver that starts on the same mount without
    that history has none. *)
Lemma pier_side_carried_over_from_previous_session :
  let mount := mkMount [] [Some IEQ_PIER_EAST; None] true in
  let w1 := snd (Connect None None None (world SCOPE_IDLE false mount)) in
  let w2 := snd (Disconnect w1) in
  let w3 := snd (Connect None None None w2) in
  let fresh :=
    snd (Connect None None None
           (world SCOPE_IDLE false (mkMount [] [None] true))) in
  capabilities w1 = (true, true, true, true) /\
  fst (exec getPierSide (dev w2)) = None /\
  fst (Connect None None None w2) = true /\
  capabilities w3 = (true, true, true, true) /\
  capabilities fresh = (true, true, true, false).
Proof. vm_compute. repeat split. Qed.

(** A mount that parks natively and obeys: the three park commands are
    sent and the session state becomes PARKING. *)
Lemma Park_natively_witness :
  let w := world SCOPE_IDLE true (mkMount [] [] true) in
  fst (Park stale 0 w) = true /\
  TrackState (snd (Park stale 0 w)) = SCOPE_PARKING /\
  events (snd (Park stale 0 w)) =
    [EvCmd (setParkAz Z 180); EvCmd (setParkAlt Z 45); EvCmd (park Z)].
Proof.
  cbv zeta.
  destruct (Park_natively Z unit toEquatorial Mount exec stale 0
              (world SCOPE_IDLE true (mkMount [] [] true)) eq_refl)
    as (H1 & H2 & H3 & _).
  unfold Park. rewrite H2, H3, H1. vm_compute. repeat split.
Defined.

(** A mount that refuses every command: the Goto ends with the first one. *)
Lemma Goto_refused_witness :
  let w := world SCOPE_TRACKING false (mkMount [Some ST_SLEWING] [] false) in
  fst (Goto stale 10 20 w) = false /\
  TrackState (snd (Goto stale 10 20 w)) = SCOPE_TRACKING /\
  events (snd (Goto stale 10 20 w)) = [EvCmd (setRA 10)].
Proof.
  cbv zeta.
  destruct (Goto_refused Z unit Mount exec stale 10 20
              (world SCOPE_TRACKING false (mkMount [Some ST_SLEWING] [] false))
              eq_refl)
    as (H1 & H2 & _ & _ & H5).
  unfold Goto. rewrite H1, H5. split; [reflexivity|].
  split; [|vm_compute; reflexivity].
  unfold session in H2. now inversion H2.
Defined.

(** A mount parked by hand that reports itself stopped stays PARKED. *)
Lemma stopped_report_keeps_a_manual_park_witness :
  let w := world SCOPE_PARKED false (mkMount [Some ST_STOPPED] [] true) in
  TrackState (snd (ReadScopeStatus w)) = SCOPE_PARKED /\
  TrackState
    (snd (ReadScopeStatus
            (world SCOPE_PARKED true (mkMount [Some ST_STOPPED] [] true))))
  = SCOPE_IDLE.
Proof.
  cbv zeta. split.
  - exact (proj1 (stopped_report_keeps_a_manual_park Z Z.sub unit 15 64 Mount
                    exec
                    (world SCOPE_PARKED false (mkMount [Some ST_STOPPED] [] true))
                    (info_of ST_STOPPED) eq_refl eq_refl)).
  - exact (proj1 (stopped_report_keeps_a_manual_park Z Z.sub unit 15 64 Mount
                    exec
                    (world SCOPE_PARKED true (mkMount [Some ST_STOPPED] [] true))
                    (info_of ST_STOPPED) eq_refl eq_refl)).
Defined.

End Scripted.

(** *** Sync, the home actions, time and location

    The methods of ieqpro.cpp that set something on the mount; they have
    their own commands and read or write a few members only. *)
Module Commands.
Import CLib.

(** [TelescopeHomeAction] of inditelescope.h. *)
Inductive TelescopeHomeAction := HOME_FIND | HOME_SET | HOME_GO.

Section Driver.

(** C++ [double], kept abstract. *)
Variable R : Type.
Variable R_of_Z : Z -> R.
Variable Rmult : R -> R -> R.
Variable Rminus : R -> R -> R.
Variable Rltb : R -> R -> bool.

(** libnova, not among the files embedded here: [ln_date], [ln_zonedate]
    with the fields the driver reads, and the conversion between them for an
    offset in seconds. *)
Variable ln_date : Type.

Record ln_zonedate := mkZoneDate {
  years : Z;
  months : Z;
  days : Z;
  hours : Z;
  minutes : Z;
  seconds : R
}.

Variable ln_date_to_zonedate : ln_date -> R -> ln_zonedate.

(** The state of the mount at the other end of the serial line, and the
    calls these methods make on [driver]; each returns a [bool]. *)
Variable Dev : Type.

Inductive Cmd :=
| setRA (ra : R)
| setDE (de : R)
| sync
| setLocalTime (hh mm : Z) (ss : R)
| setLocalDate (yy mm dd : Z)
| setUTCOffset (offset : R)
| setLongitude (longitude : R)
| setLatitude (latitude : R)
| setSlewRate (rate : Z)
| findHome
| setCurrentHome
| gotoHome.

Variable exec : Cmd -> Dev -> bool * Dev.

(** What the outside can observe of a run, oldest first. *)
Inductive Event :=
| EvCmd (c : Cmd)                   (* a command sent to the mount *)
| EvNewRaDec (ra dec : R).          (* INDI::Telescope::NewRaDec *)

(** The members of the [IEQPro] object these methods read or write, the
    mount, and the event log. *)
Record World := mkWorld {
  canFindHome : bool;
  Model : string;                   (* firmwareInfo.Model *)
  EqNP_s : IPState;
  currentRA : R;
  currentDEC : R;
  dev : Dev;
  events : list Event
}.

Definition call (c : Cmd) : M World bool :=
  fun w => (fst (exec c (dev w)),
            mkWorld (canFindHome w) (Model w) (EqNP_s w) (currentRA w)
              (currentDEC w) (snd (exec c (dev w))) (events w ++ [EvCmd c])).

(** [IEQPro::Sync], lines 511-532. *)
Definition Sync (ra dec : R) : M World bool :=
  okRA <- call (setRA ra) ;;
  okDE <- (if negb okRA then ret false else call (setDE dec)) ;;
  if negb okRA || negb okDE then ret false
  else
    _ <- call sync ;;
    modify (fun w => mkWorld (canFindHome w) (Model w) IPS_OK ra dec (dev w)
                       (events w ++ [EvNewRaDec ra dec])) ;;;
    ret true.

(** [IEQPro::updateTime], lines 648-681.  The fields of the date are C
    [int]s; the year of a calendar date is far from the ends of their range,
    and the subtraction is written without its overflow. *)
Definition updateTime (utc : ln_date) (utc_offset : R) : M World bool :=
  let ltm := ln_date_to_zonedate utc (Rmult utc_offset (R_of_Z 3600)) in
  okTime <- call (setLocalTime (hours ltm) (minutes ltm) (seconds ltm)) ;;
  if negb okTime then ret false
  else
    okDate <- call (setLocalDate (years ltm - 2000) (months ltm) (days ltm)) ;;
    if negb okDate then ret false
    else
      okOffset <- call (setUTCOffset utc_offset) ;;
      if negb okOffset then ret false else ret true.

(** [IEQPro::updateLocation], lines 683-709. *)
Definition updateLocation (latitude longitude elevation : R) : M World bool :=
  let longitude' :=
    if Rltb (R_of_Z 180) longitude then Rminus longitude (R_of_Z 360)
    else longitude in
  okLong <- call (setLongitude longitude') ;;
  if negb okLong then ret false
  else
    okLat <- call (setLatitude latitude) ;;
    if negb okLat then ret false else ret true.

(** [IEQPro::SetSlewRate], lines 814-818. *)
Definition SetSlewRate (index : Z) : M World bool := call (setSlewRate index).

(** The model names of line 991-995: the home search is taken to be there
    for them whatever the probe said. *)
Definition modelFindsHome (model : string) : bool :=
  strstr model "CEM" || strstr model "GEM45" || strstr model "HAE"
  || strstr model "HAZ" || strstr model "HEM".

(** [IEQPro::ExecuteHomeAction], lines 986-1032. *)
Definition ExecuteHomeAction (action : TelescopeHomeAction) : M World IPState :=
  match action with
  | HOME_FIND =>
      can <- gets canFindHome ;;
      model <- gets Model ;;
      if negb can && negb (modelFindsHome model) then ret IPS_ALERT
      else
        ok <- call findHome ;;
        if negb ok then ret IPS_ALERT else ret IPS_BUSY
  | HOME_SET =>
      ok <- call setCurrentHome ;;
      if negb ok then ret IPS_ALERT else ret IPS_OK
  | HOME_GO =>
      ok <- call gotoHome ;;
      if negb ok then ret IPS_ALERT else ret IPS_BUSY
  end.

(** *** Running the model *)

Ltac go :=
  repeat (rewrite ?bind_eq;
          cbn [call gets modify ret fst snd canFindHome Model EqNP_s
               currentRA currentDEC dev events]).

(** X19: Sync succeeds when the mount accepts the two coordinates, whether or
    not it then accepts the sync command: the driver takes over the
    coordinates, sets the coordinate property to OK and reports them.  When
    a coordinate is refused nothing else is sent and nothing changes. *)
Theorem Sync_does_not_need_the_sync_command (ra dec : R) (w : World) :
  let okRA := fst (exec (setRA ra) (dev w)) in
  let okDE := fst (exec (setDE dec) (snd (exec (setRA ra) (dev w)))) in
  let res := Sync ra dec w in
  (okRA && okDE = true ->
   fst res = true /\
   currentRA (snd res) = ra /\ currentDEC (snd res) = dec /\
   EqNP_s (snd res) = IPS_OK /\
   events (snd res) =
     events w ++ [EvCmd (setRA ra); EvCmd (setDE dec); EvCmd sync;
                  EvNewRaDec ra dec]) /\
  (okRA && okDE = false ->
   fst res = false /\
   currentRA (snd res) = currentRA w /\ currentDEC (snd res) = currentDEC w /\
   EqNP_s (snd res) = EqNP_s w /\
   events (snd res) =
     events w ++ EvCmd (setRA ra) :: (if okRA then [EvCmd (setDE dec)] else [])).
Proof.
  cbv zeta. unfold Sync. go.
  destruct (fst (exec (setRA ra) (dev w))); cbn [negb andb orb]; go.
  2:{ split; [discriminate|]. intros _. repeat split. }
  destruct (fst (exec (setDE dec) _)); cbn [negb andb orb]; go.
  - split; [|discriminate]. intros _. rewrite <- !app_assoc. repeat split.
  - split; [discriminate|]. intros _. rewrite <- !app_assoc. repeat split.
Qed.

Lemma modelFindsHome_spec (model : string) :
  modelFindsHome model = true <->
  exists name before after,
    In name ["CEM"; "GEM45"; "HAE"; "HAZ"; "HEM"]%string /\
    model = (before ++ name ++ after)%string.
Proof.
  unfold modelFindsHome. rewrite !orb_true_iff, !strstr_spec. split.
  - intros [[[[(b & a & H)|(b & a & H)]|(b & a & H)]|(b & a & H)]|(b & a & H)];
      eexists; exists b, a; (split; [|exact H]); cbn; tauto.
  - intros (name & b & a & Hin & H). cbn in Hin.
    destruct Hin as [<-|[<-|[<-|[<-|[<-|[]]]]]]; eauto 10.
Qed.

(** X20: The home search is attempted exactly when the handshake found the
    command for it or the model name of the mount contains CEM, GEM45, HAE,
    HAZ or HEM: then the command is sent and the result is BUSY or, when the
    mount refuses, ALERT.  Otherwise the result is ALERT and nothing is
    sent. *)
Theorem home_search_needs_support (w : World) :
  let named :=
    exists name before after,
      In name ["CEM"; "GEM45"; "HAE"; "HAZ"; "HEM"]%string /\
      Model w = (before ++ name ++ after)%string in
  let res := ExecuteHomeAction HOME_FIND w in
  (canFindHome w = true \/ named ->
   fst res = (if fst (exec findHome (dev w)) then IPS_BUSY else IPS_ALERT) /\
   events (snd res) = events w ++ [EvCmd findHome]) /\
  (canFindHome w = false -> ~ named -> res = (IPS_ALERT, w)).
Proof.
  cbv zeta. unfold ExecuteHomeAction. go.
  pose proof (modelFindsHome_spec (Model w)) as Hm.
  destruct (canFindHome w), (modelFindsHome (Model w)); cbn [negb andb]; go.
  - split; [|discriminate]. intros _.
    destruct (fst (exec findHome (dev w))); split; reflexivity.
  - split; [|discriminate]. intros _.
    destruct (fst (exec findHome (dev w))); split; reflexivity.
  - split; [|intros _ Hn; exfalso; apply Hn, Hm; reflexivity]. intros _.
    destruct (fst (exec findHome (dev w))); split; reflexivity.
  - split; [|reflexivity].
    intros [H|H]; [discriminate|]. apply Hm in H. discriminate.
Qed.

(** X21: [updateTime] sends the local time, the local date with the year counted
    from 2000, and the UTC offset, in this order; it stops at the first one
    the mount refuses and returns true exactly when all three are
    accepted. *)
Theorem updateTime_commands (utc : ln_date) (utc_offset : R) (w : World) :
  let ltm := ln_date_to_zonedate utc (Rmult utc_offset (R_of_Z 3600)) in
  let time := setLocalTime (hours ltm) (minutes ltm) (seconds ltm) in
  let date := setLocalDate (years ltm - 2000) (months ltm) (days ltm) in
  let offset := setUTCOffset utc_offset in
  let okTime := fst (exec time (dev w)) in
  let d1 := snd (exec time (dev w)) in
  let okDate := fst (exec date d1) in
  let d2 := snd (exec date d1) in
  let okOffset := fst (exec offset d2) in
  let res := updateTime utc utc_offset w in
  fst res = okTime && okDate && okOffset /\
  events (snd res) =
    events w ++ EvCmd time
      :: (if okTime
          then EvCmd date :: (if okDate then [EvCmd offset] else [])
          else []).
Proof.
  cbv zeta. unfold updateTime. go.
  destruct (fst (exec (setLocalTime _ _ _) _)); cbn [negb andb]; go.
  2:{ split; reflexivity. }
  destruct (fst (exec (setLocalDate _ _ _) _)); cbn [negb andb]; go.
  2:{ rewrite <- !app_assoc. split; reflexivity. }
  destruct (fst (exec (setUTCOffset _) _)); cbn [negb]; go;
    rewrite <- !app_assoc; split; reflexivity.
Qed.

End Driver.

End Commands.

End IEQPro.

(** ** libs/indibase/indiguiderinterface.cpp *)

Module GuiderInterface.
Import Indi.

(** One member of a number property: name, value and bounds.  Values are
    durations in milliseconds and are kept as integers (the members are
    printed with "%.f" and step by 100). *)
Record INumber := mkNumber {
  n_name : string;
  n_value : Z;
  n_min : Z;
  n_max : Z
}.

(** [INDI::PropertyNumber X {2}]: a number property with two members, index 0
    ([DIRECTION_NORTH], [DIRECTION_WEST]) and index 1 ([DIRECTION_SOUTH],
    [DIRECTION_EAST]). *)
Record PropertyNumber := mkProperty {
  p_name : string;
  member0 : INumber;
  member1 : INumber;
  p_state : IPState
}.

Definition setValue0 (v : Z) (p : PropertyNumber) : PropertyNumber :=
  mkProperty (p_name p)
    (mkNumber (n_name (member0 p)) v (n_min (member0 p)) (n_max (member0 p)))
    (member1 p) (p_state p).

Definition setValue1 (v : Z) (p : PropertyNumber) : PropertyNumber :=
  mkProperty (p_name p) (member0 p)
    (mkNumber (n_name (member1 p)) v (n_min (member1 p)) (n_max (member1 p)))
    (p_state p).

Definition setState (s : IPState) (p : PropertyNumber) : PropertyNumber :=
  mkProperty (p_name p) (member0 p) (member1 p) s.

Definition isNameMatch (p : PropertyNumber) (name : string) : bool :=
  String.eqb (p_name p) name.

(** A client update: the parallel arrays [names] and [values] of length
    [n], as pairs. *)
Definition Request := list (string * Z).

Definition in_bounds (m : INumber) (v : Z) : bool :=
  (n_min m <=? v) && (v <=? n_max m).

(** Every pair names a member and carries a value within its bounds. *)
Fixpoint acceptable (p : PropertyNumber) (req : Request) : bool :=
  match req with
  | [] => true
  | (nm, v) :: rest =>
      (if String.eqb nm (n_name (member0 p)) then in_bounds (member0 p) v
       else if String.eqb nm (n_name (member1 p)) then in_bounds (member1 p) v
       else false)
      && acceptable p rest
  end.

Fixpoint stage (p : PropertyNumber) (req : Request) : PropertyNumber :=
  match req with
  | [] => p
  | (nm, v) :: rest =>
      stage (if String.eqb nm (n_name (member0 p)) then setValue0 v p
             else if String.eqb nm (n_name (member1 p)) then setValue1 v p
             else p) rest
  end.

(** Modelled from the spec: [INDI::PropertyNumber::update] is part of the
    property store, not among the files embedded here. The proposed values are
    validated against the member bounds and staged into the member values
    without publishing; an update that does not validate stages nothing. *)
Definition update (p : PropertyNumber) (req : Request) : PropertyNumber :=
  if acceptable p req then stage p req else p.

(** [values[0]] passed for a [uint32_t] parameter: the first value of the
    request; reading it from an empty request, or converting a value outside
    the range of [uint32_t], is undefined. *)
Definition values0 (req : Request) : option Z :=
  match req with
  | [] => None
  | (_, v) :: _ => if (0 <=? v) && (v <? 2 ^ 32) then Some v else None
  end.

(** What the interface does that can be seen from outside, oldest first. *)
Inductive Event :=
| EvGuideNS (dir : INDI_DIR_NS) (ms : Z)   (* m_GuideNSFP(dir, ms) *)
| EvGuideWE (dir : INDI_DIR_WE) (ms : Z)   (* m_GuideWEFP(dir, ms) *)
| EvApply (property : string).             (* X.apply(): publication *)

Record GI := mkGI {
  GuideNSNP : PropertyNumber;
  GuideWENP : PropertyNumber;
  log : list Event
}.

(** [GuiderInterface::initProperties], lines 42-51. *)
Definition initProperties : GI :=
  mkGI
    (mkProperty "TELESCOPE_TIMED_GUIDE_NS"
       (mkNumber "TIMED_GUIDE_N" 0 0 60000)
       (mkNumber "TIMED_GUIDE_S" 0 0 60000) IPS_IDLE)
    (mkProperty "TELESCOPE_TIMED_GUIDE_WE"
       (mkNumber "TIMED_GUIDE_W" 0 0 60000)
       (mkNumber "TIMED_GUIDE_E" 0 0 60000) IPS_IDLE)
    [].

Section Callbacks.

(** The world of the driver that owns the interface, and the two pulse
    callbacks it registers; a callback runs in that world and returns the
    state of the pulse (OK, BUSY or ALERT). *)
Variable W : Type.
Variable m_GuideNSFP : INDI_DIR_NS -> Z -> M W IPState.
Variable m_GuideWEFP : INDI_DIR_WE -> Z -> M W IPState.

(** [GuiderInterface::ISNewNumber], lines 56-95.  [None] is undefined
    behaviour (see [values0]). *)
Definition ISNewNumber (name : string) (req : Request) (g : GI) (w : W)
  : option (bool * GI * W) :=
  if isNameMatch (GuideNSNP g) name then
    let ns := update (GuideNSNP g) req in
    if negb (n_value (member0 ns) =? 0) then
      match values0 req with
      | None => None
      | Some ms =>
          let (st, w') := m_GuideNSFP DIRECTION_NORTH ms w in
          Some (true,
                mkGI (setState st (setValue1 0 ns)) (GuideWENP g)
                  (log g ++ [EvGuideNS DIRECTION_NORTH ms;
                             EvApply (p_name ns)]),
                w')
      end
    else if negb (n_value (member1 ns) =? 0) then
      match values0 req with
      | None => None
      | Some ms =>
          let (st, w') := m_GuideNSFP DIRECTION_SOUTH ms w in
          Some (true,
                mkGI (setState st ns) (GuideWENP g)
                  (log g ++ [EvGuideNS DIRECTION_SOUTH ms;
                             EvApply (p_name ns)]),
                w')
      end
    else
      Some (true, mkGI ns (GuideWENP g) (log g ++ [EvApply (p_name ns)]), w)
  else if isNameMatch (GuideWENP g) name then
    let we := update (GuideWENP g) req in
    if negb (n_value (member0 we) =? 0) then
      match values0 req with
      | None => None
      | Some ms =>
          let (st, w') := m_GuideWEFP DIRECTION_WEST ms w in
          Some (true,
                mkGI (GuideNSNP g) (setState st (setValue1 0 we))
                  (log g ++ [EvGuideWE DIRECTION_WEST ms;
                             EvApply (p_name we)]),
                w')
      end
    else if negb (n_value (member1 we) =? 0) then
      match values0 req with
      | None => None
      | Some ms =>
          let (st, w') := m_GuideWEFP DIRECTION_EAST ms w in
          Some (true,
                mkGI (GuideNSNP g) (setState st we)
                  (log g ++ [EvGuideWE DIRECTION_EAST ms;
                             EvApply (p_name we)]),
                w')
      end
    else
      Some (true, mkGI (GuideNSNP g) we (log g ++ [EvApply (p_name we)]), w)
  else Some (false, g, w).

(** When the North member is left nonzero the interface zeroes South, issues
    exactly one pulse, to the north, sets the state of the property to what
    the callback returned and publishes the property once; the duration of
    the pulse is the first value of the request, whichever member that value
    was meant for. *)
Lemma ISNewNumber_north (req : Request) (g : GI) (w : W) (ms : Z) :
  n_value (member0 (update (GuideNSNP g) req)) <> 0 ->
  values0 req = Some ms ->
  exists g',
    ISNewNumber (p_name (GuideNSNP g)) req g w
      = Some (true, g', snd (m_GuideNSFP DIRECTION_NORTH ms w)) /\
    n_value (member1 (GuideNSNP g')) = 0 /\
    n_value (member0 (GuideNSNP g')) =
      n_value (member0 (update (GuideNSNP g) req)) /\
    p_state (GuideNSNP g') = fst (m_GuideNSFP DIRECTION_NORTH ms w) /\
    log g' = log g ++ [EvGuideNS DIRECTION_NORTH ms;
                       EvApply (p_name (GuideNSNP g))].
Proof.
  intros Hn Hv. unfold ISNewNumber, isNameMatch.
  rewrite String.eqb_refl.
  destruct (Z.eqb_spec (n_value (member0 (update (GuideNSNP g) req))) 0)
    as [E|_]; [contradiction|]. cbn [negb]. rewrite Hv.
  destruct (m_GuideNSFP DIRECTION_NORTH ms w) as [st w'].
  eexists. split; [reflexivity|]. cbn.
  repeat split.
  unfold update. destruct (acceptable _ _); [|reflexivity].
  clear. generalize (GuideNSNP g) as p.
  induction req as [|[nm v] rest IH]; intros p; cbn; [reflexivity|].
  rewrite IH. repeat destruct (String.eqb _ _); reflexivity.
Qed.




End Callbacks.

(** A guide callback that only counts as a success: the driver world is
    empty. *)
Definition pulseOK {D : Type} (dir : D) (ms : Z) : M unit IPState :=
  fun w => (IPS_OK, w).

(** C4, the failing input: the client names South first, with 0, and North
    second, with 500 ms.  North is left at 500 and a north pulse is issued,
    but its duration is the first value of the request, 0 ms, not the 500 ms
    requested for North.  The South branch reads the same first value: a
    request in the order of the members, North 0 and South 300, gives a south
    pulse of 0 ms. *)
Lemma north_pulse_takes_first_value :
  let req := [("TIMED_GUIDE_S"%string, 0); ("TIMED_GUIDE_N"%string, 500)] in
  let req' := [("TIMED_GUIDE_N"%string, 0); ("TIMED_GUIDE_S"%string, 300)] in
  let ns := update (GuideNSNP initProperties) req in
  n_value (member0 ns) = 500 /\
  n_value (member1 ns) = 0 /\
  option_map (fun r => log (snd (fst r)))
    (ISNewNumber unit pulseOK pulseOK "TELESCOPE_TIMED_GUIDE_NS" req
       initProperties tt)
  = Some [EvGuideNS DIRECTION_NORTH 0; EvApply "TELESCOPE_TIMED_GUIDE_NS"] /\
  option_map (fun r => log (snd (fst r)))
    (ISNewNumber unit pulseOK pulseOK "TELESCOPE_TIMED_GUIDE_NS" req'
       initProperties tt)
  = Some [EvGuideNS DIRECTION_SOUTH 0; EvApply "TELESCOPE_TIMED_GUIDE_NS"].
Proof. vm_compute. repeat split. Qed.

(** The same update with North named first: the pulse has the duration
    requested for North. *)
Lemma north_pulse_when_north_is_first :
  option_map (fun r => log (snd (fst r)))
    (ISNewNumber unit pulseOK pulseOK "TELESCOPE_TIMED_GUIDE_NS"
       [("TIMED_GUIDE_N"%string, 500); ("TIMED_GUIDE_S"%string, 0)]
       initProperties tt)
  = Some [EvGuideNS DIRECTION_NORTH 500; EvApply "TELESCOPE_TIMED_GUIDE_NS"].
Proof. vm_compute. reflexivity. Qed.




End GuiderInterface.

(** ** drivers/auxiliary/deepskydad_fp.cpp *)

Module DeepSkyDadFP.
Import Indi.
Local Open Scope drv_scope.
Local Open Scope string_scope.
Local Open Scope Z_scope.
Local Open Scope list_scope.

(** The commands the modelled methods send, named after their wire text:
    "[GMOV]", "[GLON]", "[GOPS]", "[GPOS]", "[GHTT]", "[GHTM]" and
    "[SHTM%d]". *)
Inductive Cmd := GMOV | GLON | GOPS | GPOS | GHTT | GHTM | SHTM (mode : Z).

Inductive Property := StatusTP | HeaterModeSP | ParkCapSP | LightSP.

(** What the outside can observe of a run, oldest first. *)
Inductive Event :=
| EvCmd (c : Cmd)             (* sendCommand *)
| EvPublish (p : Property).   (* IDSetText, IDSetSwitch, apply() *)

(** The five status values of one poll, as scanned from the responses. *)
Record RawStatus := mkRaw {
  motorStatus : Z;
  lightStatus : Z;
  coverStatus : Z;
  heaterTemperature : Z;
  heaterMode : Z
}.

(** [IUSaveText(&StatusT[i], text)] *)
Fixpoint saveTextAt (texts : list string) (i : nat) (text : string)
  : list string :=
  match texts, i with
  | [], _ => []
  | _ :: t, O => text :: t
  | h :: t, S i' => h :: saveTextAt t i' text
  end.

Section Driver.

(** The state of the flap panel at the other end of the serial line;
    [sendCommand] writes a command and reads the response up to ')', and
    fails ([None]) on a write or read error. *)
Variable Dev : Type.
Variable exec : Cmd -> Dev -> option string * Dev.

(** [sscanf(response, "(%d)", &x)] of the C library: the integer scanned,
    or [None] when the response does not scan and [x] is left as it was. *)
Variable sscanf_d : string -> option Z.

(** [IUUpdateSwitch] of indidriver.c, not among the files embedded here,
    taken as a parameter: the members of a switch property after a client
    request has been staged.  What it reports of a request it refuses is not
    part of the model. *)
Variable IUUpdateSwitch : list ISwitch -> SwitchRequest -> list ISwitch.

(** The members of the [DeepSkyDadFP] object (its own and those of the dust
    cap and light box interfaces) that the methods below read or write, the
    device, and the event log. *)
Record World := mkWorld {
  isFP2 : bool;
  prevCoverStatus : Z;
  prevLightStatus : Z;
  prevMotorStatus : Z;
  prevHeaterConnected : Z;
  prevHeaterMode : Z;
  StatusT : list string;
  HeaterModeS : list ISwitch;
  HeaterModeSP_s : IPState;
  ParkCapS : list ISwitch;
  ParkCapSP_s : IPState;
  LightS : list ISwitch;
  dev : Dev;
  events : list Event
}.

(** Assignments to the members. *)
Definition set_prevCoverStatus (v : Z) (w : World) : World :=
  match w with
  | mkWorld x0 _ x2 x3 x4 x5 x6 x7 x8 x9 x10 x11 x12 x13 =>
      mkWorld x0 v x2 x3 x4 x5 x6 x7 x8 x9 x10 x11 x12 x13
  end.

Definition set_prevLightStatus (v : Z) (w : World) : World :=
  match w with
  | mkWorld x0 x1 _ x3 x4 x5 x6 x7 x8 x9 x10 x11 x12 x13 =>
      mkWorld x0 x1 v x3 x4 x5 x6 x7 x8 x9 x10 x11 x12 x13
  end.

Definition set_prevMotorStatus (v : Z) (w : World) : World :=
  match w with
  | mkWorld x0 x1 x2 _ x4 x5 x6 x7 x8 x9 x10 x11 x12 x13 =>
      mkWorld x0 x1 x2 v x4 x5 x6 x7 x8 x9 x10 x11 x12 x13
  end.

Definition set_prevHeaterConnected (v : Z) (w : World) : World :=
  match w with
  | mkWorld x0 x1 x2 x3 _ x5 x6 x7 x8 x9 x10 x11 x12 x13 =>
      mkWorld x0 x1 x2 x3 v x5 x6 x7 x8 x9 x10 x11 x12 x13
  end.

Definition set_prevHeaterMode (v : Z) (w : World) : World :=
  match w with
  | mkWorld x0 x1 x2 x3 x4 _ x6 x7 x8 x9 x10 x11 x12 x13 =>
      mkWorld x0 x1 x2 x3 x4 v x6 x7 x8 x9 x10 x11 x12 x13
  end.

Definition set_StatusT (v : list string) (w : World) : World :=
  match w with
  | mkWorld x0 x1 x2 x3 x4 x5 _ x7 x8 x9 x10 x11 x12 x13 =>
      mkWorld x0 x1 x2 x3 x4 x5 v x7 x8 x9 x10 x11 x12 x13
  end.

Definition set_HeaterModeS (v : list ISwitch) (w : World) : World :=
  match w with
  | mkWorld x0 x1 x2 x3 x4 x5 x6 _ x8 x9 x10 x11 x12 x13 =>
      mkWorld x0 x1 x2 x3 x4 x5 x6 v x8 x9 x10 x11 x12 x13
  end.

Definition set_HeaterModeSP_s (v : IPState) (w : World) : World :=
  match w with
  | mkWorld x0 x1 x2 x3 x4 x5 x6 x7 _ x9 x10 x11 x12 x13 =>
      mkWorld x0 x1 x2 x3 x4 x5 x6 x7 v x9 x10 x11 x12 x13
  end.

Definition set_ParkCapS (v : list ISwitch) (w : World) : World :=
  match w with
  | mkWorld x0 x1 x2 x3 x4 x5 x6 x7 x8 _ x10 x11 x12 x13 =>
      mkWorld x0 x1 x2 x3 x4 x5 x6 x7 x8 v x10 x11 x12 x13
  end.

Definition set_ParkCapSP_s (v : IPState) (w : World) : World :=
  match w with
  | mkWorld x0 x1 x2 x3 x4 x5 x6 x7 x8 x9 _ x11 x12 x13 =>
      mkWorld x0 x1 x2 x3 x4 x5 x6 x7 x8 x9 v x11 x12 x13
  end.

Definition set_LightS (v : list ISwitch) (w : World) : World :=
  match w with
  | mkWorld x0 x1 x2 x3 x4 x5 x6 x7 x8 x9 x10 _ x12 x13 =>
      mkWorld x0 x1 x2 x3 x4 x5 x6 x7 x8 x9 x10 v x12 x13
  end.

Definition set_dev (v : Dev) (w : World) : World :=
  match w with
  | mkWorld x0 x1 x2 x3 x4 x5 x6 x7 x8 x9 x10 x11 _ x13 =>
      mkWorld x0 x1 x2 x3 x4 x5 x6 x7 x8 x9 x10 x11 v x13
  end.

Definition set_events (v : list Event) (w : World) : World :=
  match w with
  | mkWorld x0 x1 x2 x3 x4 x5 x6 x7 x8 x9 x10 x11 x12 _ =>
      mkWorld x0 x1 x2 x3 x4 x5 x6 x7 x8 x9 x10 x11 x12 v
  end.

(** [DeepSkyDadFP::sendCommand], lines 608-640, with a response buffer. *)
Definition sendCommand (c : Cmd) : M World (option string) :=
  fun w => let (r, d) := exec c (dev w) in
           (r, set_events (events w ++ [EvCmd c]) (set_dev d w)).

Definition publish (p : Property) : M World unit :=
  modify (fun w => set_events (events w ++ [EvPublish p]) w).

Definition IUSaveText (i : nat) (text : string) : M World unit :=
  modify (fun w => set_StatusT (saveTextAt (StatusT w) i text) w).

(** [x] after [sscanf(response, "(%d)", &x)], [junk] being what the
    uninitialised local [x] held. *)
Definition scanned (response : string) (junk : Z) : Z :=
  match sscanf_d response with
  | Some v => v
  | None => junk
  end.

(** The first part of [getStatus], lines 309-347: the five queries.  The
    first one that fails ends the poll, before anything is updated.  [junk]
    is what the five uninitialised locals hold. *)
Definition readStatus (junk : RawStatus) : M World (option RawStatus) :=
  r1 <- sendCommand GMOV ;;
  match r1 with
  | None => ret None
  | Some res1 =>
      r2 <- sendCommand GLON ;;
      match r2 with
      | None => ret None
      | Some res2 =>
          fp2 <- gets isFP2 ;;
          r3 <- sendCommand (if fp2 then GOPS else GPOS) ;;
          match r3 with
          | None => ret None
          | Some res3 =>
              r4 <- sendCommand GHTT ;;
              match r4 with
              | None => ret None
              | Some res4 =>
                  r5 <- sendCommand GHTM ;;
                  match r5 with
                  | None => ret None
                  | Some res5 =>
                      ret (Some
                        (mkRaw (scanned res1 (motorStatus junk))
                               (scanned res2 (lightStatus junk))
                               (scanned res3 (coverStatus junk))
                               (scanned res4 (heaterTemperature junk))
                               (scanned res5 (heaterMode junk))))
                  end
              end
          end
      end
  end.

(** The park-cap update of lines 379-386 and its three copies: when the cap
    property is BUSY or IDLE, member [i] becomes the active one, the state
    becomes OK and the property is published. *)
Definition settleParkCap (i : nat) : M World unit :=
  st <- gets ParkCapSP_s ;;
  if IPState_eqb st IPS_BUSY || IPState_eqb st IPS_IDLE then
    modify (fun w => set_ParkCapS
                       (setSwitch (IUResetSwitch (ParkCapS w)) i ISS_ON) w) ;;;
    modify (set_ParkCapSP_s IPS_OK) ;;;
    publish ParkCapSP
  else ret tt.

(** The cover block of [getStatus], lines 352-460; the result is whether
    [statusUpdated] was set. *)
Definition coverBlock (motor cover : Z) : M World bool :=
  fp2 <- gets isFP2 ;;
  prev <- gets prevCoverStatus ;;
  if fp2 then
    if negb (cover =? prev) then
      if motor =? 1 then
        (if cover =? 0 then IUSaveText 0 "Closed"
         else if cover =? 1 then IUSaveText 0 "Open"
         else IUSaveText 0 "Not open/closed") ;;;
        ret false
      else
        modify (set_prevCoverStatus cover) ;;;
        (if cover =? 1 then IUSaveText 0 "Open" ;;; settleParkCap 1
         else if cover =? 0 then IUSaveText 0 "Closed" ;;; settleParkCap 0
         else IUSaveText 0 "Not open/closed") ;;;
        ret true
    else ret false
  else
    if negb (cover =? prev) then
      if motor =? 1 then
        (if cover =? 0 then IUSaveText 0 "Open"
         else if cover =? 270 then IUSaveText 0 "Closed"
         else IUSaveText 0 "Not open/closed") ;;;
        ret false
      else
        modify (set_prevCoverStatus cover) ;;;
        (if cover =? 0 then IUSaveText 0 "Open" ;;; settleParkCap 1
         else if cover =? 270 then IUSaveText 0 "Closed" ;;; settleParkCap 0
         else IUSaveText 0 "Not open/closed") ;;;
        ret true
    else ret false.

(** The light block, lines 467-489. *)
Definition lightBlock (light : Z) : M World bool :=
  prev <- gets prevLightStatus ;;
  if negb (light =? prev) then
    modify (set_prevLightStatus light) ;;;
    (if light =? 0 then
       IUSaveText 1 "Off" ;;;
       modify (fun w => set_LightS
                 (setSwitch (setSwitch (LightS w) 0 ISS_OFF) 1 ISS_ON) w) ;;;
       publish LightSP
     else if light =? 1 then
       IUSaveText 1 "On" ;;;
       modify (fun w => set_LightS
                 (setSwitch (setSwitch (LightS w) 0 ISS_ON) 1 ISS_OFF) w) ;;;
       publish LightSP
     else ret tt) ;;;
    ret true
  else ret false.

(** The motor block, lines 491-507. *)
Definition motorBlock (motor : Z) : M World bool :=
  prev <- gets prevMotorStatus ;;
  if negb (motor =? prev) then
    modify (set_prevMotorStatus motor) ;;;
    (if motor =? 0 then IUSaveText 2 "Stopped"
     else if motor =? 1 then IUSaveText 2 "Running"
     else ret tt) ;;;
    ret true
  else ret false.

(** The heater blocks, lines 512-545. *)
Definition heaterBlock (temperature mode : Z) : M World unit :=
  let heaterConnected := if -40 <? temperature then 1 else 0 in
  prevC <- gets prevHeaterConnected ;;
  (if negb (heaterConnected =? prevC) then
     modify (set_prevHeaterConnected heaterConnected) ;;;
     if heaterConnected =? 1 then
       IUSaveText 3 "Connected" ;;;
       modify (set_HeaterModeSP_s IPS_OK)
     else
       modify (set_HeaterModeSP_s IPS_IDLE) ;;;
       IUSaveText 3 "Disconnected"
   else ret tt) ;;;
  prevM <- gets prevHeaterMode ;;
  if negb (mode =? prevM) then
    modify (set_prevHeaterMode mode) ;;;
    modify (fun w => set_HeaterModeS (IUResetSwitch (HeaterModeS w)) w) ;;;
    (if mode =? 0 then
       modify (fun w => set_HeaterModeS (setSwitch (HeaterModeS w) 0 ISS_ON) w)
     else if mode =? 1 then
       modify (fun w => set_HeaterModeS (setSwitch (HeaterModeS w) 1 ISS_ON) w)
     else if mode =? 2 then
       modify (fun w => set_HeaterModeS (setSwitch (HeaterModeS w) 2 ISS_ON) w)
     else ret tt) ;;;
    publish HeaterModeSP
  else ret tt.

(** The second part of [getStatus], lines 350-547: the reaction to the
    values of the poll. *)
Definition applyStatus (raw : RawStatus) : M World unit :=
  u1 <- coverBlock (motorStatus raw) (coverStatus raw) ;;
  (if motorStatus raw =? 1 then IUSaveText 0 "Moving" else ret tt) ;;;
  u2 <- lightBlock (lightStatus raw) ;;
  u3 <- motorBlock (motorStatus raw) ;;
  (if u1 || u2 || u3 then publish StatusTP else ret tt) ;;;
  heaterBlock (heaterTemperature raw) (heaterMode raw).

(** [DeepSkyDadFP::getStatus], lines 307-548. *)
Definition getStatus (junk : RawStatus) : M World bool :=
  r <- readStatus junk ;;
  match r with
  | None => ret false
  | Some raw => applyStatus raw ;;; ret true
  end.

(** The heater-mode branch of [DeepSkyDadFP::ISNewSwitch], lines 173-205.
    [None] is undefined behaviour: the write [HeaterModeS[current_mode].s]
    when no member was active and [current_mode] is -1. *)
Definition ISNewSwitch_HeaterMode (req : SwitchRequest) (w : World)
  : option (bool * World) :=
  let current_mode := IUFindOnSwitchIndex (HeaterModeS w) in
  let w1 := set_HeaterModeS (IUUpdateSwitch (HeaterModeS w) req) w in
  let target_mode := IUFindOnSwitchIndex (HeaterModeS w1) in
  if current_mode =? target_mode then
    Some (true, snd (publish HeaterModeSP (set_HeaterModeSP_s IPS_OK w1)))
  else
    let (rc, w2) := sendCommand (SHTM target_mode) w1 in
    match rc with
    | None =>
        match setSwitchAt (IUResetSwitch (HeaterModeS w2)) current_mode ISS_ON
        with
        | None => None
        | Some members =>
            Some (false,
                  snd (publish HeaterModeSP
                         (set_HeaterModeSP_s IPS_ALERT
                            (set_HeaterModeS members w2))))
        end
    | Some _ =>
        Some (true, snd (publish HeaterModeSP (set_HeaterModeSP_s IPS_OK w2)))
    end.

(** *** The notions the claims are stated with *)

(** The properties published in a run, oldest first. *)
Fixpoint publications (evs : list Event) : list Property :=
  match evs with
  | [] => []
  | EvPublish p :: t => p :: publications t
  | EvCmd _ :: t => publications t
  end.

(** The cover status differs from the one remembered and the motor is not
    running: the cover block takes the new status over. *)
Definition coverSettles (raw : RawStatus) (w : World) : bool :=
  negb (coverStatus raw =? prevCoverStatus w)
  && negb (motorStatus raw =? 1).

(** The cover status is one of the two end positions of this model of the
    panel. *)
Definition coverAtEnd (raw : RawStatus) (w : World) : bool :=
  if isFP2 w then (coverStatus raw =? 1) || (coverStatus raw =? 0)
  else (coverStatus raw =? 0) || (coverStatus raw =? 270).

Definition parkCapWaiting (w : World) : bool :=
  IPState_eqb (ParkCapSP_s w) IPS_BUSY || IPState_eqb (ParkCapSP_s w) IPS_IDLE.

(** The heater counts as connected above -40 degrees. *)
Definition connected (raw : RawStatus) : Z :=
  if -40 <? heaterTemperature raw then 1 else 0.

(** What a poll with values [raw] publishes from world [w], in order. *)
Definition expectedPublications (raw : RawStatus) (w : World) : list Property :=
  (if coverSettles raw w && coverAtEnd raw w && parkCapWaiting w
   then [ParkCapSP] else [])
  ++ (if negb (lightStatus raw =? prevLightStatus w)
         && ((lightStatus raw =? 0) || (lightStatus raw =? 1))
      then [LightSP] else [])
  ++ (if coverSettles raw w
         || negb (lightStatus raw =? prevLightStatus w)
         || negb (motorStatus raw =? prevMotorStatus w)
      then [StatusTP] else [])
  ++ (if negb (heaterMode raw =? prevHeaterMode w)
      then [HeaterModeSP] else []).

(** The world remembers the values [raw] as the previous poll: every
    remembered field is the one of [raw], except that the cover status may
    lag behind while the motor is running. *)
Definition remembers (raw : RawStatus) (w : World) : Prop :=
  prevLightStatus w = lightStatus raw /\
  prevMotorStatus w = motorStatus raw /\
  prevHeaterConnected w = connected raw /\
  prevHeaterMode w = heaterMode raw /\
  (motorStatus raw <> 1 -> prevCoverStatus w = coverStatus raw).

(** The five fields of a poll. *)
Inductive Field := Motor | Light | Cover | Temperature | Mode.

Definition field (f : Field) (raw : RawStatus) : Z :=
  match f with
  | Motor => motorStatus raw
  | Light => lightStatus raw
  | Cover => coverStatus raw
  | Temperature => heaterTemperature raw
  | Mode => heaterMode raw
  end.

(** Between two polls exactly the field [f] changed. *)
Definition onlyChanged (f : Field) (raw1 raw2 : RawStatus) : Prop :=
  field f raw1 <> field f raw2 /\
  forall g, g <> f -> field g raw1 = field g raw2.

(** *** Running the model *)

Lemma sendCommand_eq (c : Cmd) (w : World) :
  sendCommand c w =
  (fst (exec c (dev w)),
   set_events (events w ++ [EvCmd c]) (set_dev (snd (exec c (dev w))) w)).
Proof. unfold sendCommand. destruct (exec c (dev w)); reflexivity. Qed.

(** Projections and assignments compute on a world given by its members. *)
Ltac fields :=
  cbn [isFP2 prevCoverStatus prevLightStatus prevMotorStatus
       prevHeaterConnected prevHeaterMode StatusT HeaterModeS HeaterModeSP_s
       ParkCapS ParkCapSP_s LightS dev events
       set_prevCoverStatus set_prevLightStatus set_prevMotorStatus
       set_prevHeaterConnected set_prevHeaterMode set_StatusT
       set_HeaterModeS set_HeaterModeSP_s set_ParkCapS set_ParkCapSP_s
       set_LightS set_dev set_events] in *.

Ltac run :=
  repeat (rewrite ?bind_eq, ?sendCommand_eq;
          cbn [gets modify ret publish IUSaveText fst snd]; fields).

Ltac split_ifs :=
  repeat match goal with
         | |- context [if ?b then _ else _] => destruct b eqn:?; run
         end.

Lemma panel_publications_app (l1 l2 : list Event) :
  publications (l1 ++ l2) = publications l1 ++ publications l2.
Proof.
  induction l1 as [|[] t IH]; simpl; auto. now rewrite IH.
Qed.

Ltac pubs :=
  rewrite ?panel_publications_app; cbn [publications app];
  rewrite ?app_nil_r.

(** *** The blocks of the status poll *)

Lemma settleParkCap_spec (i : nat) (w : World) :
  let w' := snd (settleParkCap i w) in
  publications (events w') =
    publications (events w) ++ (if parkCapWaiting w then [ParkCapSP] else []) /\
  isFP2 w' = isFP2 w /\ prevCoverStatus w' = prevCoverStatus w /\
  prevLightStatus w' = prevLightStatus w /\
  prevMotorStatus w' = prevMotorStatus w /\
  prevHeaterConnected w' = prevHeaterConnected w /\
  prevHeaterMode w' = prevHeaterMode w.
Proof.
  destruct w as [fp2 pcov plight pmotor phc phm texts hms hmst caps capst lights d evs].
  unfold settleParkCap, parkCapWaiting. run.
  destruct (IPState_eqb _ IPS_BUSY || IPState_eqb _ IPS_IDLE);
    run; pubs; repeat split.
Qed.

Lemma coverBlock_spec (raw : RawStatus) (w : World) :
  let r := coverBlock (motorStatus raw) (coverStatus raw) w in
  fst r = coverSettles raw w /\
  publications (events (snd r)) =
    publications (events w)
    ++ (if coverSettles raw w && coverAtEnd raw w && parkCapWaiting w
        then [ParkCapSP] else []) /\
  isFP2 (snd r) = isFP2 w /\
  prevCoverStatus (snd r) =
    (if coverSettles raw w then coverStatus raw else prevCoverStatus w) /\
  prevLightStatus (snd r) = prevLightStatus w /\
  prevMotorStatus (snd r) = prevMotorStatus w /\
  prevHeaterConnected (snd r) = prevHeaterConnected w /\
  prevHeaterMode (snd r) = prevHeaterMode w.
Proof.
  destruct w as [fp2 pcov plight pmotor phc phm texts hms hmst caps capst lights d evs].
  unfold coverBlock, coverSettles, coverAtEnd, parkCapWaiting.
  run.
  destruct fp2;
    destruct (coverStatus raw =? pcov) eqn:Hc; cbn [negb andb];
    run; try (pubs; repeat split; fail);
    destruct (motorStatus raw =? 1) eqn:Hm; cbn [negb andb]; run.
  all: try (split_ifs; pubs; repeat split; fail).
  all: match goal with
       | |- context [coverStatus ?r =? ?a] =>
           destruct (coverStatus r =? a) eqn:H1; run
       end.
  all: try match goal with
       | |- context [coverStatus ?r =? ?a] =>
           destruct (coverStatus r =? a) eqn:H2; run
       end.
  all: cbn [orb andb].
  all: try (pubs; repeat split; fail).
  all: match goal with
       | |- context [settleParkCap ?i ?w1] =>
           destruct (settleParkCap_spec i w1) as (Hp & Hf & Hcov & Hl & Hmo & Hhc & Hhm);
           cbv zeta in *; unfold parkCapWaiting in Hp; fields;
           rewrite Hp, Hf, Hcov, Hl, Hmo, Hhc, Hhm; repeat split
       end.
Qed.

Lemma lightBlock_spec (light : Z) (w : World) :
  let r := lightBlock light w in
  fst r = negb (light =? prevLightStatus w) /\
  publications (events (snd r)) =
    publications (events w)
    ++ (if negb (light =? prevLightStatus w)
           && ((light =? 0) || (light =? 1))
        then [LightSP] else []) /\
  prevLightStatus (snd r) = light /\
  prevMotorStatus (snd r) = prevMotorStatus w /\
  prevHeaterConnected (snd r) = prevHeaterConnected w /\
  prevHeaterMode (snd r) = prevHeaterMode w /\
  prevCoverStatus (snd r) = prevCoverStatus w.
Proof.
  destruct w as [fp2 pcov plight pmotor phc phm texts hms hmst caps capst lights d evs].
  unfold lightBlock. run.
  destruct (Z.eqb_spec light plight) as [E|E]; cbn [negb andb];
    run; [pubs; repeat split; congruence|].
  destruct (light =? 0); run; cbn [orb]; [pubs; repeat split|].
  destruct (light =? 1); run; pubs; repeat split.
Qed.

Lemma motorBlock_spec (motor : Z) (w : World) :
  let r := motorBlock motor w in
  fst r = negb (motor =? prevMotorStatus w) /\
  events (snd r) = events w /\
  prevMotorStatus (snd r) = motor /\
  prevLightStatus (snd r) = prevLightStatus w /\
  prevHeaterConnected (snd r) = prevHeaterConnected w /\
  prevHeaterMode (snd r) = prevHeaterMode w /\
  prevCoverStatus (snd r) = prevCoverStatus w.
Proof.
  destruct w as [fp2 pcov plight pmotor phc phm texts hms hmst caps capst lights d evs].
  unfold motorBlock. run.
  destruct (Z.eqb_spec motor pmotor) as [E|E]; cbn [negb];
    run; [repeat split; congruence|].
  split_ifs; repeat split.
Qed.

Lemma heaterBlock_spec (raw : RawStatus) (w : World) :
  let w' := snd (heaterBlock (heaterTemperature raw) (heaterMode raw) w) in
  publications (events w') =
    publications (events w)
    ++ (if negb (heaterMode raw =? prevHeaterMode w)
        then [HeaterModeSP] else []) /\
  prevHeaterConnected w' = connected raw /\
  prevHeaterMode w' = heaterMode raw /\
  prevLightStatus w' = prevLightStatus w /\
  prevMotorStatus w' = prevMotorStatus w /\
  prevCoverStatus w' = prevCoverStatus w.
Proof.
  destruct w as [fp2 pcov plight pmotor phc phm texts hms hmst caps capst lights d evs].
  unfold heaterBlock, connected. run.
  destruct (Z.eqb_spec (if -40 <? heaterTemperature raw then 1 else 0)
              phc) as [Ec|Ec]; cbn [negb]; run.
  - destruct (Z.eqb_spec (heaterMode raw) phm) as [Em|Em];
      cbn [negb]; run.
    + pubs. repeat split; congruence.
    + split_ifs; pubs; repeat split; congruence.
  - destruct (-40 <? heaterTemperature raw); cbn [Z.eqb Pos.eqb]; run;
      (destruct (Z.eqb_spec (heaterMode raw) phm) as [Em|Em];
       cbn [negb]; run;
       [pubs; repeat split; congruence
       |split_ifs; pubs; repeat split]).
Qed.

(** What a poll publishes, and what the world remembers after it. *)
Lemma applyStatus_spec (raw : RawStatus) (w : World) :
  let w' := snd (applyStatus raw w) in
  publications (events w') =
    publications (events w) ++ expectedPublications raw w /\
  remembers raw w' /\
  (motorStatus raw = 1 -> prevCoverStatus w' = prevCoverStatus w).
Proof.
  unfold applyStatus, expectedPublications, remembers. cbv zeta.
  rewrite bind_eq.
  destruct (coverBlock_spec raw w)
    as (Hu1 & Hp1 & _ & Hc1 & Hl1 & Hm1 & Hhc1 & Hhm1).
  cbv zeta in *.
  destruct (coverBlock (motorStatus raw) (coverStatus raw) w) as [u1 w1].
  cbn [fst snd] in *. rewrite bind_eq.
  assert (H2 : let w2 := snd ((if motorStatus raw =? 1
                               then IUSaveText 0 "Moving" else ret tt) w1) in
               events w2 = events w1 /\
               prevCoverStatus w2 = prevCoverStatus w1 /\
               prevLightStatus w2 = prevLightStatus w1 /\
               prevMotorStatus w2 = prevMotorStatus w1 /\
               prevHeaterConnected w2 = prevHeaterConnected w1 /\
               prevHeaterMode w2 = prevHeaterMode w1).
  { destruct w1; destruct (motorStatus raw =? 1); repeat split. }
  cbv zeta in H2. destruct H2 as (He2 & Hc2 & Hl2 & Hm2 & Hhc2 & Hhm2).
  destruct ((if motorStatus raw =? 1 then IUSaveText 0 "Moving" else ret tt) w1)
    as [[] w2].
  cbn [fst snd] in *. rewrite bind_eq.
  destruct (lightBlock_spec (lightStatus raw) w2)
    as (Hu3 & Hp3 & Hl3 & Hm3 & Hhc3 & Hhm3 & Hc3).
  cbv zeta in *.
  destruct (lightBlock (lightStatus raw) w2) as [u2 w3].
  cbn [fst snd] in *. rewrite bind_eq.
  destruct (motorBlock_spec (motorStatus raw) w3)
    as (Hu4 & He4 & Hm4 & Hl4 & Hhc4 & Hhm4 & Hc4).
  cbv zeta in *.
  destruct (motorBlock (motorStatus raw) w3) as [u3 w4].
  cbn [fst snd] in *. rewrite bind_eq.
  assert (H5 : let w5 := snd ((if u1 || u2 || u3
                               then publish StatusTP else ret tt) w4) in
               publications (events w5) =
                 publications (events w4)
                 ++ (if u1 || u2 || u3 then [StatusTP] else []) /\
               prevCoverStatus w5 = prevCoverStatus w4 /\
               prevLightStatus w5 = prevLightStatus w4 /\
               prevMotorStatus w5 = prevMotorStatus w4 /\
               prevHeaterConnected w5 = prevHeaterConnected w4 /\
               prevHeaterMode w5 = prevHeaterMode w4).
  { destruct w4; destruct (u1 || u2 || u3); run; pubs; repeat split. }
  cbv zeta in H5. destruct H5 as (Hp5 & Hc5 & Hl5 & Hm5 & Hhc5 & Hhm5).
  destruct ((if u1 || u2 || u3 then publish StatusTP else ret tt) w4)
    as [[] w5].
  cbn [fst snd] in *.
  destruct (heaterBlock_spec raw w5) as (Hp6 & Hhc6 & Hhm6 & Hl6 & Hm6 & Hc6).
  cbv zeta in *.
  rewrite Hp6, Hp5, He4, Hp3, He2, Hp1.
  rewrite Hu1, Hu3, Hu4.
  rewrite Hhm5, Hhm4, Hhm3, Hhm2, Hhm1, !Hl2, !Hl1, Hm3, Hm2, Hm1.
  rewrite <- !app_assoc.
  split; [reflexivity|].
  split.
  - repeat split; try congruence.
    intros Hne. rewrite Hc6, Hc5, Hc4, Hc3, Hc2, Hc1.
    unfold coverSettles.
    destruct (Z.eqb_spec (coverStatus raw) (prevCoverStatus w)) as [E|E];
      cbn [negb andb]; [congruence|].
    destruct (Z.eqb_spec (motorStatus raw) 1); [contradiction|reflexivity].
  - intros Hone. rewrite Hc6, Hc5, Hc4, Hc3, Hc2, Hc1.
    unfold coverSettles. rewrite Hone. cbn. now rewrite andb_false_r.
Qed.

(** *** The status poll as a whole *)

(** The queries of a poll send commands and nothing else: nothing is
    published and nothing that the poll compares with is touched. *)
Lemma readStatus_frame (junk : RawStatus) (w : World) :
  exists d' evs,
    snd (readStatus junk w) = set_events (events w ++ evs) (set_dev d' w) /\
    publications evs = [].
Proof.
  destruct w as [fp2 pcov plight pmotor phc phm texts hms hmst caps capst lights d evs].
  unfold readStatus. run.
  destruct (fst (exec GMOV d)); run;
    [|eexists _, [_]; split; reflexivity].
  destruct (fst (exec GLON _)); run;
    [|eexists _, [_; _]; rewrite <- !app_assoc; split; reflexivity].
  destruct (fst (exec (if fp2 then GOPS else GPOS) _)); run;
    [|eexists _, [_; _; _]; rewrite <- !app_assoc; split; reflexivity].
  destruct (fst (exec GHTT _)); run;
    [|eexists _, [_; _; _; _]; rewrite <- !app_assoc; split; reflexivity].
  destruct (fst (exec GHTM _)); run;
    eexists _, [_; _; _; _; _]; rewrite <- !app_assoc; split; reflexivity.
Qed.

Lemma getStatus_answered (junk raw : RawStatus) (w : World) :
  fst (readStatus junk w) = Some raw ->
  getStatus junk w = (true, snd (applyStatus raw (snd (readStatus junk w)))).
Proof.
  intros H. unfold getStatus. rewrite bind_eq, H, bind_eq. reflexivity.
Qed.

(** A poll whose queries fail returns false and publishes nothing. *)
Lemma getStatus_failed (junk : RawStatus) (w : World) :
  fst (readStatus junk w) = None ->
  fst (getStatus junk w) = false /\
  publications (events (snd (getStatus junk w))) = publications (events w).
Proof.
  intros H. unfold getStatus. rewrite bind_eq, H. cbn [ret fst snd].
  destruct (readStatus_frame junk w) as (d' & evs & Hw & Hp).
  rewrite Hw. destruct w. fields. rewrite panel_publications_app, Hp, app_nil_r.
  split; reflexivity.
Qed.

(** Two consecutive answered polls: the second publishes what
    [expectedPublications] says for a world that remembers the values of the
    first. *)
Lemma consecutive_polls (junk1 junk2 raw1 raw2 : RawStatus) (w : World) :
  fst (readStatus junk1 w) = Some raw1 ->
  let w1 := snd (getStatus junk1 w) in
  fst (readStatus junk2 w1) = Some raw2 ->
  exists w1',
    remembers raw1 w1' /\
    fst (getStatus junk2 w1) = true /\
    publications (events (snd (getStatus junk2 w1))) =
      publications (events w1) ++ expectedPublications raw2 w1'.
Proof.
  intros H1 w1 H2. subst w1.
  rewrite (getStatus_answered junk1 raw1 w H1) in *. cbn [snd] in *.
  destruct (applyStatus_spec raw1 (snd (readStatus junk1 w))) as (_ & Hr & _).
  cbv zeta in Hr.
  set (w1 := snd (applyStatus raw1 (snd (readStatus junk1 w)))) in *.
  rewrite (getStatus_answered junk2 raw2 w1 H2). cbn [fst snd].
  destruct (applyStatus_spec raw2 (snd (readStatus junk2 w1))) as (Hp & _ & _).
  cbv zeta in Hp.
  destruct (readStatus_frame junk2 w1) as (d' & evs & Hw & Hpe).
  exists (snd (readStatus junk2 w1)). split; [|split; [reflexivity|]].
  - rewrite Hw. destruct w1. exact Hr.
  - rewrite Hp. f_equal. rewrite Hw. destruct w1. fields.
    now rewrite panel_publications_app, Hpe, app_nil_r.
Qed.

Lemma onlyChanged_fields (f : Field) (raw1 raw2 : RawStatus) :
  onlyChanged f raw1 raw2 ->
  forall g, field g raw2 = field g raw1 <-> g <> f.
Proof.
  intros [Hf Hg] g. split.
  - intros E Egf. subst g. congruence.
  - intros Hne. symmetry. now apply Hg.
Qed.

Ltac same_field H g :=
  let E := fresh "E" in
  assert (E : field g _ = field g _)
    by (apply (proj2 (onlyChanged_fields _ _ _ H g)); discriminate);
  cbn [field] in E.

(** Edge detection of the flap panel poll, for two consecutive answered
    polls with values [raw1] and [raw2]: what the second poll publishes. *)
Lemma poll_edge_detection (junk1 junk2 raw1 raw2 : RawStatus) (w : World) :
  fst (readStatus junk1 w) = Some raw1 ->
  let w1 := snd (getStatus junk1 w) in
  fst (readStatus junk2 w1) = Some raw2 ->
  let produced ps :=
    publications (events (snd (getStatus junk2 w1))) =
    publications (events w1) ++ ps in
  (raw2 = raw1 -> produced []) /\
  (onlyChanged Mode raw1 raw2 -> produced [HeaterModeSP]) /\
  (onlyChanged Light raw1 raw2 ->
     produced ((if (lightStatus raw2 =? 0) || (lightStatus raw2 =? 1)
                then [LightSP] else []) ++ [StatusTP])) /\
  (onlyChanged Motor raw1 raw2 ->
     (produced [StatusTP] \/ produced [ParkCapSP; StatusTP]) /\
     (motorStatus raw1 <> 1 -> produced [StatusTP])) /\
  (onlyChanged Cover raw1 raw2 ->
     if motorStatus raw2 =? 1 then produced []
     else produced [StatusTP] \/ produced [ParkCapSP; StatusTP]) /\
  (onlyChanged Temperature raw1 raw2 -> produced []).
Proof.
  intros H1 w1 H2 produced.
  destruct (consecutive_polls junk1 junk2 raw1 raw2 w H1 H2)
    as (w1' & (Rl & Rm & Rhc & Rhm & Rc) & _ & Hp).
  fold w1 in Hp. unfold produced. rewrite Hp.
  unfold expectedPublications, coverSettles. rewrite Rl, Rm, Rhm.
  repeat split.
  - intros ->. rewrite !Z.eqb_refl. cbn [negb andb orb].
    destruct (Z.eqb_spec (motorStatus raw1) 1) as [E|E]; cbn [negb].
    + now rewrite !andb_false_r.
    + rewrite (Rc E), Z.eqb_refl. reflexivity.
  - intros H. same_field H Motor. same_field H Light. same_field H Cover.
    destruct H as [Hne _]. cbn [field] in Hne.
    rewrite E, E0, E1, !Z.eqb_refl. cbn [negb andb orb].
    destruct (Z.eqb_spec (heaterMode raw2) (heaterMode raw1)); [congruence|].
    destruct (Z.eqb_spec (motorStatus raw1) 1) as [E2|E2]; cbn [negb].
    + now rewrite !andb_false_r.
    + rewrite (Rc E2), Z.eqb_refl. reflexivity.
  - intros H. same_field H Motor. same_field H Mode. same_field H Cover.
    destruct H as [Hne _]. cbn [field] in Hne.
    rewrite E, E0, E1, !Z.eqb_refl. cbn [negb andb orb].
    destruct (Z.eqb_spec (lightStatus raw2) (lightStatus raw1)); [congruence|].
    cbn [negb andb orb]. rewrite orb_true_r.
    destruct (Z.eqb_spec (motorStatus raw1) 1) as [E2|E2]; cbn [negb].
    + rewrite !andb_false_r. reflexivity.
    + rewrite (Rc E2), Z.eqb_refl. reflexivity.
  - same_field H Light. same_field H Mode. same_field H Cover.
    destruct H as [Hne _]. cbn [field] in Hne.
    rewrite E, E0, E1, !Z.eqb_refl. cbn [negb andb orb].
    destruct (Z.eqb_spec (motorStatus raw2) (motorStatus raw1)); [congruence|].
    cbn [negb andb orb]. rewrite orb_true_r.
    destruct (negb (coverStatus raw1 =? prevCoverStatus w1')
              && negb (motorStatus raw2 =? 1) && coverAtEnd raw2 w1'
              && parkCapWaiting w1'); [right|left]; reflexivity.
  - intros Hm1. same_field H Light. same_field H Mode. same_field H Cover.
    destruct H as [Hne _]. cbn [field] in Hne.
    rewrite E, E0, E1, !Z.eqb_refl. cbn [negb andb orb].
    destruct (Z.eqb_spec (motorStatus raw2) (motorStatus raw1)); [congruence|].
    rewrite (Rc Hm1), Z.eqb_refl. reflexivity.
  - intros H. same_field H Light. same_field H Mode. same_field H Motor.
    destruct H as [Hne _]. cbn [field] in Hne.
    rewrite E, E0, E1, !Z.eqb_refl. cbn [negb andb orb].
    destruct (Z.eqb_spec (motorStatus raw1) 1) as [E2|E2]; cbn [negb].
    + rewrite !andb_false_r. reflexivity.
    + rewrite (Rc E2).
      destruct (Z.eqb_spec (coverStatus raw2) (coverStatus raw1)); [congruence|].
      cbn [negb andb orb].
      destruct (coverAtEnd raw2 w1' && parkCapWaiting w1'); [right|left];
        reflexivity.
  - intros H. same_field H Light. same_field H Mode. same_field H Motor.
    same_field H Cover.
    rewrite E, E0, E1, E2, !Z.eqb_refl. cbn [negb andb orb].
    destruct (Z.eqb_spec (motorStatus raw1) 1) as [E3|E3]; cbn [negb].
    + now rewrite !andb_false_r.
    + rewrite (Rc E3), Z.eqb_refl. reflexivity.
Qed.

(** *** The heater mode switch *)

(** The members of a switch property are a C array: whatever
    [IUUpdateSwitch] stages, there are as many members after as before. *)
Hypothesis IUUpdateSwitch_length :
  forall sp req, length (IUUpdateSwitch sp req) = length sp.

(** Re-selecting the active heater mode: the state becomes OK, the property
    is published, and nothing is sent to the device. *)
Lemma HeaterMode_same_selection (req : SwitchRequest) (w : World) :
  IUFindOnSwitchIndex (IUUpdateSwitch (HeaterModeS w) req)
    = IUFindOnSwitchIndex (HeaterModeS w) ->
  exists w',
    ISNewSwitch_HeaterMode req w = Some (true, w') /\
    HeaterModeSP_s w' = IPS_OK /\
    events w' = events w ++ [EvPublish HeaterModeSP] /\
    dev w' = dev w.
Proof.
  intros Hsame.
  destruct w as [fp2 pcov plight pmotor phc phm texts hms hmst caps capst lights d evs].
  unfold ISNewSwitch_HeaterMode. fields. rewrite Hsame, Z.eqb_refl.
  eexists. split; [reflexivity|]. run. repeat split.
Qed.


(** *** The dust cap and the light box *)

(** The commands of the cap and of the light are sent as their wire text;
    they are not entered in [events], the panel is what records them. *)
Variable execText : string -> Dev -> option string * Dev.

(** [DeepSkyDadFP::sendCommand], lines 608-640, for a command given as its
    text. *)
Definition sendCommandText (cmd : string) : M World (option string) :=
  fun w => (fst (execText cmd (dev w)), set_dev (snd (execText cmd (dev w))) w).

(** [DeepSkyDadFP::ParkCap], lines 256-270. *)
Definition ParkCap : M World IPState :=
  r1 <- sendCommandText "[STRG270]" ;;
  match r1 with
  | None => ret IPS_ALERT
  | Some _ =>
      r2 <- sendCommandText "[SMOV]" ;;
      match r2 with
      | None => ret IPS_ALERT
      | Some response =>
          if String.eqb response "(OK)" then
            modify (set_prevCoverStatus 10) ;;;
            ret IPS_BUSY
          else ret IPS_ALERT
      end
  end.

(** [DeepSkyDadFP::UnParkCap], lines 272-286. *)
Definition UnParkCap : M World IPState :=
  r1 <- sendCommandText "[STRG0]" ;;
  match r1 with
  | None => ret IPS_ALERT
  | Some _ =>
      r2 <- sendCommandText "[SMOV]" ;;
      match r2 with
      | None => ret IPS_ALERT
      | Some response =>
          if String.eqb response "(OK)" then
            modify (set_prevCoverStatus 10) ;;;
            ret IPS_BUSY
          else ret IPS_ALERT
      end
  end.

(** [DeepSkyDadFP::EnableLightBox], lines 288-305. *)
Definition EnableLightBox (enable : bool) : M World bool :=
  r <- sendCommandText (if enable then "[SLON1]" else "[SLON0]") ;;
  match r with
  | None => ret false
  | Some response => ret (String.eqb response "(OK)")
  end.

(** [DeepSkyDadFP::SetLightBoxBrightness], lines 590-606; [value] is a
    [uint16_t]. *)
Definition SetLightBoxBrightness (value : Z) : M World bool :=
  r <- sendCommandText ("[SLBR" ++ CLib.decimal04 value ++ "]") ;;
  match r with
  | None => ret false
  | Some response => ret (String.eqb response "(OK)")
  end.

(** The commands the panel has received when it is in state [d], starting
    from state [d0]. *)
Fixpoint received (cmds : list string) (d0 : Dev) : Dev :=
  match cmds with
  | [] => d0
  | c :: rest => received rest (snd (execText c d0))
  end.

(** The cover position at which the cap is closed, and open, on either model
    of the panel. *)
Definition closedPosition (w : World) : Z := if isFP2 w then 0 else 270.
Definition openPosition (w : World) : Z := if isFP2 w then 1 else 0.

(** The first of the four status texts, the one of the cover. *)
Definition coverText (w : World) : option string := hd_error (StatusT w).

Ltac run' :=
  repeat (rewrite ?bind_eq;
          cbn [sendCommandText gets modify ret publish IUSaveText fst snd];
          fields).

(** What moving the cap leaves as it was. *)
Lemma cap_frame (park : bool) (w : World) :
  let w' := snd ((if park then ParkCap else UnParkCap) w) in
  (prevCoverStatus w' = 10 \/ prevCoverStatus w' = prevCoverStatus w) /\
  (fst ((if park then ParkCap else UnParkCap) w) = IPS_BUSY ->
   prevCoverStatus w' = 10) /\
  isFP2 w' = isFP2 w /\ StatusT w' = StatusT w /\
  ParkCapS w' = ParkCapS w /\ events w' = events w.
Proof.
  cbv zeta.
  destruct w as [fp2 pcov plight pmotor phc phm texts hms hmst caps capst lights d evs].
  destruct park; unfold ParkCap, UnParkCap; run';
    (destruct (fst (execText _ d)); run';
     [|repeat split; auto; discriminate];
     destruct (fst (execText "[SMOV]" _)) as [response|]; run';
     [|repeat split; auto; discriminate];
     destruct (String.eqb response "(OK)"); run'; repeat split; auto;
     discriminate).
Qed.

(** X22: Moving the cap: the target angle is sent, then the move command, which
    is not sent when the first exchange fails.  The result is BUSY exactly
    when both exchanges succeed and the answer to the move command is
    "(OK)", and ALERT otherwise; only a BUSY result resets the remembered
    cover status, to 10, a value no position has. *)
Theorem ParkCap_result (w : World) :
  let cap (park : bool) := if park then ParkCap w else UnParkCap w in
  let target (park : bool) := if park then "[STRG270]" else "[STRG0]" in
  forall park : bool,
    let r1 := fst (execText (target park) (dev w)) in
    let d1 := snd (execText (target park) (dev w)) in
    let moved := match r1, fst (execText "[SMOV]" d1) with
                 | Some _, Some response => String.eqb response "(OK)"
                 | _, _ => false
                 end in
    fst (cap park) = (if moved then IPS_BUSY else IPS_ALERT) /\
    dev (snd (cap park)) =
      received (target park
                  :: match r1 with Some _ => ["[SMOV]"] | None => [] end)
        (dev w) /\
    prevCoverStatus (snd (cap park)) =
      (if moved then 10 else prevCoverStatus w) /\
    events (snd (cap park)) = events w /\
    ParkCapSP_s (snd (cap park)) = ParkCapSP_s w.
Proof.
  cbv zeta. intros park.
  destruct w as [fp2 pcov plight pmotor phc phm texts hms hmst caps capst lights d evs].
  destruct park; unfold ParkCap, UnParkCap; run'; cbn [received];
    (destruct (fst (execText _ d)); run'; cbn [received];
     [|repeat split];
     destruct (fst (execText "[SMOV]" _)) as [response|]; run';
     [|repeat split];
     destruct (String.eqb response "(OK)"); run'; repeat split).
Qed.

(** *** The cover while the motor runs *)

Lemma hd_saveTextAt_other (texts : list string) (i : nat) (text : string) :
  hd_error (saveTextAt texts (S i) text) = hd_error texts.
Proof. destruct texts; reflexivity. Qed.

Lemma hd_saveTextAt_first (texts : list string) (text : string) :
  texts <> [] -> hd_error (saveTextAt texts 0 text) = Some text.
Proof. destruct texts; [congruence|reflexivity]. Qed.

Lemma saveTextAt_nil (texts : list string) (i : nat) (text : string) :
  saveTextAt texts i text = [] <-> texts = [].
Proof.
  destruct texts, i; cbn; split; congruence.
Qed.

(** A step that leaves the text of the cover and the park-cap property
    alone. *)
Definition keepsCover {A} (m : M World A) : Prop :=
  forall w,
    coverText (snd (m w)) = coverText w /\
    ParkCapS (snd (m w)) = ParkCapS w /\
    ParkCapSP_s (snd (m w)) = ParkCapSP_s w.

Lemma keepsCover_bind {A B} (m : M World A) (k : A -> M World B) :
  keepsCover m -> (forall a, keepsCover (k a)) -> keepsCover (bind m k).
Proof.
  intros Hm Hk w. rewrite bind_eq.
  destruct (Hm w) as (H1 & H2 & H3).
  destruct (Hk (fst (m w)) (snd (m w))) as (K1 & K2 & K3).
  repeat split; congruence.
Qed.

Lemma lightBlock_keepsCover (light : Z) : keepsCover (lightBlock light).
Proof.
  intros w. unfold coverText.
  destruct w as [fp2 pcov plight pmotor phc phm texts hms hmst caps capst lights d evs].
  unfold lightBlock. run.
  split_ifs; rewrite ?hd_saveTextAt_other; repeat split.
Qed.

Lemma motorBlock_keepsCover (motor : Z) : keepsCover (motorBlock motor).
Proof.
  intros w. unfold coverText.
  destruct w as [fp2 pcov plight pmotor phc phm texts hms hmst caps capst lights d evs].
  unfold motorBlock. run.
  split_ifs; rewrite ?hd_saveTextAt_other; repeat split.
Qed.

Lemma heaterBlock_keepsCover (temperature mode : Z) :
  keepsCover (heaterBlock temperature mode).
Proof.
  intros w. unfold coverText.
  destruct w as [fp2 pcov plight pmotor phc phm texts hms hmst caps capst lights d evs].
  unfold heaterBlock. run.
  destruct (negb (_ =? phc)); run; [destruct (_ =? 1); run|];
    (destruct (negb (mode =? phm)); run; [|rewrite ?hd_saveTextAt_other; repeat split]);
    (destruct (mode =? 0); run; [rewrite ?hd_saveTextAt_other; repeat split|]);
    (destruct (mode =? 1); run; [rewrite ?hd_saveTextAt_other; repeat split|]);
    destruct (mode =? 2); run; rewrite ?hd_saveTextAt_other; repeat split.
Qed.

Lemma publish_keepsCover (p : Property) : keepsCover (publish p).
Proof. intros w. destruct w. repeat split. Qed.

Lemma ret_keepsCover {A} (a : A) : keepsCover (ret a).
Proof. intros w. repeat split. Qed.

(** The blocks after the cover block write the texts of the light, the
    motor and the heater; they leave the text of the cover and the park-cap
    property alone. *)
Lemma later_blocks_frame (light motor temperature mode : Z) (u1 : bool) :
  keepsCover
    (u2 <- lightBlock light ;;
     u3 <- motorBlock motor ;;
     (if u1 || u2 || u3 then publish StatusTP else ret tt) ;;;
     heaterBlock temperature mode)%drv.
Proof.
  apply keepsCover_bind; [apply lightBlock_keepsCover|intros u2].
  apply keepsCover_bind; [apply motorBlock_keepsCover|intros u3].
  apply keepsCover_bind; [|intros _; apply heaterBlock_keepsCover].
  destruct (u1 || u2 || u3);
    [apply publish_keepsCover|apply ret_keepsCover].
Qed.

(** X23: As long as the panel reports the motor running, an answered poll shows
    the cover as "Moving", whatever cover status is reported, and neither
    takes the cover status over nor touches the park-cap property. *)
Theorem cover_reads_moving_while_the_motor_runs
    (junk raw : RawStatus) (w : World) :
  fst (readStatus junk w) = Some raw ->
  motorStatus raw = 1 ->
  StatusT w <> [] ->
  let w' := snd (getStatus junk w) in
  coverText w' = Some "Moving" /\
  prevCoverStatus w' = prevCoverStatus w /\
  ParkCapS w' = ParkCapS w /\
  ParkCapSP_s w' = ParkCapSP_s w.
Proof.
  intros Hread Hmotor Htexts. cbv zeta.
  rewrite (getStatus_answered junk raw w Hread). cbn [snd].
  destruct (readStatus_frame junk w) as (d' & evs' & Hw & _).
  rewrite Hw. clear Hw Hread.
  destruct (applyStatus_spec raw (set_events (events w ++ evs') (set_dev d' w)))
    as (_ & _ & Hcov). cbv zeta in Hcov. rewrite (Hcov Hmotor). clear Hcov.
  unfold applyStatus. rewrite bind_eq, Hmotor. cbn [Z.eqb Pos.eqb].
  rewrite (bind_eq (IUSaveText 0 "Moving")).
  destruct (later_blocks_frame (lightStatus raw) 1 (heaterTemperature raw)
              (heaterMode raw)
              (fst (coverBlock 1 (coverStatus raw)
                      (set_events (events w ++ evs') (set_dev d' w))))
              (snd (IUSaveText 0 "Moving"
                      (snd (coverBlock 1 (coverStatus raw)
                              (set_events (events w ++ evs') (set_dev d' w)))))))
    as (H1 & H2 & H3).
  rewrite H1, H2, H3. clear H1 H2 H3.
  destruct w as [fp2 pcov plight pmotor phc phm texts hms hmst caps capst lights d evs].
  unfold coverText, coverBlock. run. change (1 =? 1) with true. cbv iota.
  destruct fp2; destruct (negb (coverStatus raw =? pcov)); run.
  all:
    try (rewrite hd_saveTextAt_first by exact Htexts; repeat split; fail);
    (destruct (coverStatus raw =? 0); run;
     [rewrite hd_saveTextAt_first
        by (intros E; apply saveTextAt_nil in E; contradiction);
      repeat split|]);
    destruct (coverStatus raw =? _); run;
    rewrite hd_saveTextAt_first
      by (intros E; apply saveTextAt_nil in E; contradiction);
    repeat split.
Qed.

(** *** Parking the cap and the poll after it *)

(** What the cover block does when the cover has arrived: the reported
    status differs from the one remembered, the motor is not running, the
    status is an end position and the park-cap property is BUSY. *)
Lemma coverBlock_arrived (closed : bool) (motor cover : Z) (w : World) :
  cover <> prevCoverStatus w ->
  motor <> 1 ->
  cover = (if closed then closedPosition w else openPosition w) ->
  ParkCapSP_s w = IPS_BUSY ->
  let w' := snd (coverBlock motor cover w) in
  ParkCapSP_s w' = IPS_OK /\
  ParkCapS w' =
    setSwitch (IUResetSwitch (ParkCapS w)) (if closed then 0 else 1)%nat ISS_ON /\
  (StatusT w <> [] ->
   coverText w' = Some (if closed then "Closed" else "Open")).
Proof.
  intros Hne Hmotor Hcover Hbusy. cbv zeta.
  destruct w as [fp2 pcov plight pmotor phc phm texts hms hmst caps capst lights d evs].
  unfold closedPosition, openPosition, coverText in *. fields. subst capst.
  unfold coverBlock, settleParkCap. run.
  apply Z.eqb_neq in Hne, Hmotor. rewrite Hne, Hmotor. cbn [negb].
  destruct fp2, closed; subst cover; run;
    cbn [Z.eqb Pos.eqb IPState_eqb orb]; run;
    (split; [reflexivity|]; split; [reflexivity|]);
    intros Ht; now apply hd_saveTextAt_first.
Qed.

(** X24: Why moving the cap resets the remembered cover status: after [ParkCap]
    or [UnParkCap] has returned BUSY and the dust cap interface has made
    that the state of the park-cap property, the next answered poll that
    shows the motor stopped and the cover at an end position selects the
    member of that position (0 is parked, 1 is unparked), sets the state of
    the property to OK and publishes it, also when the cover status is the
    one that was remembered before the cap was moved. *)
Theorem moved_cap_is_settled_by_the_next_poll
    (park closed : bool) (junk raw : RawStatus) (w : World) :
  fst ((if park then ParkCap else UnParkCap) w) = IPS_BUSY ->
  let w1 :=
    set_ParkCapSP_s IPS_BUSY (snd ((if park then ParkCap else UnParkCap) w)) in
  fst (readStatus junk w1) = Some raw ->
  motorStatus raw <> 1 ->
  coverStatus raw = (if closed then closedPosition w else openPosition w) ->
  let w2 := snd (getStatus junk w1) in
  ParkCapSP_s w2 = IPS_OK /\
  ParkCapS w2 =
    setSwitch (IUResetSwitch (ParkCapS w)) (if closed then 0 else 1)%nat ISS_ON /\
  prevCoverStatus w2 = coverStatus raw /\
  (StatusT w <> [] ->
   coverText w2 = Some (if closed then "Closed" else "Open")) /\
  exists rest,
    publications (events w2) = publications (events w1) ++ ParkCapSP :: rest.
Proof.
  intros Hbusy w1 Hread Hmotor Hcover w2. subst w1 w2.
  destruct (cap_frame park w) as (_ & H10 & Hfp & Htxt & Hcaps & _).
  cbv zeta in *. specialize (H10 Hbusy).
  set (w0 := snd ((if park then ParkCap else UnParkCap) w)) in *.
  rewrite (getStatus_answered junk raw _ Hread). cbn [snd].
  destruct (readStatus_frame junk (set_ParkCapSP_s IPS_BUSY w0))
    as (d' & evs' & Hw & Hpub).
  rewrite Hw. clear Hw Hread.
  set (w1 := set_events (events (set_ParkCapSP_s IPS_BUSY w0) ++ evs')
               (set_dev d' (set_ParkCapSP_s IPS_BUSY w0))).
  assert (F : isFP2 w1 = isFP2 w /\ StatusT w1 = StatusT w /\
              ParkCapS w1 = ParkCapS w /\ prevCoverStatus w1 = 10 /\
              ParkCapSP_s w1 = IPS_BUSY /\
              publications (events w1) =
                publications (events (set_ParkCapSP_s IPS_BUSY w0))).
  { subst w1. rewrite <- Hfp, <- Htxt, <- Hcaps, <- H10.
    destruct w0. fields. rewrite panel_publications_app, Hpub, app_nil_r.
    repeat split. }
  destruct F as (F1 & F2 & F3 & F4 & F5 & F6).
  assert (Hne : coverStatus raw <> prevCoverStatus w1).
  { rewrite F4, Hcover. unfold closedPosition, openPosition.
    destruct closed, (isFP2 w); discriminate. }
  assert (Hc1 : coverStatus raw =
                (if closed then closedPosition w1 else openPosition w1)).
  { unfold closedPosition, openPosition in *. now rewrite F1. }
  destruct (coverBlock_arrived closed (motorStatus raw) (coverStatus raw) w1
              Hne Hmotor Hc1 F5) as (A1 & A2 & A3).
  destruct (applyStatus_spec raw w1) as (Hp & Hr & _).
  cbv zeta in *.
  unfold applyStatus. rewrite bind_eq.
  rewrite (proj2 (Z.eqb_neq _ _) Hmotor).
  rewrite (bind_eq (ret tt)). cbn [ret snd].
  destruct (later_blocks_frame (lightStatus raw) (motorStatus raw)
              (heaterTemperature raw) (heaterMode raw)
              (fst (coverBlock (motorStatus raw) (coverStatus raw) w1))
              (snd (coverBlock (motorStatus raw) (coverStatus raw) w1)))
    as (K1 & K2 & K3).
  rewrite K1, K2, K3, A1, A2, F3.
  split; [reflexivity|]. split; [reflexivity|].
  split.
  { destruct Hr as (_ & _ & _ & _ & Hcov).
    unfold applyStatus in Hcov. rewrite bind_eq in Hcov.
    rewrite (proj2 (Z.eqb_neq _ _) Hmotor) in Hcov.
    rewrite (bind_eq (ret tt)) in Hcov. cbn [ret snd] in Hcov.
    exact (Hcov Hmotor). }
  split.
  { intros Ht. apply A3. now rewrite F2. }
  unfold applyStatus in Hp. rewrite bind_eq in Hp.
  rewrite (proj2 (Z.eqb_neq _ _) Hmotor) in Hp.
  rewrite (bind_eq (ret tt)) in Hp. cbn [ret snd] in Hp.
  rewrite Hp, F6. unfold expectedPublications.
  assert (E : coverSettles raw w1 && coverAtEnd raw w1 && parkCapWaiting w1
              = true).
  { unfold coverSettles, coverAtEnd, parkCapWaiting.
    rewrite (proj2 (Z.eqb_neq _ _) Hne), (proj2 (Z.eqb_neq _ _) Hmotor), F5.
    cbn [negb andb IPState_eqb orb]. rewrite andb_true_r.
    unfold closedPosition, openPosition in Hc1. rewrite Hc1.
    destruct closed, (isFP2 w1); reflexivity. }
  rewrite E. cbn [app]. eexists. reflexivity.
Qed.
End Driver.

Arguments mkWorld {Dev}.
Arguments events {Dev} w.
Arguments dev {Dev} w.
Arguments HeaterModeS {Dev} w.
Arguments HeaterModeSP_s {Dev} w.

(** *** A scripted flap panel

    A device that answers the commands it receives with the responses of a
    script, one after the other, and fails when the script is used up; the
    scanner reads a number between parentheses. *)
Module Scripted.

Definition Panel := list (option string).

Definition exec (c : Cmd) (p : Panel) : option string * Panel :=
  match p with
  | [] => (None, [])
  | r :: rest => (r, rest)
  end.

Definition digit (c : Ascii.ascii) : option Z :=
  let n := Z.of_nat (Ascii.nat_of_ascii c) in
  if (48 <=? n) && (n <=? 57) then Some (n - 48) else None.

Fixpoint digits (acc : Z) (s : string) : Z :=
  match s with
  | String c rest =>
      match digit c with
      | Some d => digits (10 * acc + d) rest
      | None => acc
      end
  | EmptyString => acc
  end.

Definition number (s : string) : option Z :=
  match s with
  | String c _ =>
      match digit c with
      | Some _ => Some (digits 0 s)
      | None => None
      end
  | EmptyString => None
  end.

(** A stand-in for [sscanf(response, "(%d)", &x)]. *)
Definition scan (response : string) : option Z :=
  match response with
  | String "("%char (String "-"%char rest) => option_map Z.opp (number rest)
  | String "("%char rest => number rest
  | _ => None
  end.

Definition world (p : Panel) : World Panel :=
  mkWorld false 999 999 999 999 999 [""; ""; ""; ""]
    [mkSwitch "OFF" ISS_OFF; mkSwitch "ON" ISS_ON; mkSwitch "ON2" ISS_OFF]
    IPS_IDLE
    [mkSwitch "PARK" ISS_OFF; mkSwitch "UNPARK" ISS_OFF] IPS_IDLE
    [mkSwitch "FLAT_LIGHT_ON" ISS_OFF; mkSwitch "FLAT_LIGHT_OFF" ISS_ON]
    p [].

Definition getStatus := DeepSkyDadFP.getStatus Panel exec scan.
Definition ISNewSwitch_HeaterMode :=
  DeepSkyDadFP.ISNewSwitch_HeaterMode Panel exec stagedUpdate.

Definition junk : RawStatus := mkRaw 0 0 0 0 0.

(** The responses of one poll: motor, light, cover, temperature, mode. *)
Definition answers (motor light cover temperature mode : string) : Panel :=
  [Some motor; Some light; Some cover; Some temperature; Some mode].


(** The flap panel half of the counterexample to C3: between two polls only
    the light status changes, from 0 to 1, and the second poll publishes two
    properties, the light switch and the status text. *)
Lemma light_change_publishes_twice :
  let w := world (answers "(0)" "(0)" "(0)" "(20)" "(1)"
                  ++ answers "(0)" "(1)" "(0)" "(20)" "(1)") in
  let w1 := snd (getStatus junk w) in
  let w2 := snd (getStatus junk w1) in
  fst (getStatus junk w) = true /\
  fst (getStatus junk w1) = true /\
  publications (events w2) = publications (events w1) ++ [LightSP; StatusTP].
Proof. vm_compute. repeat split. Qed.

(** The panel answers a command given as text as it answers the others. *)
Definition execText (cmd : string) (p : Panel) : option string * Panel :=
  match p with
  | [] => (None, [])
  | r :: rest => (r, rest)
  end.

Definition ParkCap := DeepSkyDadFP.ParkCap Panel execText.
Definition readStatus := DeepSkyDadFP.readStatus Panel exec scan.

(** The motor runs and the cover is half way. *)
Lemma cover_reads_moving_while_the_motor_runs_witness :
  let w := world (answers "(1)" "(0)" "(135)" "(20)" "(0)") in
  coverText Panel (snd (getStatus junk w)) = Some "Moving" /\
  prevCoverStatus Panel (snd (getStatus junk w)) = 999.
Proof.
  cbv zeta.
  destruct (cover_reads_moving_while_the_motor_runs Panel exec scan junk
              (mkRaw 1 0 135 20 0)
              (world (answers "(1)" "(0)" "(135)" "(20)" "(0)"))
              eq_refl eq_refl)
    as (H1 & H2 & _).
  { discriminate. }
  split; [exact H1|exact H2].
Defined.

(** The cap is closed already, at 270, and is parked once more: the poll
    after it reports 270 again and settles the park-cap property. *)
Lemma moved_cap_is_settled_by_the_next_poll_witness :
  let w :=
    set_prevCoverStatus Panel 270
      (world ([Some "(OK)"; Some "(OK)"]
                ++ answers "(0)" "(0)" "(270)" "(20)" "(0)")) in
  let w1 := set_ParkCapSP_s Panel IPS_BUSY (snd (ParkCap w)) in
  fst (ParkCap w) = IPS_BUSY /\
  prevCoverStatus Panel w1 = 10 /\
  ParkCapSP_s Panel (snd (getStatus junk w1)) = IPS_OK /\
  ParkCapS Panel (snd (getStatus junk w1)) =
    [mkSwitch "PARK" ISS_ON; mkSwitch "UNPARK" ISS_OFF] /\
  coverText Panel (snd (getStatus junk w1)) = Some "Closed".
Proof.
  cbv zeta.
  destruct (moved_cap_is_settled_by_the_next_poll Panel exec scan execText
              true true junk (mkRaw 0 0 270 20 0)
              (set_prevCoverStatus Panel 270
                 (world ([Some "(OK)"; Some "(OK)"]
                           ++ answers "(0)" "(0)" "(270)" "(20)" "(0)")))
              eq_refl eq_refl)
    as (H1 & H2 & _ & H4 & _).
  { discriminate. }
  { reflexivity. }
  split; [reflexivity|]. split; [reflexivity|].
  split; [exact H1|]. split; [exact H2|]. apply H4. discriminate.
Defined.

(** The move command is answered with something else than "(OK)": the
    result is ALERT and the remembered cover status stays. *)
Lemma ParkCap_refused :
  let w := world [Some "(OK)"; Some "(ERR)"] in
  fst (ParkCap w) = IPS_ALERT /\
  prevCoverStatus Panel (snd (ParkCap w)) = 999 /\
  dev (snd (ParkCap w)) = [].
Proof. vm_compute. repeat split. Qed.

End Scripted.

End DeepSkyDadFP.

(** ** drivers/telescope/lx200fs2.cpp *)

Module LX200FS2.
Import Indi.
Local Open Scope drv_scope.

Section Driver.

(** C++ [double], the observer location and the horizontal to equatorial
    transform, as for the iEQ Pro. *)
Variable R : Type.
Variable Loc : Type.
Variable HorizontalToEquatorial : R * R -> Loc -> R -> R * R.

(** The state of the mount at the other end of the serial line, and the
    calls of lx200driver the modelled methods make; each returns a C [int]. *)
Variable Dev : Type.

Inductive Cmd :=
| setObjectRA (ra : R)
| setObjectDEC (dec : R)
| Slew.

Variable exec : Cmd -> Dev -> Z * Dev.

(** [IUUpdateSwitch] of indidriver.c, not among the files embedded here,
    taken as a parameter: the members of a switch property after a client
    request has been staged.  What it reports of a request it refuses is not
    part of the model. *)
Variable IUUpdateSwitch : list ISwitch -> SwitchRequest -> list ISwitch.

Inductive Property := EqNP | StopAfterParkSP.

(** What the outside can observe of a run, oldest first. *)
Inductive Event :=
| EvCmd (c : Cmd)             (* a command sent to the mount *)
| EvPublish (p : Property)    (* IDSetSwitch, apply() *)
| EvSlewError (code : Z).     (* LX200Telescope::slewError *)

(** The members of the [LX200FS2] object (its own and those inherited) that
    the methods below read or write, the mount, and the event log. *)
Record World := mkWorld {
  TrackState : TelescopeStatus;
  EqNP_s : IPState;
  targetRA : R;
  targetDEC : R;
  simulation : bool;              (* isSimulation() *)
  Axis1Park : R;                  (* GetAxis1Park(): park azimuth *)
  Axis2Park : R;                  (* GetAxis2Park(): park altitude *)
  m_Location : Loc;
  StopAfterParkS : list ISwitch;
  StopAfterParkSP_s : IPState;
  dev : Dev;
  events : list Event
}.

(** Assignments to the members. *)
Definition set_TrackState (v : TelescopeStatus) (w : World) : World :=
  match w with
  | mkWorld _ x1 x2 x3 x4 x5 x6 x7 x8 x9 x10 x11 =>
      mkWorld v x1 x2 x3 x4 x5 x6 x7 x8 x9 x10 x11
  end.

Definition set_EqNP_s (v : IPState) (w : World) : World :=
  match w with
  | mkWorld x0 _ x2 x3 x4 x5 x6 x7 x8 x9 x10 x11 =>
      mkWorld x0 v x2 x3 x4 x5 x6 x7 x8 x9 x10 x11
  end.

Definition set_targetRA (v : R) (w : World) : World :=
  match w with
  | mkWorld x0 x1 _ x3 x4 x5 x6 x7 x8 x9 x10 x11 =>
      mkWorld x0 x1 v x3 x4 x5 x6 x7 x8 x9 x10 x11
  end.

Definition set_targetDEC (v : R) (w : World) : World :=
  match w with
  | mkWorld x0 x1 x2 _ x4 x5 x6 x7 x8 x9 x10 x11 =>
      mkWorld x0 x1 x2 v x4 x5 x6 x7 x8 x9 x10 x11
  end.

Definition set_StopAfterParkS (v : list ISwitch) (w : World) : World :=
  match w with
  | mkWorld x0 x1 x2 x3 x4 x5 x6 x7 _ x9 x10 x11 =>
      mkWorld x0 x1 x2 x3 x4 x5 x6 x7 v x9 x10 x11
  end.

Definition set_StopAfterParkSP_s (v : IPState) (w : World) : World :=
  match w with
  | mkWorld x0 x1 x2 x3 x4 x5 x6 x7 x8 _ x10 x11 =>
      mkWorld x0 x1 x2 x3 x4 x5 x6 x7 x8 v x10 x11
  end.

Definition set_dev (v : Dev) (w : World) : World :=
  match w with
  | mkWorld x0 x1 x2 x3 x4 x5 x6 x7 x8 x9 _ x11 =>
      mkWorld x0 x1 x2 x3 x4 x5 x6 x7 x8 x9 v x11
  end.

Definition set_events (v : list Event) (w : World) : World :=
  match w with
  | mkWorld x0 x1 x2 x3 x4 x5 x6 x7 x8 x9 x10 _ =>
      mkWorld x0 x1 x2 x3 x4 x5 x6 x7 x8 x9 x10 v
  end.

Definition call (c : Cmd) : M World Z :=
  fun w => let (r, d) := exec c (dev w) in
           (r, set_events (events w ++ [EvCmd c]) (set_dev d w)).

Definition emit (e : Event) : M World unit :=
  modify (fun w => set_events (events w ++ [e]) w).

Definition publish (p : Property) : M World unit := emit (EvPublish p).

(** [LX200FS2::initProperties], lines 46-49: the members of the
    stop-after-park switch, an at-most-one property. *)
Definition initial_StopAfterParkS : list ISwitch :=
  [mkSwitch "ON" ISS_OFF; mkSwitch "OFF" ISS_ON].

(** The stop-after-park branch of [LX200FS2::ISNewSwitch], lines 124-145.
    [None] is undefined behaviour: [strcmp] on the null pointer that
    [IUFindOnSwitchName] gives for a request with no member on, or the read
    of [StopAfterParkS[currentIndex]] when no member is active and
    [currentIndex] is -1. *)
Definition ISNewSwitch_StopAfterPark (req : SwitchRequest) (w : World)
  : option (bool * World) :=
  match IUFindOnSwitchName req,
        switchAt (StopAfterParkS w) (IUFindOnSwitchIndex (StopAfterParkS w))
  with
  | Some actionName, Some current =>
      if String.eqb actionName (sw_name current) then
        Some (true,
              snd (publish StopAfterParkSP (set_StopAfterParkSP_s IPS_IDLE w)))
      else
        let w1 := set_StopAfterParkS (IUUpdateSwitch (StopAfterParkS w) req) w in
        match switchAt (StopAfterParkS w1)
                (IUFindOnSwitchIndex (StopAfterParkS w1)) with
        | Some _ =>
            Some (true,
                  snd (publish StopAfterParkSP
                         (set_StopAfterParkSP_s IPS_OK w1)))
        | None => None
        end
  | _, _ => None
  end.

(** [LX200FS2::Goto], lines 379-414. *)
Definition Goto (r d : R) : M World bool :=
  modify (set_targetRA r) ;;;
  modify (set_targetDEC d) ;;;
  sim <- gets simulation ;;
  failed <-
    (if sim then ret false
     else
       rcRA <- call (setObjectRA r) ;;
       rcDE <- (if rcRA <? 0 then ret rcRA else call (setObjectDEC d)) ;;
       if (rcRA <? 0) || (rcDE <? 0) then
         modify (set_EqNP_s IPS_ALERT) ;;;
         publish EqNP ;;;
         ret true
       else
         rcSlew <- call Slew ;;
         if negb (rcSlew =? 0) then
           modify (set_EqNP_s IPS_ALERT) ;;;
           publish EqNP ;;;
           emit (EvSlewError 1) ;;;
           ret true
         else ret false) ;;
  if failed then ret false
  else
    modify (set_TrackState SCOPE_SLEWING) ;;;
    modify (set_EqNP_s IPS_BUSY) ;;;
    ret true.

(** [LX200FS2::Park], lines 178-206; [jd] is [ln_get_julian_from_sys()]. *)
Definition Park (jd : R) : M World bool :=
  parkAz <- gets Axis1Park ;;
  parkAlt <- gets Axis2Park ;;
  loc <- gets m_Location ;;
  let equatorialCoords := HorizontalToEquatorial (parkAz, parkAlt) loc jd in
  ok <- Goto (fst equatorialCoords) (snd equatorialCoords) ;;
  if ok then
    modify (set_TrackState SCOPE_PARKING) ;;;
    ret true
  else ret false.

(** *** Running the model *)

Lemma driver_call_eq (c : Cmd) (w : World) :
  call c w =
  (fst (exec c (dev w)),
   set_events (events w ++ [EvCmd c]) (set_dev (snd (exec c (dev w))) w)).
Proof. unfold call. destruct (exec c (dev w)); reflexivity. Qed.

Ltac fields :=
  cbn [TrackState EqNP_s targetRA targetDEC simulation Axis1Park Axis2Park
       m_Location StopAfterParkS StopAfterParkSP_s dev events
       set_TrackState set_EqNP_s set_targetRA set_targetDEC
       set_StopAfterParkS set_StopAfterParkSP_s set_dev set_events] in *.

Ltac run :=
  repeat (rewrite ?bind_eq, ?driver_call_eq;
          cbn [gets modify ret emit publish fst snd]; fields).

(** Re-selecting the member of the stop-after-park switch that is active:
    the state becomes IDLE, the property is published, the members are left
    alone and nothing is sent to the mount. *)
Lemma StopAfterPark_same_selection
    (req : SwitchRequest) (w : World) (name : string) (current : ISwitch) :
  IUFindOnSwitchName req = Some name ->
  switchAt (StopAfterParkS w) (IUFindOnSwitchIndex (StopAfterParkS w))
    = Some current ->
  sw_name current = name ->
  exists w',
    ISNewSwitch_StopAfterPark req w = Some (true, w') /\
    StopAfterParkSP_s w' = IPS_IDLE /\
    StopAfterParkS w' = StopAfterParkS w /\
    events w' = events w ++ [EvPublish StopAfterParkSP] /\
    dev w' = dev w.
Proof.
  intros Hreq Hcur Hname. unfold ISNewSwitch_StopAfterPark.
  rewrite Hreq, Hcur, Hname, String.eqb_refl.
  eexists. split; [reflexivity|]. destruct w. run. repeat split.
Qed.

(** A Goto of the FS-2 that fails leaves the session state as it was. *)
Lemma Goto_failed_keeps_state (r d : R) (w : World) :
  fst (Goto r d w) = false -> TrackState (snd (Goto r d w)) = TrackState w.
Proof.
  destruct w. unfold Goto. run.
  destruct simulation0; run; [discriminate|].
  destruct (fst (exec (setObjectRA r) _) <? 0); run; [reflexivity|].
  cbn [orb]. destruct (fst (exec (setObjectDEC d) _) <? 0); run;
    [reflexivity|].
  destruct (fst (exec Slew _) =? 0); cbn [negb]; run;
    [discriminate|reflexivity].
Qed.

(** Park on the FS-2 is a Goto to the converted park position: it returns
    what the Goto returns and sets the session state to PARKING exactly when
    the Goto succeeds. *)
Lemma Park_by_goto (jd : R) (w : World) :
  let pos :=
    HorizontalToEquatorial (Axis1Park w, Axis2Park w) (m_Location w) jd in
  let g := Goto (fst pos) (snd pos) w in
  let p := Park jd w in
  fst p = fst g /\
  events (snd p) = events (snd g) /\
  TrackState (snd p) = (if fst g then SCOPE_PARKING else TrackState w).
Proof.
  cbv zeta. unfold Park. rewrite !bind_eq. cbn [gets fst snd].
  pose proof (Goto_failed_keeps_state
                (fst (HorizontalToEquatorial (Axis1Park w, Axis2Park w) (m_Location w) jd))
                (snd (HorizontalToEquatorial (Axis1Park w, Axis2Park w) (m_Location w) jd)) w)
    as Hfail.
  destruct (Goto _ _ w) as [[] w1]; cbn [fst snd] in *.
  - destruct w1; run; repeat split.
  - run. repeat split. now apply Hfail.
Qed.

End Driver.

Arguments mkWorld {R Loc Dev}.
Arguments StopAfterParkSP_s {R Loc Dev} w.
Arguments StopAfterParkS {R Loc Dev} w.
Arguments events {R Loc Dev} w.
Arguments dev {R Loc Dev} w.
Arguments TrackState {R Loc Dev} w.
Arguments EvPublish {R} p.

(** C5, counterexample: the stop-after-park switch after [initProperties]
    has its member "OFF" active; a request that selects "OFF" again is
    answered with the state IDLE, not OK. *)
Lemma StopAfterPark_same_selection_is_IDLE :
  let w := mkWorld SCOPE_IDLE IPS_IDLE 0 0 false 0 0 tt
             initial_StopAfterParkS IPS_OK tt [] in
  IUFindOnSwitchName [("OFF"%string, ISS_ON)] = Some "OFF"%string /\
  IUFindOnSwitchIndex (StopAfterParkS w) = 1 /\
  option_map (fun r => (fst r, StopAfterParkSP_s (snd r), events (snd r)))
    (ISNewSwitch_StopAfterPark Z unit unit stagedUpdate [("OFF"%string, ISS_ON)] w)
  = Some (true, IPS_IDLE, [EvPublish StopAfterParkSP]) /\
  option_map (fun r => StopAfterParkSP_s (snd r))
    (ISNewSwitch_StopAfterPark Z unit unit stagedUpdate [("OFF"%string, ISS_ON)] w)
  <> Some IPS_OK.
Proof. vm_compute. repeat split. discriminate. Qed.

(** The Goto of the FS-2 has no test of the session state either: in
    simulation, with the state PARKED, it returns true and moves the state
    to SLEWING. *)
Lemma Goto_of_parked_mount_slews :
  let w := mkWorld SCOPE_PARKED IPS_IDLE 0 0 true 0 0 tt
             initial_StopAfterParkS IPS_IDLE tt [] in
  let exec := fun (c : Cmd Z) (d : unit) => (0, d) in
  fst (Goto Z unit unit exec 10 20 w) = true /\
  TrackState (snd (Goto Z unit unit exec 10 20 w)) = SCOPE_SLEWING.
Proof. vm_compute. split; reflexivity. Qed.


(** *** Stopping the motors of a parked mount

    The FS-2 has no command that stops tracking.  With Stop after Park on,
    the driver stops the motors of a parked mount in three polls: it selects
    the centering slew rate, aborts, and starts a move to the east; UnPark
    ends that move and the next poll selects the slew rate of before. *)
Module Tracking.

(** The states of that sequence (lx200fs2.h, not among the files embedded
    here; the enumerators are the ones the methods name). *)
Inductive ParkedStatus_t :=
| PARKED_NOTPARKED | PARKED_NEEDABORT | PARKED_NEEDSTOP | PARKED_STOPPED
| UNPARKED_NEEDSLEW.

(** [enum TelescopeSlewRate] of inditelescope.h has the four enumerators
    SLEW_GUIDE, SLEW_CENTERING, SLEW_FIND and SLEW_MAX. *)
Definition SLEW_CENTERING : Z := 1.

Section Driver.

Variable R : Type.
Variable Loc : Type.
Variable HorizontalToEquatorial : R * R -> Loc -> R -> R * R.

(** The mount, and the calls of lx200driver that [Sync] makes; each returns
    a C [int]. *)
Variable Dev : Type.

Inductive Cmd :=
| setObjectRA (ra : R)
| setObjectDEC (dec : R)
| Sync_.

Variable exec : Cmd -> Dev -> Z * Dev.

(** What the object inherits from [LX200Generic] and [INDI::Telescope]: the
    members these methods read or write, the mount, and the rest, which only
    the inherited methods know. *)
Variable Rest : Type.

Record Inherited := mkInherited {
  TrackState : TelescopeStatus;
  EqNP_s : IPState;
  currentRA : R;
  currentDEC : R;
  connected : bool;                (* isConnected() *)
  simulation : bool;               (* isSimulation() *)
  SlewRateIndex : Z;               (* SlewRateSP.findOnSwitchIndex() *)
  Axis1Park : R;
  Axis2Park : R;
  m_Location : Loc;
  dev : Dev;
  rest : Rest
}.

(** The inherited methods these methods call (lx200generic.cpp,
    lx200telescope.cpp and inditelescope.cpp are not among the files
    embedded here), taken as parameters.  Code of a base class cannot name
    the members [LX200FS2] adds, so each of them is a function on the
    inherited part. *)
Variable LX200Generic_ReadScopeStatus : Inherited -> bool * Inherited.
Variable updateSlewRate : Z -> Inherited -> Inherited.
Variable Abort : Inherited -> Inherited.
Variable MoveWE :
  INDI_DIR_WE -> TelescopeMotionCommand -> Inherited -> Inherited.
Variable SetParked : bool -> Inherited -> Inherited.
Variable EqNP_apply : Inherited -> Inherited.
Variable NewRaDec : R -> R -> Inherited -> Inherited.

(** The members [LX200FS2] adds, and the inherited part. *)
Record World := mkWorld {
  ParkedStatus : ParkedStatus_t;
  savedSlewRateIndex : Z;
  StopAfterParkS0 : ISState;       (* StopAfterParkS[0].s *)
  inherited : Inherited
}.

Definition set_inherited (i : Inherited) (w : World) : World :=
  mkWorld (ParkedStatus w) (savedSlewRateIndex w) (StopAfterParkS0 w) i.

Definition set_ParkedStatus (s : ParkedStatus_t) (w : World) : World :=
  mkWorld s (savedSlewRateIndex w) (StopAfterParkS0 w) (inherited w).

Definition is_NOTPARKED (s : ParkedStatus_t) : bool :=
  match s with PARKED_NOTPARKED => true | _ => false end.
Definition is_NEEDABORT (s : ParkedStatus_t) : bool :=
  match s with PARKED_NEEDABORT => true | _ => false end.
Definition is_NEEDSTOP (s : ParkedStatus_t) : bool :=
  match s with PARKED_NEEDSTOP => true | _ => false end.
Definition is_STOPPED (s : ParkedStatus_t) : bool :=
  match s with PARKED_STOPPED => true | _ => false end.
Definition is_NEEDSLEW (s : ParkedStatus_t) : bool :=
  match s with UNPARKED_NEEDSLEW => true | _ => false end.

(** [LX200FS2::TrackingStop], lines 208-217.  [None] is undefined
    behaviour: the cast of an index that is no enumerator of
    [TelescopeSlewRate]. *)
Definition TrackingStop (w : World) : option World :=
  if negb (is_NOTPARKED (ParkedStatus w)) then Some w
  else
    let index := SlewRateIndex (inherited w) in
    if (0 <=? index) && (index <=? 3) then
      Some (mkWorld PARKED_NEEDABORT index (StopAfterParkS0 w)
              (updateSlewRate SLEW_CENTERING (inherited w)))
    else None.

(** [LX200FS2::TrackingStop_Abort], lines 219-225. *)
Definition TrackingStop_Abort (w : World) : World :=
  if negb (is_NEEDABORT (ParkedStatus w)) then w
  else set_ParkedStatus PARKED_NEEDSTOP (set_inherited (Abort (inherited w)) w).

(** [LX200FS2::TrackingStop_AllStop], lines 227-233. *)
Definition TrackingStop_AllStop (w : World) : World :=
  if negb (is_NEEDSTOP (ParkedStatus w)) then w
  else
    set_ParkedStatus PARKED_STOPPED
      (set_inherited (MoveWE DIRECTION_EAST MOTION_START (inherited w)) w).

(** [LX200FS2::TrackingStart], lines 235-242. *)
Definition TrackingStart (w : World) : World :=
  if negb (is_STOPPED (ParkedStatus w)) then w
  else
    set_ParkedStatus UNPARKED_NEEDSLEW
      (set_inherited (MoveWE DIRECTION_EAST MOTION_STOP (inherited w)) w).

(** [LX200FS2::TrackingStart_RestoreSlewRate], lines 244-251. *)
Definition TrackingStart_RestoreSlewRate (w : World) : World :=
  if negb (is_NEEDSLEW (ParkedStatus w)) then w
  else
    set_ParkedStatus PARKED_NOTPARKED
      (set_inherited (updateSlewRate (savedSlewRateIndex w) (inherited w)) w).

(** [LX200FS2::ReadScopeStatus], lines 253-310. *)
Definition ReadScopeStatus (w : World) : option (bool * World) :=
  let retval := fst (LX200Generic_ReadScopeStatus (inherited w)) in
  let w1 := set_inherited (snd (LX200Generic_ReadScopeStatus (inherited w))) w in
  if retval && ISState_eqb (StopAfterParkS0 w1) ISS_ON
     && connected (inherited w1) && negb (simulation (inherited w1))
  then
    match TrackState (inherited w1) with
    | SCOPE_PARKED =>
        match ParkedStatus w1 with
        | PARKED_NOTPARKED =>
            match TrackingStop w1 with
            | Some w2 => Some (true, w2)
            | None => None
            end
        | PARKED_NEEDABORT => Some (true, TrackingStop_Abort w1)
        | PARKED_NEEDSTOP => Some (true, TrackingStop_AllStop w1)
        | _ => Some (true, w1)
        end
    | SCOPE_IDLE =>
        match ParkedStatus w1 with
        | UNPARKED_NEEDSLEW => Some (true, TrackingStart_RestoreSlewRate w1)
        | _ => Some (true, w1)
        end
    | _ => Some (true, w1)
    end
  else Some (retval, w1).

Definition call (c : Cmd) (i : Inherited) : Z * Inherited :=
  (fst (exec c (dev i)),
   mkInherited (TrackState i) (EqNP_s i) (currentRA i) (currentDEC i)
     (connected i) (simulation i) (SlewRateIndex i) (Axis1Park i)
     (Axis2Park i) (m_Location i) (snd (exec c (dev i))) (rest i)).

Definition set_EqNP_s (s : IPState) (i : Inherited) : Inherited :=
  mkInherited (TrackState i) s (currentRA i) (currentDEC i) (connected i)
    (simulation i) (SlewRateIndex i) (Axis1Park i) (Axis2Park i)
    (m_Location i) (dev i) (rest i).

Definition set_current (ra dec : R) (i : Inherited) : Inherited :=
  mkInherited (TrackState i) (EqNP_s i) ra dec (connected i) (simulation i)
    (SlewRateIndex i) (Axis1Park i) (Axis2Park i) (m_Location i) (dev i)
    (rest i).

(** [LX200FS2::Sync], lines 416-445, on the inherited part, which is all it
    touches. *)
Definition Sync (ra dec : R) (i : Inherited) : bool * Inherited :=
  let done (i' : Inherited) :=
    (true, NewRaDec ra dec (set_EqNP_s IPS_OK (set_current ra dec i'))) in
  if simulation i then done i
  else
    let i1 := snd (call (setObjectRA ra) i) in
    if fst (call (setObjectRA ra) i) <? 0
    then (false, EqNP_apply (set_EqNP_s IPS_ALERT i1))
    else
      let i2 := snd (call (setObjectDEC dec) i1) in
      if fst (call (setObjectDEC dec) i1) <? 0
      then (false, EqNP_apply (set_EqNP_s IPS_ALERT i2))
      else
        let i3 := snd (call Sync_ i2) in
        if fst (call Sync_ i2) <? 0
        then (false, EqNP_apply (set_EqNP_s IPS_ALERT i3))
        else done i3.

(** [LX200FS2::UnPark], lines 312-342; [jd] is [ln_get_julian_from_sys()]. *)
Definition UnPark (jd : R) (w : World) : bool * World :=
  let i := inherited w in
  let equatorialCoords :=
    HorizontalToEquatorial (Axis1Park i, Axis2Park i) (m_Location i) jd in
  let synced := Sync (fst equatorialCoords) (snd equatorialCoords) i in
  if fst synced then
    let w1 := set_inherited (SetParked false (snd synced)) w in
    (true,
     if ISState_eqb (StopAfterParkS0 w1) ISS_ON then TrackingStart w1 else w1)
  else (false, set_inherited (snd synced) w).

(** [n] polls in a row. *)
Fixpoint polls (n : nat) (w : World) : option World :=
  match n with
  | O => Some w
  | S n' =>
      match ReadScopeStatus w with
      | Some (_, w') => polls n' w'
      | None => None
      end
  end.

(** The inherited poll succeeds on [i] and leaves a connected mount, out of
    simulation, in the state [s]. *)
Definition pollSees (s : TelescopeStatus) (i : Inherited) : bool :=
  fst (LX200Generic_ReadScopeStatus i)
  && connected (snd (LX200Generic_ReadScopeStatus i))
  && negb (simulation (snd (LX200Generic_ReadScopeStatus i)))
  && TelescopeStatus_eqb (TrackState (snd (LX200Generic_ReadScopeStatus i))) s.

Definition polled (i : Inherited) : Inherited :=
  snd (LX200Generic_ReadScopeStatus i).

Lemma pollSees_fields (s : TelescopeStatus) (i : Inherited) :
  pollSees s i = true ->
  fst (LX200Generic_ReadScopeStatus i) = true /\
  connected (polled i) = true /\
  simulation (polled i) = false /\
  TrackState (polled i) = s.
Proof.
  unfold pollSees, polled. rewrite !andb_true_iff, negb_true_iff.
  intros [[[H1 H2] H3] H4]. repeat split; try assumption.
  destruct (TrackState (snd (LX200Generic_ReadScopeStatus i))), s;
    solve [reflexivity | discriminate].
Qed.

(** What one poll does when Stop after Park is on and the inherited poll
    sees the mount in the state [s]. *)
Lemma ReadScopeStatus_active (s : TelescopeStatus) (w : World) :
  StopAfterParkS0 w = ISS_ON ->
  pollSees s (inherited w) = true ->
  ReadScopeStatus w =
  match s with
  | SCOPE_PARKED =>
      match ParkedStatus w with
      | PARKED_NOTPARKED =>
          match TrackingStop (set_inherited (polled (inherited w)) w) with
          | Some w2 => Some (true, w2)
          | None => None
          end
      | PARKED_NEEDABORT =>
          Some (true, TrackingStop_Abort (set_inherited (polled (inherited w)) w))
      | PARKED_NEEDSTOP =>
          Some (true, TrackingStop_AllStop (set_inherited (polled (inherited w)) w))
      | _ => Some (true, set_inherited (polled (inherited w)) w)
      end
  | SCOPE_IDLE =>
      match ParkedStatus w with
      | UNPARKED_NEEDSLEW =>
          Some (true,
                TrackingStart_RestoreSlewRate
                  (set_inherited (polled (inherited w)) w))
      | _ => Some (true, set_inherited (polled (inherited w)) w)
      end
  | _ => Some (true, set_inherited (polled (inherited w)) w)
  end.
Proof.
  intros Hon Hsees.
  destruct (pollSees_fields _ _ Hsees) as (H1 & H2 & H3 & H4).
  unfold polled in *. unfold ReadScopeStatus.
  destruct w as [ps saved stop i]. cbn in *. subst stop.
  rewrite H1, H2, H3, H4. cbn. reflexivity.
Qed.

(** X25: with Stop after Park on, three polls that see the mount parked stop
    its motors: the first keeps the selected slew rate and selects the
    centering rate, the second aborts, the third starts a move to the east;
    each request goes out after the inherited poll of its turn. *)
Theorem motors_stop_in_three_polls (w : World) :
  let i1 := polled (inherited w) in
  let i2 := polled (updateSlewRate SLEW_CENTERING i1) in
  let i3 := polled (Abort i2) in
  StopAfterParkS0 w = ISS_ON ->
  ParkedStatus w = PARKED_NOTPARKED ->
  0 <= SlewRateIndex i1 <= 3 ->
  pollSees SCOPE_PARKED (inherited w) = true ->
  pollSees SCOPE_PARKED (updateSlewRate SLEW_CENTERING i1) = true ->
  pollSees SCOPE_PARKED (Abort i2) = true ->
  polls 3 w =
  Some (mkWorld PARKED_STOPPED (SlewRateIndex i1) ISS_ON
          (MoveWE DIRECTION_EAST MOTION_START i3)).
Proof.
  intros i1 i2 i3 Hon Hps Hidx S1 S2 S3.
  destruct w as [ps saved stop i]. cbn in *. subst ps stop i1 i2 i3.
  rewrite (ReadScopeStatus_active SCOPE_PARKED) by first [reflexivity | assumption].
  unfold TrackingStop, set_inherited. cbn.
  replace ((0 <=? SlewRateIndex (polled i)) && (SlewRateIndex (polled i) <=? 3))
    with true
    by (symmetry; apply andb_true_iff; split; apply Z.leb_le; lia).
  rewrite (ReadScopeStatus_active SCOPE_PARKED) by first [reflexivity | assumption].
  unfold TrackingStop_Abort, set_ParkedStatus, set_inherited. cbn.
  rewrite (ReadScopeStatus_active SCOPE_PARKED) by first [reflexivity | assumption].
  reflexivity.
Qed.

(** X26: unparking a mount whose motors were stopped ends the move to the
    east, and the first poll that then sees the mount idle selects the slew
    rate that was kept when the motors were stopped. *)
Theorem UnPark_restores_the_slew_rate (jd : R) (w : World) :
  let i := inherited w in
  let eq := HorizontalToEquatorial (Axis1Park i, Axis2Park i) (m_Location i) jd in
  let synced := snd (Sync (fst eq) (snd eq) i) in
  let moving := MoveWE DIRECTION_EAST MOTION_STOP (SetParked false synced) in
  StopAfterParkS0 w = ISS_ON ->
  ParkedStatus w = PARKED_STOPPED ->
  fst (Sync (fst eq) (snd eq) i) = true ->
  pollSees SCOPE_IDLE moving = true ->
  UnPark jd w =
    (true, mkWorld UNPARKED_NEEDSLEW (savedSlewRateIndex w) ISS_ON moving) /\
  ReadScopeStatus (snd (UnPark jd w)) =
    Some (true,
          mkWorld PARKED_NOTPARKED (savedSlewRateIndex w) ISS_ON
            (updateSlewRate (savedSlewRateIndex w) (polled moving))).
Proof.
  intros i eq synced moving Hon Hps Hsync Hsees.
  assert (E : UnPark jd w =
    (true, mkWorld UNPARKED_NEEDSLEW (savedSlewRateIndex w) ISS_ON moving)).
  { unfold UnPark. fold i. fold eq. rewrite Hsync.
    destruct w as [ps saved stop i0]. cbn in *. subst ps stop. cbn.
    reflexivity. }
  split; [exact E|]. rewrite E. cbn [snd].
  rewrite (ReadScopeStatus_active SCOPE_IDLE) by first [reflexivity | assumption].
  reflexivity.
Qed.

(** X27: a mount unparked before the third poll of the stopping sequence
    keeps the state of the sequence, and no later poll that sees it out of
    park does more than the inherited poll: the slew rate kept by the first
    poll is not selected again. *)
Theorem UnPark_during_the_stopping_sequence (jd : R) (w : World) :
  ParkedStatus w = PARKED_NEEDABORT \/ ParkedStatus w = PARKED_NEEDSTOP ->
  ParkedStatus (snd (UnPark jd w)) = ParkedStatus w /\
  savedSlewRateIndex (snd (UnPark jd w)) = savedSlewRateIndex w /\
  forall w' : World,
    ParkedStatus w' = ParkedStatus w ->
    TrackState (polled (inherited w')) <> SCOPE_PARKED ->
    exists retval,
      ReadScopeStatus w' =
      Some (retval, set_inherited (polled (inherited w')) w').
Proof.
  intros Hps. destruct w as [ps saved stop i]. cbn in Hps.
  split; [|split].
  - unfold UnPark.
    destruct (fst (Sync _ _ _)); [|reflexivity].
    cbn [snd]. destruct (ISState_eqb _ _); [|reflexivity].
    destruct Hps as [-> | ->]; reflexivity.
  - unfold UnPark.
    destruct (fst (Sync _ _ _)); [|reflexivity].
    cbn [snd]. destruct (ISState_eqb _ _); [|reflexivity].
    destruct Hps as [-> | ->]; reflexivity.
  - intros w' Hsame Hout. cbn in Hsame.
    destruct w' as [ps' saved' stop' i']. cbn in Hsame, Hout. subst ps'.
    unfold ReadScopeStatus. cbn. fold (polled i').
    destruct (_ && _ && _ && _); [|eexists; reflexivity].
    destruct (TrackState (polled i')) eqn:Ets; try (eexists; reflexivity).
    + destruct Hps as [-> | ->]; eexists; reflexivity.
    + exfalso. apply Hout. reflexivity.
Qed.

End Driver.

Arguments mkInherited {R Loc Dev Rest}.
Arguments TrackState {R Loc Dev Rest} i.
Arguments EqNP_s {R Loc Dev Rest} i.
Arguments currentRA {R Loc Dev Rest} i.
Arguments currentDEC {R Loc Dev Rest} i.
Arguments connected {R Loc Dev Rest} i.
Arguments simulation {R Loc Dev Rest} i.
Arguments SlewRateIndex {R Loc Dev Rest} i.
Arguments Axis1Park {R Loc Dev Rest} i.
Arguments Axis2Park {R Loc Dev Rest} i.
Arguments m_Location {R Loc Dev Rest} i.
Arguments dev {R Loc Dev Rest} i.
Arguments rest {R Loc Dev Rest} i.
Arguments mkWorld {R Loc Dev Rest}.
Arguments ParkedStatus {R Loc Dev Rest} w.
Arguments savedSlewRateIndex {R Loc Dev Rest} w.
Arguments inherited {R Loc Dev Rest} w.
Arguments setObjectRA {R} ra.
Arguments setObjectDEC {R} dec.
Arguments Sync_ {R}.

(** A mount that takes every command, under inherited methods that keep a
    list of the requests made to them. *)
Module Scripted.

Definition Mount : Type := list (Cmd Z).
Definition exec (c : Cmd Z) (d : Mount) : Z * Mount := (0, (d ++ [c])%list).

Inductive Request :=
| RequestSlewRate (index : Z)
| RequestAbort
| RequestMoveWE (dir : INDI_DIR_WE) (command : TelescopeMotionCommand).

Definition Base : Type := Inherited Z unit Mount (list Request).

Definition requested (r : Request) (i : Base) : Base :=
  mkInherited (TrackState i) (EqNP_s i) (currentRA i) (currentDEC i)
    (connected i) (simulation i) (SlewRateIndex i) (Axis1Park i)
    (Axis2Park i) (m_Location i) (dev i) (rest i ++ [r])%list.

Definition poll (i : Base) : bool * Base := (true, i).

Definition updateSlewRate (index : Z) (i : Base) : Base :=
  requested (RequestSlewRate index)
    (mkInherited (TrackState i) (EqNP_s i) (currentRA i) (currentDEC i)
       (connected i) (simulation i) index (Axis1Park i) (Axis2Park i)
       (m_Location i) (dev i) (rest i)).

Definition Abort : Base -> Base := requested RequestAbort.

Definition MoveWE (dir : INDI_DIR_WE) (command : TelescopeMotionCommand) :
  Base -> Base := requested (RequestMoveWE dir command).

Definition SetParked (parked : bool) (i : Base) : Base :=
  mkInherited (if parked then SCOPE_PARKED else SCOPE_IDLE) (EqNP_s i)
    (currentRA i) (currentDEC i) (connected i) (simulation i)
    (SlewRateIndex i) (Axis1Park i) (Axis2Park i) (m_Location i) (dev i)
    (rest i).

Definition EqNP_apply (i : Base) : Base := i.
Definition NewRaDec (ra dec : Z) (i : Base) : Base := i.

Definition HorizontalToEquatorial (p : Z * Z) (l : unit) (jd : Z) : Z * Z := p.

Definition parked (requests : list Request) : Base :=
  mkInherited SCOPE_PARKED IPS_OK 0 0 true false 2 180 45 tt [] requests.

Definition ReadScopeStatus :=
  ReadScopeStatus _ _ _ _ poll updateSlewRate Abort MoveWE.
Definition polls := polls _ _ _ _ poll updateSlewRate Abort MoveWE.
Definition UnPark :=
  UnPark _ _ HorizontalToEquatorial _ exec _ MoveWE SetParked EqNP_apply
    NewRaDec.

Lemma motors_stop_in_three_polls_witness :
  polls 3 (mkWorld PARKED_NOTPARKED 0 ISS_ON (parked [])) =
  Some (mkWorld PARKED_STOPPED 2 ISS_ON
          (mkInherited SCOPE_PARKED IPS_OK 0 0 true false 1 180 45 tt []
             [RequestSlewRate 1; RequestAbort;
              RequestMoveWE DIRECTION_EAST MOTION_START])).
Proof.
  apply (motors_stop_in_three_polls _ _ _ _ poll updateSlewRate Abort MoveWE
           (mkWorld PARKED_NOTPARKED 0 ISS_ON (parked [])));
    first [reflexivity | cbn; lia].
Defined.

Definition stopped : World Z unit Mount (list Request) :=
  mkWorld PARKED_STOPPED 2 ISS_ON
    (mkInherited SCOPE_PARKED IPS_OK 0 0 true false 1 180 45 tt []
       [RequestSlewRate 1; RequestAbort;
        RequestMoveWE DIRECTION_EAST MOTION_START]).

Lemma UnPark_restores_the_slew_rate_witness :
  ReadScopeStatus (snd (UnPark 0 stopped)) =
  Some (true,
        mkWorld PARKED_NOTPARKED 2 ISS_ON
          (mkInherited SCOPE_IDLE IPS_OK 180 45 true false 2 180 45 tt
             [setObjectRA 180; setObjectDEC 45; Sync_]
             [RequestSlewRate 1; RequestAbort;
              RequestMoveWE DIRECTION_EAST MOTION_START;
              RequestMoveWE DIRECTION_EAST MOTION_STOP;
              RequestSlewRate 2])).
Proof.
  exact (proj2 (UnPark_restores_the_slew_rate _ _ HorizontalToEquatorial _
                  exec _ poll updateSlewRate Abort MoveWE SetParked
                  EqNP_apply NewRaDec
                  0 stopped eq_refl eq_refl eq_refl eq_refl)).
Defined.

Definition stopping : World Z unit Mount (list Request) :=
  mkWorld PARKED_NEEDABORT 2 ISS_ON
    (mkInherited SCOPE_PARKED IPS_OK 0 0 true false 1 180 45 tt []
       [RequestSlewRate 1]).

Lemma UnPark_during_the_stopping_sequence_witness :
  ParkedStatus (snd (UnPark 0 stopping)) = PARKED_NEEDABORT /\
  SlewRateIndex (inherited (snd (UnPark 0 stopping))) = 1 /\
  exists retval,
    ReadScopeStatus (snd (UnPark 0 stopping)) =
    Some (retval, snd (UnPark 0 stopping)).
Proof.
  destruct (UnPark_during_the_stopping_sequence _ _ HorizontalToEquatorial
              _ exec _ poll updateSlewRate Abort MoveWE SetParked EqNP_apply NewRaDec
              0 stopping (or_introl eq_refl)) as (H1 & _ & H3).
  split; [exact H1|]. split; [reflexivity|].
  exact (H3 (snd (UnPark 0 stopping)) eq_refl
            ltac:(cbn; discriminate)).
Defined.

End Scripted.

End Tracking.

End LX200FS2.

(** ** Across the drivers *)

Module Reconciliation.
Import Indi.

Section StatusPolls.

(** The flap panel and its scanner. *)
Variable Panel : Type.
Variable panel_exec : DeepSkyDadFP.Cmd -> Panel -> option string * Panel.
Variable sscanf_d : string -> option Z.

(** The mount of the iEQ Pro driver. *)
Variable R : Type.
Variable Rminus : R -> R -> R.
Variable Loc : Type.
Variable TRACKRATE_SIDEREAL : R.
Variable TELESCOPE_HAS_PIER_SIDE : Z.
Variable Mount : Type.
Variable mount_exec :
  forall c : IEQPro.Cmd R, Mount -> IEQPro.Resp R c * Mount.

Let panel_readStatus := DeepSkyDadFP.readStatus Panel panel_exec sscanf_d.
Let panel_getStatus := DeepSkyDadFP.getStatus Panel panel_exec sscanf_d.
Let mount_ReadScopeStatus :=
  IEQPro.ReadScopeStatus R Rminus Loc TRACKRATE_SIDEREAL
    TELESCOPE_HAS_PIER_SIDE Mount mount_exec.

(** C3 (as amended).  Flap panel, two consecutive answered polls: when the
    raw values are identical the second poll publishes nothing; when exactly
    one field changed, a heater mode change publishes the heater mode
    property once; a light change publishes the status text once, after the
    light switch when the new status is 0 or 1; a motor change publishes the
    status text once, after the park-cap switch at most when the motor was
    running before; a cover change publishes nothing while the motor runs,
    and otherwise the status text once, possibly after the park-cap switch;
    a temperature change publishes nothing.  iEQ Pro: every answered poll
    publishes the GPS, time source, hemisphere and track mode properties,
    whatever the values are. *)
Theorem status_poll_publications :
  (forall (junk1 junk2 raw1 raw2 : DeepSkyDadFP.RawStatus)
          (w : DeepSkyDadFP.World Panel),
     fst (panel_readStatus junk1 w) = Some raw1 ->
     let w1 := snd (panel_getStatus junk1 w) in
     fst (panel_readStatus junk2 w1) = Some raw2 ->
     let produced ps :=
       DeepSkyDadFP.publications
         (DeepSkyDadFP.events (snd (panel_getStatus junk2 w1))) =
       DeepSkyDadFP.publications (DeepSkyDadFP.events w1) ++ ps in
     (raw2 = raw1 -> produced []) /\
     (DeepSkyDadFP.onlyChanged DeepSkyDadFP.Mode raw1 raw2 ->
        produced [DeepSkyDadFP.HeaterModeSP]) /\
     (DeepSkyDadFP.onlyChanged DeepSkyDadFP.Light raw1 raw2 ->
        produced
          ((if (DeepSkyDadFP.lightStatus raw2 =? 0)
               || (DeepSkyDadFP.lightStatus raw2 =? 1)
            then [DeepSkyDadFP.LightSP] else [])
           ++ [DeepSkyDadFP.StatusTP])) /\
     (DeepSkyDadFP.onlyChanged DeepSkyDadFP.Motor raw1 raw2 ->
        (produced [DeepSkyDadFP.StatusTP] \/
         produced [DeepSkyDadFP.ParkCapSP; DeepSkyDadFP.StatusTP]) /\
        (DeepSkyDadFP.motorStatus raw1 <> 1 ->
         produced [DeepSkyDadFP.StatusTP])) /\
     (DeepSkyDadFP.onlyChanged DeepSkyDadFP.Cover raw1 raw2 ->
        if DeepSkyDadFP.motorStatus raw2 =? 1 then produced []
        else produced [DeepSkyDadFP.StatusTP] \/
             produced [DeepSkyDadFP.ParkCapSP; DeepSkyDadFP.StatusTP]) /\
     (DeepSkyDadFP.onlyChanged DeepSkyDadFP.Temperature raw1 raw2 ->
        produced [])) /\
  (forall (w : IEQPro.World R Loc Mount) (info : IEQPro.Info R),
     fst (mount_exec IEQPro.getStatus (IEQPro.dev w)) = Some info ->
     IEQPro.publications (IEQPro.events (snd (mount_ReadScopeStatus w))) =
     IEQPro.publications (IEQPro.events w)
       ++ [IEQPro.GPSStatusSP; IEQPro.TimeSourceSP; IEQPro.HemisphereSP;
           IEQPro.TrackModeSP]).
Proof.
  split.
  - intros junk1 junk2 raw1 raw2 w H1 w1 H2.
    exact (DeepSkyDadFP.poll_edge_detection Panel panel_exec sscanf_d
             junk1 junk2 raw1 raw2 w H1 H2).
  - intros w info Hi.
    exact (IEQPro.ReadScopeStatus_publishes_always R Rminus Loc
             TRACKRATE_SIDEREAL TELESCOPE_HAS_PIER_SIDE Mount mount_exec
             w info Hi).
Qed.

End StatusPolls.

Section ActiveSelection.

Variable Panel : Type.
Variable panel_exec : DeepSkyDadFP.Cmd -> Panel -> option string * Panel.
Variable R : Type.
Variable Loc : Type.
Variable Mount : Type.

(** [IUUpdateSwitch] of indidriver.c, a parameter of both drivers. *)
Variable IUUpdateSwitch : list ISwitch -> SwitchRequest -> list ISwitch.

Let panel_ISNewSwitch :=
  DeepSkyDadFP.ISNewSwitch_HeaterMode Panel panel_exec IUUpdateSwitch.
Let mount_ISNewSwitch :=
  LX200FS2.ISNewSwitch_StopAfterPark R Loc Mount IUUpdateSwitch.

(** C5 (as amended): re-issuing the active selection of a switch property
    short-circuits: the handler returns true, publishes the property once
    and sends nothing to the device.  The state it publishes is OK for the
    heater mode of the flap panel and IDLE for the stop-after-park switch of
    the FS-2. *)
Theorem active_selection_short_circuits :
  (forall (req : SwitchRequest) (w : DeepSkyDadFP.World Panel),
     IUFindOnSwitchIndex (IUUpdateSwitch (DeepSkyDadFP.HeaterModeS w) req)
       = IUFindOnSwitchIndex (DeepSkyDadFP.HeaterModeS w) ->
     exists w',
       panel_ISNewSwitch req w = Some (true, w') /\
       DeepSkyDadFP.HeaterModeSP_s w' = IPS_OK /\
       DeepSkyDadFP.events w' =
         DeepSkyDadFP.events w
           ++ [DeepSkyDadFP.EvPublish DeepSkyDadFP.HeaterModeSP] /\
       DeepSkyDadFP.dev w' = DeepSkyDadFP.dev w) /\
  (forall (req : SwitchRequest) (w : LX200FS2.World R Loc Mount)
          (name : string) (current : ISwitch),
     IUFindOnSwitchName req = Some name ->
     switchAt (LX200FS2.StopAfterParkS w)
       (IUFindOnSwitchIndex (LX200FS2.StopAfterParkS w)) = Some current ->
     sw_name current = name ->
     exists w',
       mount_ISNewSwitch req w = Some (true, w') /\
       LX200FS2.StopAfterParkSP_s w' = IPS_IDLE /\
       LX200FS2.StopAfterParkS w' = LX200FS2.StopAfterParkS w /\
       LX200FS2.events w' =
         LX200FS2.events w
           ++ [LX200FS2.EvPublish LX200FS2.StopAfterParkSP] /\
       LX200FS2.dev w' = LX200FS2.dev w).
Proof.
  split.
  - intros req w H.
    exact (DeepSkyDadFP.HeaterMode_same_selection Panel panel_exec
             IUUpdateSwitch req w H).
  - intros req w name current H1 H2 H3.
    exact (LX200FS2.StopAfterPark_same_selection R Loc Mount IUUpdateSwitch
             req w name current H1 H2 H3).
Qed.

End ActiveSelection.

(** C3, counterexample.  Flap panel: between two polls only the light status
    changes, from 0 to 1, and the second poll publishes two properties.
    iEQ Pro: two polls return the same status, and the second publishes four
    properties. *)
Lemma polls_publish_more_than_edges :
  (let w := DeepSkyDadFP.Scripted.world
              (DeepSkyDadFP.Scripted.answers "(0)" "(0)" "(0)" "(20)" "(1)"
               ++ DeepSkyDadFP.Scripted.answers "(0)" "(1)" "(0)" "(20)" "(1)") in
   let poll := DeepSkyDadFP.Scripted.getStatus DeepSkyDadFP.Scripted.junk in
   let w1 := snd (poll w) in
   let w2 := snd (poll w1) in
   fst (poll w) = true /\ fst (poll w1) = true /\
   DeepSkyDadFP.publications (DeepSkyDadFP.events w2) =
   DeepSkyDadFP.publications (DeepSkyDadFP.events w1)
     ++ [DeepSkyDadFP.LightSP; DeepSkyDadFP.StatusTP]) /\
  (let w := IEQPro.Scripted.world SCOPE_IDLE false
              (IEQPro.Scripted.mkMount
                 [Some IEQPro.ST_STOPPED; Some IEQPro.ST_STOPPED] [] true) in
   let w1 := snd (IEQPro.Scripted.ReadScopeStatus w) in
   let w2 := snd (IEQPro.Scripted.ReadScopeStatus w1) in
   fst (IEQPro.Scripted.exec IEQPro.getStatus (IEQPro.dev w))
     = fst (IEQPro.Scripted.exec IEQPro.getStatus (IEQPro.dev w1)) /\
   IEQPro.publications (IEQPro.events w2) =
   IEQPro.publications (IEQPro.events w1)
     ++ [IEQPro.GPSStatusSP; IEQPro.TimeSourceSP; IEQPro.HemisphereSP;
         IEQPro.TrackModeSP]).
Proof. vm_compute. repeat split. Qed.

(** C3, witness: the flap panel polled twice with the same values publishes
    nothing the second time, and a poll of the iEQ Pro publishes its four
    status properties. *)
Lemma status_poll_publications_witness :
  (let w := DeepSkyDadFP.Scripted.world
              (DeepSkyDadFP.Scripted.answers "(0)" "(1)" "(270)" "(20)" "(1)"
               ++ DeepSkyDadFP.Scripted.answers "(0)" "(1)" "(270)" "(20)" "(1)") in
   let poll := DeepSkyDadFP.Scripted.getStatus DeepSkyDadFP.Scripted.junk in
   let w1 := snd (poll w) in
   DeepSkyDadFP.publications (DeepSkyDadFP.events (snd (poll w1))) =
   DeepSkyDadFP.publications (DeepSkyDadFP.events w1) ++ []) /\
  (let w := IEQPro.Scripted.world SCOPE_IDLE false
              (IEQPro.Scripted.mkMount [Some IEQPro.ST_STOPPED] [] true) in
   IEQPro.publications
     (IEQPro.events (snd (IEQPro.Scripted.ReadScopeStatus w))) =
   [IEQPro.GPSStatusSP; IEQPro.TimeSourceSP; IEQPro.HemisphereSP;
    IEQPro.TrackModeSP]).
Proof.
  pose proof (status_poll_publications
                DeepSkyDadFP.Scripted.Panel DeepSkyDadFP.Scripted.exec
                DeepSkyDadFP.Scripted.scan
                Z Z.sub unit 15 64 IEQPro.Scripted.Mount IEQPro.Scripted.exec)
    as [Hpanel Hmount].
  split.
  - cbv zeta.
    refine (proj1 (Hpanel DeepSkyDadFP.Scripted.junk DeepSkyDadFP.Scripted.junk
             (DeepSkyDadFP.mkRaw 0 1 270 20 1)
             (DeepSkyDadFP.mkRaw 0 1 270 20 1)
             (DeepSkyDadFP.Scripted.world
                (DeepSkyDadFP.Scripted.answers "(0)" "(1)" "(270)" "(20)" "(1)"
                 ++ DeepSkyDadFP.Scripted.answers "(0)" "(1)" "(270)" "(20)" "(1)"))
             eq_refl eq_refl) eq_refl).
  - cbv zeta.
    apply (Hmount (IEQPro.Scripted.world SCOPE_IDLE false
                     (IEQPro.Scripted.mkMount [Some IEQPro.ST_STOPPED] [] true))
             (IEQPro.Scripted.info_of IEQPro.ST_STOPPED) eq_refl).
Defined.

(** C5, witness: the active heater mode "ON" of the flap panel and the active
    member "OFF" of the stop-after-park switch, each selected again. *)
Lemma active_selection_short_circuits_witness :
  (exists w',
     DeepSkyDadFP.Scripted.ISNewSwitch_HeaterMode [("ON"%string, ISS_ON)]
       (DeepSkyDadFP.Scripted.world []) = Some (true, w') /\
     DeepSkyDadFP.HeaterModeSP_s w' = IPS_OK /\
     DeepSkyDadFP.events w' =
       [DeepSkyDadFP.EvPublish DeepSkyDadFP.HeaterModeSP]) /\
  (exists w',
     LX200FS2.ISNewSwitch_StopAfterPark Z unit unit stagedUpdate
       [("OFF"%string, ISS_ON)]
       (LX200FS2.mkWorld SCOPE_IDLE IPS_IDLE 0 0 false 0 0 tt
          LX200FS2.initial_StopAfterParkS IPS_OK tt []) = Some (true, w') /\
     LX200FS2.StopAfterParkSP_s w' = IPS_IDLE /\
     LX200FS2.events w' = [LX200FS2.EvPublish LX200FS2.StopAfterParkSP]).
Proof.
  split.
  - destruct (proj1 (active_selection_short_circuits
                       DeepSkyDadFP.Scripted.Panel DeepSkyDadFP.Scripted.exec
                       Z unit unit stagedUpdate)
                [("ON"%string, ISS_ON)] (DeepSkyDadFP.Scripted.world [])
                eq_refl) as (w' & H1 & H2 & H3 & _).
    exists w'. repeat split; assumption.
  - destruct (proj2 (active_selection_short_circuits
                       DeepSkyDadFP.Scripted.Panel DeepSkyDadFP.Scripted.exec
                       Z unit unit stagedUpdate)
                [("OFF"%string, ISS_ON)]
                (LX200FS2.mkWorld SCOPE_IDLE IPS_IDLE 0 0 false 0 0 tt
                   LX200FS2.initial_StopAfterParkS IPS_OK tt [])
                "OFF"%string (mkSwitch "OFF" ISS_ON) eq_refl eq_refl eq_refl)
      as (w' & H1 & H2 & _ & H3 & _).
    exists w'. repeat split; assumption.
Defined.

End Reconciliation.

(** ** drivers/auxiliary/pegasus_flatmaster.cpp *)

Module PegasusFlatMaster.
Import Indi CLib.
Local Open Scope string_scope.
Local Open Scope Z_scope.
Local Open Scope list_scope.

(** What one exchange on the serial line comes to.  [tty_write] and
    [tty_read_section] are in indicom.c, not among the files embedded here:
    the write can fail, and the read stores the bytes that arrive, up to and
    including the stop character 0x0A, in the buffer it is given, whose size
    it is not told, or fails when the stop character does not arrive in
    time.  [Line s] is a read that succeeded, [s] being the bytes before the
    stop character. *)
Inductive Reply := WriteError | ReadError | Line (bytes : string).

Inductive Event :=
| EvWrite (line : string)     (* tty_write *)
| EvPublish.                  (* IDSetText(&FirmwareTP, nullptr) *)

Section Driver.

(** The panel at the other end of the serial line: what it answers to the
    bytes written to it. *)
Variable Dev : Type.
Variable exec : string -> Dev -> Reply * Dev.

(** The members of the [PegasusFlatMaster] object the methods below read or
    write, the panel, and the event log. *)
Record World := mkWorld {
  FirmwareT : string;            (* the text of FirmwareT[0] *)
  FirmwareTP_s : IPState;
  LightS_ON : ISState;           (* LightSP[FLAT_LIGHT_ON].getState() *)
  dev : Dev;
  events : list Event
}.

(** The last character of a text, if it has one. *)
Fixpoint last_char (s : string) : option ascii :=
  match s with
  | EmptyString => None
  | String c EmptyString => Some c
  | String _ t => last_char t
  end.

Fixpoint without_last (s : string) : string :=
  match s with
  | EmptyString => EmptyString
  | String _ EmptyString => EmptyString
  | String c t => String c (without_last t)
  end.

(** Lines 271-275 of [sendCommand] on a zeroed buffer of 16 bytes that has
    received [bytes] and the stop character: the stop character is replaced
    by NUL, and so is a carriage return before it.  [None] is undefined
    behaviour: more bytes than the buffer holds, or the read of [res[-1]]
    when the stop character came alone. *)
Definition response_of (bytes : string) : option string :=
  if (16 <=? String.length bytes)%nat then None
  else
    match last_char bytes with
    | None => None
    | Some c =>
        Some (c_str (if Ascii.eqb c "013" then without_last bytes else bytes))
    end.

(** [PegasusFlatMaster::sendCommand], lines 245-282, called with a zeroed
    response buffer of 16 bytes, as all its callers do.  The result is
    [None] for undefined behaviour, [Some (None, _)] when the method returns
    false and [Some (Some response, _)] when it returns true. *)
Definition sendCommand (command : string) (w : World)
  : option (option string * World) :=
  let cmd := truncated 6 (command ++ String "010" EmptyString)%string in
  let (reply, d) := exec cmd (dev w) in
  let w' := mkWorld (FirmwareT w) (FirmwareTP_s w) (LightS_ON w) d
              (events w ++ [EvWrite cmd]) in
  match reply with
  | WriteError | ReadError => Some (None, w')
  | Line bytes =>
      match response_of bytes with
      | None => None
      | Some response => Some (Some response, w')
      end
  end.

(** [PegasusFlatMaster::updateFirmwareVersion], lines 110-125. *)
Definition updateFirmwareVersion (w : World) : option World :=
  match sendCommand "V" w with
  | None => None
  | Some (Some response, w') =>
      Some (mkWorld response IPS_OK (LightS_ON w') (dev w')
              (events w' ++ [EvPublish]))
  | Some (None, w') =>
      Some (mkWorld (FirmwareT w') IPS_ALERT (LightS_ON w') (dev w')
              (events w'))
  end.

(** [PegasusFlatMaster::Ack], lines 127-147. *)
Definition Ack (w : World) : option (bool * World) :=
  match sendCommand "#" w with
  | None => None
  | Some (Some response, w') =>
      if strstr "OK_FM" response then
        match updateFirmwareVersion w' with
        | None => None
        | Some w'' => Some (true, w'')
        end
      else Some (false, w')
  | Some (None, w') => Some (false, w')
  end.

(** [PegasusFlatMaster::EnableLightBox], lines 149-169. *)
Definition EnableLightBox (enable : bool) (w : World) : option (bool * World) :=
  let cmd := ("E:" ++ decimal (if enable then 1 else 0))%string in
  match sendCommand cmd w with
  | None => None
  | Some (Some response, w') => Some (strstr cmd response, w')
  | Some (None, w') => Some (false, w')
  end.

(** The level of line 182 for a brightness [value], a [uint16_t]: the
    arithmetic is done in [int], with the division of C, and the result is
    converted to [uint16_t] by way of [double].  [None] is undefined
    behaviour: the conversion of a negative value. *)
Definition level (value : Z) : option Z :=
  let result := Z.quot ((100 - value - 0) * (255 - 20)) (100 - 0) + 20 in
  if result <? 0 then None else Some result.

(** [PegasusFlatMaster::SetLightBoxBrightness], lines 171-199. *)
Definition SetLightBoxBrightness (value : Z) (w : World)
  : option (bool * World) :=
  if negb (ISState_eqb (LightS_ON w) ISS_ON) then Some (false, w)
  else
    match level value with
    | None => None
    | Some result =>
        let cmd := ("L:" ++ decimal result)%string in
        match sendCommand cmd w with
        | None => None
        | Some (Some response, w') => Some (strstr cmd response, w')
        | Some (None, w') => Some (false, w')
        end
    end.

(** *** Notions *)

(** The line the panel receives for a command text that fits the buffer of
    [sendCommand]. *)
Definition line (command : string) : string :=
  (command ++ String "010" EmptyString)%string.

(** [part] occurs in [text]. *)
Definition occursIn (part text : string) : Prop :=
  exists before after, text = (before ++ part ++ after)%string.

(** *** The line written *)

Lemma truncated_fits (n : nat) (text : string) :
  (String.length text <= n)%nat -> truncated n text = text.
Proof.
  revert n. induction text as [|c t IH]; intros [|n] H; cbn in *;
    try reflexivity; try lia.
  now rewrite IH by lia.
Qed.

Lemma length_line (command : string) :
  String.length (line command) = S (String.length command).
Proof.
  unfold line. induction command as [|c t IH]; cbn; [reflexivity|].
  now rewrite IH.
Qed.

(** A number below 1000 prints with three digits at most. *)
Lemma decimal_length (n : Z) :
  0 <= n < 1000 -> (String.length (decimal n) <= 3)%nat.
Proof.
  intros H.
  assert (Hall : forallb (fun k => (String.length (decimal (Z.of_nat k)) <=? 3)%nat)
                   (seq 0 1000) = true) by (vm_compute; reflexivity).
  rewrite forallb_forall in Hall.
  specialize (Hall (Z.to_nat n)).
  rewrite Z2Nat.id in Hall by lia.
  apply Nat.leb_le, Hall, in_seq. lia.
Qed.

(** What [sendCommand] does with a command of five characters at most: the
    line written is the command and a line feed, in full. *)
Lemma sendCommand_short (command : string) (w : World) :
  (String.length command <= 5)%nat ->
  sendCommand command w =
    let w' := mkWorld (FirmwareT w) (FirmwareTP_s w) (LightS_ON w)
                (snd (exec (line command) (dev w)))
                (events w ++ [EvWrite (line command)]) in
    match fst (exec (line command) (dev w)) with
    | WriteError | ReadError => Some (None, w')
    | Line bytes =>
        match response_of bytes with
        | None => None
        | Some response => Some (Some response, w')
        end
    end.
Proof.
  intros H. unfold sendCommand. fold (line command).
  rewrite truncated_fits by (rewrite length_line; lia).
  destruct (exec (line command) (dev w)) as [reply d]. reflexivity.
Qed.

(** *** The brightness scale *)

Lemma level_in_range (v : Z) :
  0 <= v <= 100 ->
  level v = Some ((100 - v) * 235 / 100 + 20) /\
  20 <= (100 - v) * 235 / 100 + 20 <= 255.
Proof.
  intros Hv.
  assert (0 <= (100 - v) * 235 / 100) by (apply Z.div_pos; lia).
  assert ((100 - v) * 235 / 100 <= 235)
    by (apply Z.div_le_upper_bound; lia).
  split; [|lia]. unfold level.
  replace ((100 - v - 0) * (255 - 20)) with ((100 - v) * 235) by lia.
  replace (100 - 0) with 100 by lia.
  rewrite Z.quot_div_nonneg by lia.
  destruct (Z.ltb_spec ((100 - v) * 235 / 100 + 20) 0); [lia|reflexivity].
Qed.

(** X8: Line 182 turns a brightness between 0 and 100 into a level between 255
    and 20: brightness 0 is level 255, brightness 100 is level 20 and a
    higher brightness never gives a higher level.  From brightness 109 on
    the level is negative and its conversion to [uint16_t] is undefined. *)
Theorem level_scale (value : Z) :
  (0 <= value <= 100 ->
   exists n, level value = Some n /\ 20 <= n <= 255 /\
             forall value' n',
               value <= value' <= 100 -> level value' = Some n' -> n' <= n) /\
  level 0 = Some 255 /\ level 100 = Some 20 /\
  (109 <= value -> level value = None).
Proof.
  split; [|split; [reflexivity|split; [reflexivity|]]].
  - intros Hv. destruct (level_in_range value Hv) as [Hl Hr].
    eexists. split; [exact Hl|]. split; [exact Hr|].
    intros value' n' Hv' Hn'.
    destruct (level_in_range value') as [Hl' _]; [lia|].
    assert (E : n' = (100 - value') * 235 / 100 + 20) by congruence.
    assert ((100 - value') * 235 / 100 <= (100 - value) * 235 / 100)
      by (apply Z.div_le_mono; lia).
    lia.
  - intros Hv. unfold level.
    replace ((100 - value - 0) * (255 - 20)) with (- ((value - 100) * 235))
      by lia.
    replace (100 - 0) with 100 by lia.
    rewrite Z.quot_opp_l by lia. rewrite Z.quot_div_nonneg by lia.
    assert (21 <= (value - 100) * 235 / 100).
    { apply Z.div_le_lower_bound; lia. }
    destruct (Z.ltb_spec (- ((value - 100) * 235 / 100) + 20) 0);
      [reflexivity|lia].
Qed.

(** X9: With the light on, a brightness between 0 and 100 reaches the panel as
    the line "L:<level>" and a line feed, in full: the level has three
    digits at most, so the command fits the seven bytes [sendCommand] has
    for it.  The method returns true exactly when the panel answers with a
    text that occurs in the command.  With the light off nothing is written
    and the method returns false. *)
Theorem brightness_reaches_the_panel (value : Z) (w : World) :
  0 <= value <= 100 ->
  (LightS_ON w = ISS_OFF -> SetLightBoxBrightness value w = Some (false, w)) /\
  (LightS_ON w = ISS_ON ->
   let cmd := ("L:" ++ decimal ((100 - value) * 235 / 100 + 20))%string in
   let w' := mkWorld (FirmwareT w) (FirmwareTP_s w) (LightS_ON w)
               (snd (exec (line cmd) (dev w)))
               (events w ++ [EvWrite (line cmd)]) in
   SetLightBoxBrightness value w =
     match fst (exec (line cmd) (dev w)) with
     | WriteError | ReadError => Some (false, w')
     | Line bytes =>
         match response_of bytes with
         | None => None
         | Some response => Some (strstr cmd response, w')
         end
     end).
Proof.
  intros Hv. split; intros Hon; unfold SetLightBoxBrightness.
  { rewrite Hon. reflexivity. }
  destruct (level_in_range value Hv) as [Hn Hr].
  cbv zeta. rewrite Hn.
  rewrite sendCommand_short.
  2:{ assert (String.length (decimal ((100 - value) * 235 / 100 + 20)) <= 3)%nat
        by (apply decimal_length; lia).
      cbn [String.length String.append]. lia. }
  cbv zeta. rewrite Hon. cbn [ISState_eqb negb].
  destruct (fst (exec _ _)) as [| |bytes]; try reflexivity.
  destruct (response_of bytes); reflexivity.
Qed.

(** *** What counts as an answer *)

(** X10: [EnableLightBox] returns true exactly when the panel answers the line
    "E:1" (or "E:0") and its answer, without the line end, occurs in the
    command: the echo of the command counts, and so does any part of it,
    down to the empty text of a line that holds a carriage return only. *)
Theorem EnableLightBox_accepts_any_part_of_the_command
    (enable : bool) (w : World) :
  let cmd := if enable then "E:1" else "E:0" in
  (exists w', EnableLightBox enable w = Some (true, w')) <->
  (exists bytes response,
     fst (exec (line cmd) (dev w)) = Line bytes /\
     response_of bytes = Some response /\
     occursIn response cmd).
Proof.
  cbv zeta. unfold EnableLightBox, occursIn.
  assert (E : ("E:" ++ decimal (if enable then 1 else 0))%string
              = if enable then "E:1" else "E:0") by (destruct enable; reflexivity).
  rewrite E. rewrite sendCommand_short by (destruct enable; cbn; lia).
  cbv zeta. destruct (fst (exec _ _)) as [| |bytes].
  1,2: split; [intros [w' [=]]|intros (b & r & [=] & _)].
  destruct (response_of bytes) as [response|] eqn:Hr.
  - split.
    + intros [w' [= Hs _]]. exists bytes, response.
      split; [reflexivity|]. split; [exact Hr|]. now apply strstr_spec.
    + intros (b & r & [= <-] & Hr' & Hocc).
      rewrite Hr in Hr'. injection Hr' as <-.
      apply strstr_spec in Hocc. rewrite Hocc. eexists. reflexivity.
  - split; [intros [w' [=]]|].
    intros (b & r & [= <-] & Hr' & _). congruence.
Qed.

(** X11: When the panel answers the handshake line "#" with a text that occurs
    in "OK_FM", [Ack] asks for the firmware version and returns true
    whether or not that second exchange succeeds: an answer is stored as the
    firmware text and published with the state OK; a failure sets the state
    ALERT, publishes nothing and leaves the text as it was. *)
Theorem Ack_succeeds_without_the_firmware_version
    (w : World) (bytes response : string) :
  fst (exec (line "#") (dev w)) = Line bytes ->
  response_of bytes = Some response ->
  occursIn response "OK_FM" ->
  let d1 := snd (exec (line "#") (dev w)) in
  let d2 := snd (exec (line "V") d1) in
  let written := events w ++ [EvWrite (line "#"); EvWrite (line "V")] in
  Ack w =
    match fst (exec (line "V") d1) with
    | Line vbytes =>
        match response_of vbytes with
        | Some version =>
            Some (true, mkWorld version IPS_OK (LightS_ON w) d2
                          (written ++ [EvPublish]))
        | None => None
        end
    | _ => Some (true, mkWorld (FirmwareT w) IPS_ALERT (LightS_ON w) d2
                         written)
    end.
Proof.
  intros Hline Hresp Hocc. cbv zeta. unfold Ack.
  rewrite sendCommand_short by (cbn; lia). cbv zeta.
  rewrite Hline, Hresp. apply strstr_spec in Hocc. rewrite Hocc.
  unfold updateFirmwareVersion.
  rewrite sendCommand_short by (cbn; lia). cbv zeta.
  cbn [dev events FirmwareT FirmwareTP_s LightS_ON].
  destruct (fst (exec (line "V") _)) as [| |vbytes];
    [| |destruct (response_of vbytes)];
    cbn [dev events FirmwareT FirmwareTP_s LightS_ON];
    rewrite <- ?app_assoc; reflexivity.
Qed.

End Driver.

Arguments mkWorld {Dev}.
Arguments events {Dev} w.
Arguments FirmwareTP_s {Dev} w.

(** *** A panel to run

    The panel is the list of the replies it is going to give, in order; once
    the list is used up the reads time out. *)
Module Scripted.

Definition Panel := list Reply.

Definition exec (written : string) (p : Panel) : Reply * Panel :=
  match p with
  | reply :: rest => (reply, rest)
  | [] => (ReadError, [])
  end.

Definition world (light : ISState) (p : Panel) : World Panel :=
  mkWorld "" IPS_IDLE light p [].

Definition CR : string := String "013" EmptyString.

(** Brightness 50 is level 137; the panel echoes the command. *)
Lemma brightness_reaches_the_panel_witness :
  let w := world ISS_ON [Line ("L:137" ++ CR)] in
  option_map (fun r => (fst r, events (snd r)))
    (SetLightBoxBrightness Panel exec 50 w)
  = Some (true, [EvWrite (line "L:137")]) /\
  SetLightBoxBrightness Panel exec 50 (world ISS_OFF [Line ("L:137" ++ CR)])
  = Some (false, world ISS_OFF [Line ("L:137" ++ CR)]).
Proof.
  cbv zeta.
  destruct (brightness_reaches_the_panel Panel exec 50
              (world ISS_ON [Line ("L:137" ++ CR)]) ltac:(lia)) as [_ Hon].
  destruct (brightness_reaches_the_panel Panel exec 50
              (world ISS_OFF [Line ("L:137" ++ CR)]) ltac:(lia)) as [Hoff _].
  split.
  - rewrite (Hon eq_refl). vm_compute. reflexivity.
  - exact (Hoff eq_refl).
Defined.

(** A panel that answers the handshake and then falls silent: the handshake
    succeeds, the firmware property is left in the state ALERT. *)
Lemma Ack_succeeds_without_the_firmware_version_witness :
  let w := world ISS_OFF [Line ("OK_FM" ++ CR)] in
  option_map (fun r => (fst r, FirmwareTP_s (snd r), events (snd r)))
    (Ack Panel exec w)
  = Some (true, IPS_ALERT, [EvWrite (line "#"); EvWrite (line "V")]).
Proof.
  cbv zeta.
  rewrite (Ack_succeeds_without_the_firmware_version Panel exec
             (world ISS_OFF [Line ("OK_FM" ++ CR)]) ("OK_FM" ++ CR) "OK_FM"
             eq_refl eq_refl).
  - vm_compute. reflexivity.
  - exists "", "". reflexivity.
Defined.

(** A line that holds a carriage return only is taken for the answer to
    "E:1", and so is the answer "E"; the answer "ERR" is not. *)
Lemma EnableLightBox_answers :
  option_map fst (EnableLightBox Panel exec true (world ISS_OFF [Line CR]))
  = Some true /\
  option_map fst (EnableLightBox Panel exec true (world ISS_OFF [Line "E"]))
  = Some true /\
  option_map fst (EnableLightBox Panel exec true (world ISS_OFF [Line "ERR"]))
  = Some false.
Proof. vm_compute. repeat split. Qed.

End Scripted.

End PegasusFlatMaster.

(** ** drivers/alpaca/device_manager.cpp *)

From stdpp Require Import gmap strings sorting.

Module DeviceManager.
Local Open Scope string_scope.
Local Open Scope Z_scope.

(** The range of a C++ [int]. *)
Definition INT_MIN : Z := - 2 ^ 31.
Definition INT_MAX : Z := 2 ^ 31 - 1.

(** *** The request path *)

(** [std::getline(ss, str, delim)] on a stream holding [s]: the characters
    up to the first [delim], and what is left after it.  On an exhausted
    stream nothing is extracted and [str], default-constructed, stays
    empty. *)
Fixpoint getline (delim : ascii) (s : string) : string * string :=
  match s with
  | EmptyString => (EmptyString, EmptyString)
  | String c t =>
      if Ascii.eqb c delim then (EmptyString, t)
      else (String c (fst (getline delim t)), snd (getline delim t))
  end.

(** [path.substr(n)] for [n] within the string. *)
Fixpoint substr (n : nat) (s : string) : string :=
  match n, s with
  | O, _ => s
  | S n', String _ t => substr n' t
  | S _, EmptyString => EmptyString
  end.

(** [isspace] in the C locale. *)
Definition isspace (c : ascii) : bool :=
  let n := Z.of_nat (nat_of_ascii c) in
  (n =? 32) || ((9 <=? n) && (n <=? 13)).

Definition isdigit (c : ascii) : bool :=
  let n := Z.of_nat (nat_of_ascii c) in (48 <=? n) && (n <=? 57).

Fixpoint skip_spaces (s : string) : string :=
  match s with
  | String c t => if isspace c then skip_spaces t else s
  | EmptyString => s
  end.

(** The value of the decimal digits [s] starts with, after [acc]. *)
Fixpoint digits_value (acc : Z) (s : string) : Z :=
  match s with
  | String c t =>
      if isdigit c
      then digits_value (10 * acc + (Z.of_nat (nat_of_ascii c) - 48)) t
      else acc
  | EmptyString => acc
  end.

(** [std::stoi(str)]: leading white space is skipped, a sign is accepted,
    the digits that follow are converted and whatever comes after them is
    ignored.  [None] is an exception: [std::invalid_argument] when there is
    no digit to convert, [std::out_of_range] when the value is no [int]. *)
Definition stoi (str : string) : option Z :=
  let s1 := skip_spaces str in
  let negative := match s1 with String "-" _ => true | _ => false end in
  let s2 := match s1 with
            | String "-" t => t
            | String "+" t => t
            | _ => s1
            end in
  match s2 with
  | String c _ =>
      if isdigit c then
        let v := digits_value 0 s2 in
        let r := if negative then - v else v in
        if (INT_MIN <=? r) && (r <=? INT_MAX) then Some r else None
      else None
  | EmptyString => None
  end.

(** What [res.set_content(response.dump(), "application/json")] leaves in
    the response: an error object, a value object (with the two transaction
    ids 0, error number 0 and an empty error message), or what the bridge
    wrote. *)
Inductive Value (Info : Type) :=
| ApiVersions (versions : list Z)
| Description (text : string)
| ConfiguredDevices (devices : list Info).

Inductive Response (Info BridgeResponse : Type) :=
| Error (ErrorNumber : Z) (ErrorMessage : string)
| Ok (value : Value Info)
| Bridged (response : BridgeResponse).

Arguments ApiVersions {Info}.
Arguments Description {Info}.
Arguments ConfiguredDevices {Info}.
Arguments Error {Info BridgeResponse}.
Arguments Ok {Info BridgeResponse}.
Arguments Bridged {Info BridgeResponse}.

Section Manager.

(** [INDI::BaseDevice], [INDI::Property] and [httplib::Request], with the
    getters the manager calls on them. *)
Variable BaseDevice : Type.
Variable getDeviceName : BaseDevice -> string.
Variable getDriverInterface : BaseDevice -> Z.
Variable TELESCOPE_INTERFACE : Z.

Variable Property : Type.
Variable propertyDeviceName : Property -> string.

Variable Request : Type.
Variable path : Request -> string.

(** [IDeviceBridge] (bridges/device_bridge.h, not among the files embedded
    here): the telescope bridge made for a device and a number, the getters
    of a bridge, and its two handlers, which may change the bridge. *)
Variable Bridge : Type.
Variable TelescopeBridge : BaseDevice -> Z -> Bridge.
Variable bridgeDeviceName : Bridge -> string.
Variable bridgeDeviceType : Bridge -> string.
Variable bridgeDeviceNumber : Bridge -> Z.
Variable bridgeUniqueID : Bridge -> string.
Variable updateProperty : Property -> Bridge -> Bridge.
Variable BridgeResponse : Type.
Variable handleRequest : string -> Request -> Bridge -> BridgeResponse * Bridge.

(** [AlpacaDeviceInfo], and the entries of the configured-devices list. *)
Record AlpacaDeviceInfo := mkInfo {
  deviceNumber : Z;
  deviceName : string;
  deviceType : string;
  uniqueID : string
}.

(** The three maps of the manager and its counter. *)
Record State := mkState {
  m_Devices : gmap string BaseDevice;
  m_Bridges : gmap Z Bridge;
  m_DeviceNumberMap : gmap string Z;
  m_NextDeviceNumber : Z
}.

(** [DeviceManager::createBridge], lines 175-202; [None] is [nullptr]. *)
Definition createBridge (device : BaseDevice) (number : Z) : option Bridge :=
  if negb (Z.land (getDriverInterface device) TELESCOPE_INTERFACE =? 0)
  then Some (TelescopeBridge device number)
  else None.

(** [DeviceManager::addDevice], lines 92-124.  [None] is undefined
    behaviour: the increment of [m_NextDeviceNumber] at [INT_MAX]. *)
Definition addDevice (device : BaseDevice) (m : State) : option State :=
  let name := getDeviceName device in
  match m_Devices m !! name with
  | Some _ =>
      Some (mkState (<[name := device]> (m_Devices m)) (m_Bridges m)
              (m_DeviceNumberMap m) (m_NextDeviceNumber m))
  | None =>
      let devices := <[name := device]> (m_Devices m) in
      let number := m_NextDeviceNumber m in
      if number =? INT_MAX then None
      else
        match createBridge device number with
        | Some bridge =>
            Some (mkState devices (<[number := bridge]> (m_Bridges m))
                    (<[name := number]> (m_DeviceNumberMap m)) (number + 1))
        | None =>
            Some (mkState devices (m_Bridges m) (m_DeviceNumberMap m)
                    (number + 1))
        end
  end.

(** [DeviceManager::removeDevice], lines 126-148. *)
Definition removeDevice (device : BaseDevice) (m : State) : State :=
  let name := getDeviceName device in
  match m_DeviceNumberMap m !! name with
  | None => m
  | Some number =>
      mkState (delete name (m_Devices m)) (delete number (m_Bridges m))
        (delete name (m_DeviceNumberMap m)) (m_NextDeviceNumber m)
  end.

(** [DeviceManager::updateDeviceProperty], lines 150-173. *)
Definition updateDeviceProperty (property : Property) (m : State) : State :=
  match m_DeviceNumberMap m !! propertyDeviceName property with
  | None => m
  | Some number =>
      match m_Bridges m !! number with
      | Some bridge =>
          mkState (m_Devices m)
            (<[number := updateProperty property bridge]> (m_Bridges m))
            (m_DeviceNumberMap m) (m_NextDeviceNumber m)
      | None => m
      end
  end.

(** The bridges in the order a [std::map<int, ...>] is walked: by ascending
    device number. *)
Definition byNumber (a b : Z * Bridge) : Prop := fst a <= fst b.

#[local] Instance byNumber_dec (a b : Z * Bridge) : Decision (byNumber a b) :=
  Z_le_dec (fst a) (fst b).

Definition bridgesInOrder (m : State) : list (Z * Bridge) :=
  merge_sort byNumber (map_to_list (m_Bridges m)).

(** [DeviceManager::getDeviceList], lines 381-397. *)
Definition getDeviceList (m : State) : list AlpacaDeviceInfo :=
  List.map (fun kb => mkInfo (bridgeDeviceNumber (snd kb))
                        (bridgeDeviceName (snd kb))
                        (bridgeDeviceType (snd kb))
                        (bridgeUniqueID (snd kb)))
    (bridgesInOrder m).

Definition Reply := Response AlpacaDeviceInfo BridgeResponse.

(** [DeviceManager::routeRequest], lines 274-307. *)
Definition routeRequest (number : Z) (type method : string) (req : Request)
    (m : State) : Reply * State :=
  match m_Bridges m !! number with
  | None => (Error 1003 "Device not found", m)
  | Some bridge =>
      if negb (String.eqb (bridgeDeviceType bridge) type)
      then (Error 1004 "Device type mismatch", m)
      else
        (Bridged (fst (handleRequest method req bridge)),
         mkState (m_Devices m)
           (<[number := snd (handleRequest method req bridge)]> (m_Bridges m))
           (m_DeviceNumberMap m) (m_NextDeviceNumber m))
  end.

(** [DeviceManager::handleManagementRequest], lines 309-379; the entries of
    the configured-devices list carry the name, type, number and unique id
    of each bridge, as [getDeviceList] does. *)
Definition handleManagementRequest (endpoint : string) (m : State) : Reply :=
  if String.eqb endpoint "apiversions" then Ok (ApiVersions [1])
  else if String.eqb endpoint "v1/description"
  then Ok (Description "INDI Alpaca Server")
  else if String.eqb endpoint "v1/configureddevices"
  then Ok (ConfiguredDevices (getDeviceList m))
  else Error 1005 "Unknown management endpoint".

(** [DeviceManager::handleAlpacaRequest], lines 204-272. *)
Definition handleAlpacaRequest (req : Request) (m : State) : Reply * State :=
  if String.prefix "/management/" (path req)
  then (handleManagementRequest (substr 12 (path req)) m, m)
  else if String.prefix "/api/v1/" (path req) then
    let apiPath := substr 8 (path req) in
    let type := fst (getline "/" apiPath) in
    let numberStr := fst (getline "/" (snd (getline "/" apiPath))) in
    let method :=
      fst (getline "/" (snd (getline "/" (snd (getline "/" apiPath))))) in
    if String.eqb type "" || String.eqb numberStr "" || String.eqb method ""
    then (Error 1001 "Invalid API request format", m)
    else
      match stoi numberStr with
      | None => (Error 1002 "Invalid device number", m)
      | Some number => routeRequest number type method req m
      end
  else (Error 1000 "Unknown API endpoint", m).

(** *** Notions *)

(** The maps agree: every numbered device is registered and has its bridge,
    every bridge belongs to exactly one numbered device, and every number in
    use is below the counter. *)
Definition consistent (m : State) : Prop :=
  (forall name n, m_DeviceNumberMap m !! name = Some n ->
     is_Some (m_Devices m !! name) /\ is_Some (m_Bridges m !! n)) /\
  (forall n, is_Some (m_Bridges m !! n) ->
     n < m_NextDeviceNumber m /\
     exists name, m_DeviceNumberMap m !! name = Some n) /\
  (forall name1 name2 n,
     m_DeviceNumberMap m !! name1 = Some n ->
     m_DeviceNumberMap m !! name2 = Some n -> name1 = name2).

(** A device the manager can make a bridge for. *)
Definition isTelescope (device : BaseDevice) : bool :=
  negb (Z.land (getDriverInterface device) TELESCOPE_INTERFACE =? 0).

(** One segment of a request path: not empty and free of '/'. *)
Fixpoint noSlash (s : string) : bool :=
  match s with
  | EmptyString => true
  | String c t => negb (Ascii.eqb c "/") && noSlash t
  end.

Definition isSegment (s : string) : bool :=
  negb (String.eqb s "") && noSlash s.

(** The operations that change the registry, and a run of them. *)
Inductive Op :=
| Add (device : BaseDevice)
| Remove (device : BaseDevice)
| Update (property : Property)
| Route (number : Z) (type method : string) (req : Request)
| Handle (req : Request).

Definition step (op : Op) (m : State) : option State :=
  match op with
  | Add device => addDevice device m
  | Remove device => Some (removeDevice device m)
  | Update property => Some (updateDeviceProperty property m)
  | Route number type method req =>
      Some (snd (routeRequest number type method req m))
  | Handle req => Some (snd (handleAlpacaRequest req m))
  end.

Fixpoint run (ops : list Op) (m : State) : option State :=
  match ops with
  | [] => Some m
  | op :: rest =>
      match step op m with
      | Some m' => run rest m'
      | None => None
      end
  end.

(** *** The registry *)

Lemma consistent_empty (next : Z) : consistent (mkState empty empty empty next).
Proof.
  unfold consistent; cbn. split; [|split].
  - intros name n. rewrite lookup_empty. discriminate.
  - intros n. rewrite lookup_empty. intros [? ?]. discriminate.
  - intros name1 name2 n. rewrite lookup_empty. discriminate.
Qed.

(** Replacing the bridge that sits at a number in use keeps the maps in
    agreement. *)
Lemma consistent_replace (m : State) (n : Z) (b : Bridge) :
  consistent m -> is_Some (m_Bridges m !! n) ->
  consistent (mkState (m_Devices m) (<[n := b]> (m_Bridges m))
                (m_DeviceNumberMap m) (m_NextDeviceNumber m)).
Proof.
  intros (Hmap & Hbr & Hinj) Hn. unfold consistent; cbn.
  split; [|split].
  - intros name k Hk. destruct (Hmap name k Hk) as [Hd Hb]. split; [exact Hd|].
    rewrite lookup_insert. destruct (decide (n = k)); eauto.
  - intros k Hk. apply Hbr. rewrite lookup_insert in Hk.
    destruct (decide (n = k)); subst; auto.
  - exact Hinj.
Qed.

Lemma routeRequest_consistent number type method req (m : State) :
  consistent m -> consistent (snd (routeRequest number type method req m)).
Proof.
  intros Hc. unfold routeRequest.
  destruct (m_Bridges m !! number) as [b|] eqn:Hb; [|exact Hc].
  destruct (negb _); [exact Hc|]. cbn [snd].
  apply consistent_replace; eauto.
Qed.

Lemma handleAlpacaRequest_consistent req (m : State) :
  consistent m -> consistent (snd (handleAlpacaRequest req m)).
Proof.
  intros Hc. unfold handleAlpacaRequest.
  destruct (String.prefix "/management/" (path req)); [exact Hc|].
  destruct (String.prefix "/api/v1/" (path req)); [|exact Hc].
  destruct (_ || _); [exact Hc|].
  destruct (stoi _); [|exact Hc].
  now apply routeRequest_consistent.
Qed.

Lemma addDevice_consistent device (m m' : State) :
  consistent m -> addDevice device m = Some m' -> consistent m'.
Proof.
  intros (Hmap & Hbr & Hinj). unfold addDevice.
  destruct (m_Devices m !! getDeviceName device) as [old|] eqn:Hd.
  - intros [= <-]. unfold consistent; cbn. split; [|split]; auto.
    intros name k Hk. destruct (Hmap name k Hk) as [H1 H2]. split; [|exact H2].
    rewrite lookup_insert. destruct (decide (getDeviceName device = name)); eauto.
  - destruct (m_NextDeviceNumber m =? INT_MAX); [discriminate|].
    assert (Hfresh : m_DeviceNumberMap m !! getDeviceName device = None).
    { destruct (m_DeviceNumberMap m !! getDeviceName device) as [k|] eqn:Hk;
        [|reflexivity].
      destruct (Hmap _ _ Hk) as [[x Hx] _]. congruence. }
    assert (Hnext : m_Bridges m !! m_NextDeviceNumber m = None).
    { destruct (m_Bridges m !! m_NextDeviceNumber m) as [b|] eqn:Hb;
        [|reflexivity].
      destruct (Hbr (m_NextDeviceNumber m)) as [Hlt _]; eauto. lia. }
    destruct (createBridge device (m_NextDeviceNumber m)) as [bridge|];
      intros [= <-]; unfold consistent; cbn; (split; [|split]).
    + intros name k. rewrite !lookup_insert.
      destruct (decide (getDeviceName device = name)) as [<-|Hne].
      * intros [= <-]. rewrite decide_True by reflexivity. eauto.
      * intros Hk. destruct (Hmap name k Hk) as [H1 H2]. split; [exact H1|].
        destruct (decide (m_NextDeviceNumber m = k)); eauto.
    + intros k. rewrite lookup_insert.
      destruct (decide (m_NextDeviceNumber m = k)) as [<-|Hne].
      * intros _. split; [lia|]. exists (getDeviceName device).
        now rewrite lookup_insert_eq.
      * intros Hk. destruct (Hbr k Hk) as [Hlt [name Hname]]. split; [lia|].
        exists name. rewrite lookup_insert_ne; [exact Hname|].
        congruence.
    + intros name1 name2 k H1 H2.
      apply lookup_insert_Some in H1 as [[<- <-]|[N1 H1]];
        apply lookup_insert_Some in H2 as [[<- E2]|[N2 H2]]; auto.
      * destruct (Hmap _ _ H2) as [_ Hb]. rewrite Hnext in Hb.
        now destruct Hb.
      * subst k. destruct (Hmap _ _ H1) as [_ Hb]. rewrite Hnext in Hb.
        now destruct Hb.
      * exact (Hinj _ _ _ H1 H2).
    + intros name k Hk. destruct (Hmap name k Hk) as [H1 H2]. split; [|exact H2].
      rewrite lookup_insert.
      destruct (decide (getDeviceName device = name)); eauto.
    + intros k Hk. destruct (Hbr k Hk) as [Hlt Hname]. split; [lia|exact Hname].
    + exact Hinj.
Qed.

Lemma removeDevice_consistent device (m : State) :
  consistent m -> consistent (removeDevice device m).
Proof.
  intros Hc. pose proof Hc as (Hmap & Hbr & Hinj). unfold removeDevice.
  destruct (m_DeviceNumberMap m !! getDeviceName device) as [n|] eqn:Hn;
    [|exact Hc].
  unfold consistent; cbn. split; [|split].
  - intros name k. rewrite !lookup_delete.
    destruct (decide (getDeviceName device = name)) as [<-|Hne]; [discriminate|].
    intros Hk. destruct (Hmap name k Hk) as [H1 H2]. split; [exact H1|].
    destruct (decide (n = k)) as [<-|]; [|exact H2].
    exfalso. apply Hne. exact (Hinj _ _ _ Hn Hk).
  - intros k. rewrite lookup_delete.
    destruct (decide (n = k)) as [<-|Hne]; [intros [? ?]; discriminate|].
    intros Hk. destruct (Hbr k Hk) as [Hlt [name Hname]]. split; [exact Hlt|].
    exists name. rewrite lookup_delete_ne; [exact Hname|].
    intros E. apply Hne. rewrite E in Hn. congruence.
  - intros name1 name2 k. rewrite !lookup_delete.
    destruct (decide (getDeviceName device = name1)); [discriminate|].
    destruct (decide (getDeviceName device = name2)); [discriminate|].
    apply Hinj.
Qed.

Lemma updateDeviceProperty_consistent property (m : State) :
  consistent m -> consistent (updateDeviceProperty property m).
Proof.
  intros Hc. unfold updateDeviceProperty.
  destruct (m_DeviceNumberMap m !! _) as [n|]; [|exact Hc].
  destruct (m_Bridges m !! n) as [b|] eqn:Hb; [|exact Hc].
  apply consistent_replace; eauto.
Qed.

Lemma step_consistent op (m m' : State) :
  consistent m -> step op m = Some m' -> consistent m'.
Proof.
  intros Hc. destruct op; cbn [step].
  - now apply addDevice_consistent.
  - intros [= <-]. now apply removeDevice_consistent.
  - intros [= <-]. now apply updateDeviceProperty_consistent.
  - intros [= <-]. now apply routeRequest_consistent.
  - intros [= <-]. now apply handleAlpacaRequest_consistent.
Qed.

(** X1: Whatever is done with the manager, its three maps stay in agreement:
    from a consistent registry, every run of additions, removals, property
    updates and requests that completes ends in a consistent registry. *)
Theorem registry_stays_consistent (ops : list Op) (m m' : State) :
  consistent m -> run ops m = Some m' -> consistent m'.
Proof.
  revert m. induction ops as [|op rest IH]; intros m Hc; cbn [run].
  - now intros [= <-].
  - destruct (step op m) as [m1|] eqn:Hstep; [|discriminate].
    apply IH. exact (step_consistent op m m1 Hc Hstep).
Qed.

(** X2: Adding a device under a name the registry already holds only replaces
    the stored device: the bridges, the numbering and the counter are left
    alone, whatever interface the device now shows.  In particular adding
    the same device twice is the same as adding it once. *)
Theorem readded_device_keeps_its_entry (d d' : BaseDevice) (m m1 : State) :
  addDevice d m = Some m1 ->
  getDeviceName d' = getDeviceName d ->
  addDevice d' m1 =
    Some (mkState (<[getDeviceName d := d']> (m_Devices m1)) (m_Bridges m1)
            (m_DeviceNumberMap m1) (m_NextDeviceNumber m1)) /\
  addDevice d m1 = Some m1.
Proof.
  intros Hadd Hname.
  assert (Hin : m_Devices m1 !! getDeviceName d = Some d).
  { unfold addDevice in Hadd.
    destruct (m_Devices m !! getDeviceName d).
    - injection Hadd as <-. cbn. apply lookup_insert_eq.
    - destruct (_ =? _); [discriminate|].
      destruct (createBridge _ _); injection Hadd as <-; cbn;
        apply lookup_insert_eq. }
  split.
  - unfold addDevice. rewrite Hname, Hin. reflexivity.
  - unfold addDevice. rewrite Hin. f_equal. destruct m1; cbn in *.
    f_equal. now apply insert_id.
Qed.

(** X3: A device that does not show the telescope interface is registered and
    uses up a device number, but gets no bridge and no number of its own;
    [removeDevice] then finds no number for it and leaves it registered. *)
Theorem device_without_bridge_is_not_removed (d : BaseDevice) (m : State) :
  isTelescope d = false ->
  m_Devices m !! getDeviceName d = None ->
  m_DeviceNumberMap m !! getDeviceName d = None ->
  m_NextDeviceNumber m <> INT_MAX ->
  exists m1,
    addDevice d m = Some m1 /\
    m_Devices m1 !! getDeviceName d = Some d /\
    m_Bridges m1 = m_Bridges m /\
    m_DeviceNumberMap m1 = m_DeviceNumberMap m /\
    m_NextDeviceNumber m1 = m_NextDeviceNumber m + 1 /\
    removeDevice d m1 = m1.
Proof.
  intros Htel Hd Hn Hmax. unfold addDevice, createBridge.
  unfold isTelescope in Htel. rewrite Hd, Htel.
  destruct (Z.eqb_spec (m_NextDeviceNumber m) INT_MAX) as [E|_];
    [contradiction|].
  eexists. split; [reflexivity|]. cbn.
  rewrite lookup_insert_eq. repeat split.
  unfold removeDevice. cbn. now rewrite Hn.
Qed.

(** X4: Adding a telescope under a new name gives it the next device number and
    a bridge made for that number; removing it again restores the three
    maps, but not the counter. *)
Theorem add_then_remove (d : BaseDevice) (m : State) :
  consistent m ->
  isTelescope d = true ->
  m_Devices m !! getDeviceName d = None ->
  m_NextDeviceNumber m <> INT_MAX ->
  exists m1,
    addDevice d m = Some m1 /\
    m_DeviceNumberMap m1 !! getDeviceName d = Some (m_NextDeviceNumber m) /\
    m_Bridges m1 !! m_NextDeviceNumber m =
      Some (TelescopeBridge d (m_NextDeviceNumber m)) /\
    removeDevice d m1 =
      mkState (m_Devices m) (m_Bridges m) (m_DeviceNumberMap m)
        (m_NextDeviceNumber m + 1).
Proof.
  intros (Hmap & Hbr & _) Htel Hd Hmax. unfold addDevice, createBridge.
  unfold isTelescope in Htel. rewrite Hd, Htel.
  destruct (Z.eqb_spec (m_NextDeviceNumber m) INT_MAX) as [E|_];
    [contradiction|].
  eexists. split; [reflexivity|]. cbn. rewrite !lookup_insert_eq.
  split; [reflexivity|]. split; [reflexivity|].
  unfold removeDevice. cbn. rewrite lookup_insert_eq.
  f_equal; apply delete_insert_id.
  - exact Hd.
  - destruct (m_Bridges m !! m_NextDeviceNumber m) eqn:Hb; [|reflexivity].
    destruct (Hbr (m_NextDeviceNumber m)) as [Hlt _]; eauto. lia.
  - destruct (m_DeviceNumberMap m !! getDeviceName d) eqn:Hk; [|reflexivity].
    destruct (Hmap _ _ Hk) as [[x Hx] _]. congruence.
Qed.

(** *** Requests *)

(** Handling a request never registers or removes anything: the devices,
    the numbering and the counter are unchanged and the same numbers carry a
    bridge; at most the bridge the request was forwarded to has changed. *)
Lemma routeRequest_frame number type method req (m : State) :
  let m' := snd (routeRequest number type method req m) in
  m_Devices m' = m_Devices m /\
  m_DeviceNumberMap m' = m_DeviceNumberMap m /\
  m_NextDeviceNumber m' = m_NextDeviceNumber m /\
  (forall n, is_Some (m_Bridges m' !! n) <-> is_Some (m_Bridges m !! n)) /\
  (forall n, n <> number -> m_Bridges m' !! n = m_Bridges m !! n).
Proof.
  cbv zeta. unfold routeRequest.
  destruct (m_Bridges m !! number) as [b|] eqn:Hb; [|tauto].
  destruct (negb _); [tauto|]. cbn. repeat split.
  - rewrite lookup_insert. destruct (decide (number = n)); subst; eauto.
  - rewrite lookup_insert. destruct (decide (number = n)); subst; eauto.
  - intros n Hn. now rewrite lookup_insert_ne.
Qed.

Lemma handleAlpacaRequest_frame (req : Request) (m : State) :
  let m' := snd (handleAlpacaRequest req m) in
  m_Devices m' = m_Devices m /\
  m_DeviceNumberMap m' = m_DeviceNumberMap m /\
  m_NextDeviceNumber m' = m_NextDeviceNumber m /\
  (forall n, is_Some (m_Bridges m' !! n) <-> is_Some (m_Bridges m !! n)).
Proof.
  cbv zeta. unfold handleAlpacaRequest.
  destruct (String.prefix "/management/" (path req)); [tauto|].
  destruct (String.prefix "/api/v1/" (path req)); [|tauto].
  destruct (_ || _); [tauto|].
  destruct (stoi _) as [n|]; [|tauto].
  match goal with
  | |- context [routeRequest ?a ?b ?c ?d ?e] =>
      destruct (routeRequest_frame a b c d e) as (H1 & H2 & H3 & H4 & _)
  end.
  tauto.
Qed.

(** X7: What a request can do to the manager: either it is answered by the
    manager itself, with a value or an error, and nothing changes; or it is
    forwarded to one bridge, the answer is what that bridge wrote, and that
    bridge is the only thing that may have changed.  No request registers or
    removes a device or moves the counter. *)
Theorem request_changes_one_bridge_at_most (req : Request) (m : State) :
  ((exists v, fst (handleAlpacaRequest req m) = Ok v) \/
   (exists number message,
      fst (handleAlpacaRequest req m) = Error number message /\
      1000 <= number <= 1005)) /\
  snd (handleAlpacaRequest req m) = m
  \/
  exists n b method,
    m_Bridges m !! n = Some b /\
    handleAlpacaRequest req m =
      (Bridged (fst (handleRequest method req b)),
       mkState (m_Devices m)
         (<[n := snd (handleRequest method req b)]> (m_Bridges m))
         (m_DeviceNumberMap m) (m_NextDeviceNumber m)).
Proof.
  unfold handleAlpacaRequest.
  destruct (String.prefix "/management/" (path req)).
  { left. split; [|reflexivity]. unfold handleManagementRequest.
    repeat (destruct (String.eqb _ _); [left; eexists; reflexivity|]).
    right. do 2 eexists. split; [reflexivity|lia]. }
  destruct (String.prefix "/api/v1/" (path req)).
  2:{ left. split; [|reflexivity]. right. do 2 eexists.
      split; [reflexivity|lia]. }
  destruct (_ || _).
  { left. split; [|reflexivity]. right. do 2 eexists.
    split; [reflexivity|lia]. }
  destruct (stoi _) as [n|].
  2:{ left. split; [|reflexivity]. right. do 2 eexists.
      split; [reflexivity|lia]. }
  unfold routeRequest. destruct (m_Bridges m !! n) as [b|] eqn:Hb.
  2:{ left. split; [|reflexivity]. right. do 2 eexists.
      split; [reflexivity|lia]. }
  destruct (negb _).
  { left. split; [|reflexivity]. right. do 2 eexists.
    split; [reflexivity|lia]. }
  right. exists n, b. eexists. split; [exact Hb|reflexivity].
Qed.

(** A number that is below the counter and carries no bridge never carries
    one again. *)
Lemma step_keeps_number_free op (m m' : State) (n : Z) :
  n < m_NextDeviceNumber m -> m_Bridges m !! n = None ->
  step op m = Some m' ->
  n < m_NextDeviceNumber m' /\ m_Bridges m' !! n = None.
Proof.
  intros Hlt Hfree. destruct op; cbn [step].
  - unfold addDevice. destruct (m_Devices m !! _).
    + intros [= <-]. cbn. auto.
    + destruct (_ =? _); [discriminate|].
      destruct (createBridge _ _); intros [= <-]; cbn.
      * split; [lia|]. rewrite lookup_insert_ne; [exact Hfree|lia].
      * split; [lia|exact Hfree].
  - intros [= <-]. unfold removeDevice.
    destruct (m_DeviceNumberMap m !! _); cbn; [|auto].
    split; [exact Hlt|]. rewrite lookup_delete.
    destruct (decide _); auto.
  - intros [= <-]. unfold updateDeviceProperty.
    destruct (m_DeviceNumberMap m !! _) as [k|]; [|auto].
    destruct (m_Bridges m !! k) eqn:Hk; cbn; [|auto].
    split; [exact Hlt|]. rewrite lookup_insert_ne; [exact Hfree|congruence].
  - intros [= <-].
    destruct (routeRequest_frame number type method req m)
      as (_ & _ & H3 & H4 & _).
    rewrite H3. split; [exact Hlt|].
    apply eq_None_not_Some. intros Hs. apply H4 in Hs.
    rewrite Hfree in Hs. now destruct Hs.
  - intros [= <-].
    destruct (handleAlpacaRequest_frame req m) as (_ & _ & H3 & H4).
    rewrite H3. split; [exact Hlt|].
    apply eq_None_not_Some. intros Hs. apply H4 in Hs.
    rewrite Hfree in Hs. now destruct Hs.
Qed.

Lemma run_keeps_number_free ops : forall (m m' : State) (n : Z),
  n < m_NextDeviceNumber m -> m_Bridges m !! n = None ->
  run ops m = Some m' ->
  m_Bridges m' !! n = None.
Proof.
  induction ops as [|op rest IH]; intros m m' n Hlt Hfree; cbn [run].
  - now intros [= <-].
  - destruct (step op m) as [m1|] eqn:Hstep; [|discriminate].
    destruct (step_keeps_number_free op m m1 n Hlt Hfree Hstep).
    now apply IH.
Qed.

(** X5: Device numbers are never used again: once the device that held number
    [n] is removed, no later run of additions, removals, updates and
    requests gives [n] a bridge, not even adding the same device again, and
    a request routed to [n] is answered with error 1003. *)
Theorem device_numbers_are_never_reused
    (d : BaseDevice) (n : Z) (ops : list Op) (m m' : State) :
  consistent m ->
  m_DeviceNumberMap m !! getDeviceName d = Some n ->
  run ops (removeDevice d m) = Some m' ->
  m_Bridges m' !! n = None /\
  forall type method req,
    routeRequest n type method req m' = (Error 1003 "Device not found", m').
Proof.
  intros (Hmap & Hbr & _) Hn Hrun.
  assert (Hfree : m_Bridges m' !! n = None).
  { apply (run_keeps_number_free ops (removeDevice d m) m' n); [| |exact Hrun];
      unfold removeDevice; rewrite Hn; cbn.
    - destruct (Hmap _ _ Hn) as [_ Hb]. now destruct (Hbr n Hb).
    - apply lookup_delete_eq. }
  split; [exact Hfree|]. intros type method req.
  unfold routeRequest. now rewrite Hfree.
Qed.

Lemma getline_segment (s rest : string) :
  noSlash s = true -> getline "/" (s ++ String "/" rest) = (s, rest).
Proof.
  induction s as [|c t IH]; intros H.
  - reflexivity.
  - cbn [noSlash] in H. apply andb_prop in H as [Hc Ht].
    change (getline "/" (String c (t ++ String "/" rest)) = (String c t, rest)).
    cbn [getline]. destruct (Ascii.eqb c "/"); [discriminate|].
    now rewrite (IH Ht).
Qed.

Lemma getline_last (s : string) :
  noSlash s = true -> getline "/" s = (s, EmptyString).
Proof.
  induction s as [|c t IH]; intros H.
  - reflexivity.
  - cbn [noSlash] in H. apply andb_prop in H as [Hc Ht].
    cbn [getline]. destruct (Ascii.eqb c "/"); [discriminate|].
    now rewrite (IH Ht).
Qed.

Lemma api_path (x : string) :
  String.prefix "/management/" ("/api/v1/" ++ x) = false /\
  String.prefix "/api/v1/" ("/api/v1/" ++ x) = true /\
  substr 8 ("/api/v1/" ++ x) = x.
Proof. split; [reflexivity|split; [destruct x; reflexivity|reflexivity]]. Qed.

(** X6: A request for /api/v1/<type>/<number>/<method>, with or without further
    segments after the method, whose number names a bridge: the request is
    forwarded to that bridge with the method when the bridge is of the type
    asked for, and is answered with error 1004 when it is not. *)
Theorem request_reaches_its_bridge
    (req : Request) (m : State) (type numberStr method tail : string)
    (n : Z) (b : Bridge) :
  path req = "/api/v1/" ++ type ++ "/" ++ numberStr ++ "/" ++ method ++ tail ->
  isSegment type = true -> isSegment numberStr = true ->
  isSegment method = true ->
  tail = "" \/ (exists x, tail = String "/" x) ->
  stoi numberStr = Some n ->
  m_Bridges m !! n = Some b ->
  handleAlpacaRequest req m =
    if String.eqb (bridgeDeviceType b) type
    then (Bridged (fst (handleRequest method req b)),
          mkState (m_Devices m)
            (<[n := snd (handleRequest method req b)]> (m_Bridges m))
            (m_DeviceNumberMap m) (m_NextDeviceNumber m))
    else (Error 1004 "Device type mismatch", m).
Proof.
  intros Hpath Ht Hn Hm Htail Hstoi Hb.
  apply andb_prop in Ht as [Ht0 Ht], Hn as [Hn0 Hn], Hm as [Hm0 Hm].
  unfold handleAlpacaRequest. rewrite Hpath.
  destruct (api_path (type ++ "/" ++ numberStr ++ "/" ++ method ++ tail))
    as (-> & -> & ->).
  change (type ++ "/" ++ numberStr ++ "/" ++ method ++ tail)
    with (type ++ String "/" (numberStr ++ String "/" (method ++ tail))).
  rewrite !(getline_segment type) by exact Ht. cbn [fst snd].
  rewrite !(getline_segment numberStr) by exact Hn. cbn [fst snd].
  assert (Hmeth : fst (getline "/" (method ++ tail)) = method).
  { destruct Htail as [->|[x ->]].
    - replace (method ++ "") with method; [now rewrite getline_last|].
      clear. induction method as [|c t IH]; [reflexivity|].
      change (String c t = String c (t ++ "")). now rewrite <- IH.
    - now rewrite getline_segment. }
  rewrite Hmeth.
  destruct (String.eqb_spec type ""); [discriminate|].
  destruct (String.eqb_spec numberStr ""); [discriminate|].
  destruct (String.eqb_spec method ""); [discriminate|].
  cbn [orb]. rewrite Hstoi. unfold routeRequest. rewrite Hb.
  destruct (String.eqb _ type); reflexivity.
Qed.
End Manager.

(** *** A manager to run

    A device is its name and its interface mask, with the telescope
    interface at bit 0; a bridge is the name and number it was made for and
    answers a request with its method; a property is the name of its device
    and a request is its path. *)
Module Scripted.

Definition Device : Type := string * Z.
Definition Bridge : Type := string * Z.

Definition TelescopeBridge (d : Device) (n : Z) : Bridge := (fst d, n).

Definition handleRequest (method : string) (req : string) (b : Bridge)
  : string * Bridge := (method, b).

Definition State := DeviceManager.State Device Bridge.

Definition addDevice :=
  DeviceManager.addDevice Device fst snd 1 Bridge TelescopeBridge.
Definition removeDevice := DeviceManager.removeDevice Device fst Bridge.
Definition routeRequest :=
  DeviceManager.routeRequest Device string Bridge (fun _ => "telescope")
    string handleRequest.
Definition handleAlpacaRequest :=
  DeviceManager.handleAlpacaRequest Device string (fun p => p) Bridge fst
    (fun _ => "telescope") snd fst string handleRequest.
Definition run :=
  DeviceManager.run Device fst snd 1 string (fun p => p) string (fun p => p)
    Bridge TelescopeBridge fst (fun _ => "telescope") snd fst (fun _ b => b)
    string handleRequest.
Definition consistent := DeviceManager.consistent Device Bridge.

Definition mount : Device := ("iEQ", 1).
Definition panel : Device := ("Deep Sky Dad FP", 1536).

(** The registry before anything is added, the counter at 0. *)
Definition start : State := mkState Device Bridge empty empty empty 0.

(** A mount is added, asked for its connection state, removed and added
    again. *)
Definition session : list (Op Device string string) :=
  [Add _ _ _ mount; Handle _ _ _ "/api/v1/telescope/0/connected";
   Remove _ _ _ mount; Add _ _ _ mount].

Definition after (ops : list (Op Device string string)) (m : State) : State :=
  match run ops m with Some m' => m' | None => m end.

Definition afterSession : State := Eval vm_compute in after session start.

Definition withMount : State :=
  Eval vm_compute in after [Add _ _ _ mount] start.

Definition withPanel : State :=
  Eval vm_compute in after [Add _ _ _ panel] start.

Lemma registry_stays_consistent_witness :
  consistent start /\
  run session start = Some afterSession /\
  consistent afterSession.
Proof.
  assert (Hrun : run session start = Some afterSession)
    by (vm_compute; reflexivity).
  split; [apply consistent_empty|]. split; [exact Hrun|].
  exact (registry_stays_consistent Device fst snd 1 string (fun p => p)
           string (fun p => p) Bridge TelescopeBridge fst
           (fun _ => "telescope") snd fst (fun _ b => b) string
           handleRequest session start afterSession
           (consistent_empty Device Bridge 0) Hrun).
Defined.

(** The mount comes back with an interface mask that has lost the telescope
    bit: the bridge and the number it was given stay. *)
Lemma readded_device_keeps_its_entry_witness :
  addDevice mount start = Some withMount /\
  m_Bridges _ _ withMount !! 0 = Some ("iEQ", 0) /\
  option_map (fun m => (m_Bridges _ _ m !! 0, m_NextDeviceNumber _ _ m))
    (addDevice ("iEQ", 0) withMount)
  = Some (Some ("iEQ", 0), 1) /\
  addDevice mount withMount = Some withMount.
Proof.
  assert (Hadd : addDevice mount start = Some withMount)
    by (vm_compute; reflexivity).
  pose proof (readded_device_keeps_its_entry Device fst snd 1 Bridge
                TelescopeBridge mount ("iEQ", 0) start withMount Hadd
                eq_refl) as [H1 H2].
  split; [exact Hadd|]. split; [vm_compute; reflexivity|].
  split; [|exact H2].
  unfold addDevice. rewrite H1. vm_compute. reflexivity.
Defined.

(** The flap panel shows the auxiliary, light box and dust cap interfaces
    only. *)
Lemma device_without_bridge_is_not_removed_witness :
  addDevice panel start = Some withPanel /\
  m_Devices _ _ withPanel !! "Deep Sky Dad FP" = Some panel /\
  m_NextDeviceNumber _ _ withPanel = 1 /\
  removeDevice panel withPanel = withPanel.
Proof.
  destruct (device_without_bridge_is_not_removed Device fst snd 1 Bridge
              TelescopeBridge panel start eq_refl eq_refl eq_refl)
    as (m1 & Hadd & Hd & _ & _ & Hnext & Hrem).
  { vm_compute. discriminate. }
  assert (E : m1 = withPanel).
  { assert (Hp : addDevice panel start = Some withPanel)
      by (vm_compute; reflexivity).
    unfold addDevice in Hp. congruence. }
  subst m1. repeat split; assumption.
Defined.

Lemma add_then_remove_witness :
  addDevice mount start = Some withMount /\
  m_DeviceNumberMap _ _ withMount !! "iEQ" = Some 0 /\
  removeDevice mount withMount = mkState Device Bridge empty empty empty 1.
Proof.
  destruct (add_then_remove Device fst snd 1 Bridge TelescopeBridge mount
              start (consistent_empty Device Bridge 0) eq_refl eq_refl)
    as (m1 & Hadd & Hn & _ & Hrem).
  { vm_compute. discriminate. }
  assert (E : m1 = withMount).
  { assert (Hp : addDevice mount start = Some withMount)
      by (vm_compute; reflexivity).
    unfold addDevice in Hp. congruence. }
  subst m1. repeat split; assumption.
Defined.

(** The mount held number 0; after it is removed and added again a request
    to number 0 finds no device: the mount is now number 1. *)
Lemma device_numbers_are_never_reused_witness :
  consistent withMount /\
  m_DeviceNumberMap _ _ withMount !! "iEQ" = Some 0 /\
  let m' := after [Add _ _ _ mount] (removeDevice mount withMount) in
  m_DeviceNumberMap _ _ m' !! "iEQ" = Some 1 /\
  routeRequest 0 "telescope" "connected" "" m'
  = (Error 1003 "Device not found", m').
Proof.
  assert (Hc : consistent withMount).
  { exact (addDevice_consistent Device fst snd 1 Bridge TelescopeBridge
             mount start withMount (consistent_empty Device Bridge 0)
             eq_refl). }
  split; [exact Hc|]. split; [vm_compute; reflexivity|].
  cbv zeta. split; [vm_compute; reflexivity|].
  refine (proj2 (device_numbers_are_never_reused Device fst snd 1 string
                   (fun p => p) string (fun p => p) Bridge TelescopeBridge
                   fst (fun _ => "telescope") snd fst (fun _ b => b) string
                   handleRequest mount 0 [Add _ _ _ mount] withMount _ Hc
                   _ _) _ _ _).
  - vm_compute. reflexivity.
  - vm_compute. reflexivity.
Defined.

Lemma request_reaches_its_bridge_witness :
  handleAlpacaRequest "/api/v1/telescope/0/connected/now" withMount
  = (Bridged "connected", withMount) /\
  fst (handleAlpacaRequest "/api/v1/camera/0/connected" withMount)
  = Error 1004 "Device type mismatch".
Proof.
  split.
  - unfold handleAlpacaRequest.
    rewrite (request_reaches_its_bridge Device string (fun p => p) Bridge
               fst (fun _ => "telescope") snd fst string handleRequest
               "/api/v1/telescope/0/connected/now" withMount
               "telescope" "0" "connected" "/now" 0 ("iEQ", 0)
               eq_refl eq_refl eq_refl eq_refl
               (or_intror (ex_intro _ "now" eq_refl)) eq_refl eq_refl).
    vm_compute. reflexivity.
  - unfold handleAlpacaRequest.
    rewrite (request_reaches_its_bridge Device string (fun p => p) Bridge
               fst (fun _ => "telescope") snd fst string handleRequest
               "/api/v1/camera/0/connected" withMount
               "camera" "0" "connected" "" 0 ("iEQ", 0)
               eq_refl eq_refl eq_refl eq_refl (or_introl eq_refl)
               eq_refl eq_refl).
    reflexivity.
Defined.

End Scripted.

End DeviceManager.
